(** * Team analysis pipeline (app/lib/teamAnalysis.ts)

    A shallow embedding of [buildTeamAggregate], [calculateDelta],
    [generateAlerts] and [formatProficiency], followed by the properties
    that the written specification states about them; then of the code
    around them: the values and the missing pieces of the radar chart,
    the radar data that the page computes from the aggregate, and the
    user name that [getGenome] extracts from what it is given.

    Modelling conventions.
    - A JavaScript number is an IEEE-754 binary64 value: [spec_float] with
      precision 53 and maximal exponent 1024, computed upon with the
      operations of [SpecFloat].  Occurrence counters and array lengths are
      natural numbers (they are integers far below 2^53, where binary64
      arithmetic on them is exact) and are converted when they enter a
      division.
    - A string is the sequence of the bytes of its UTF-8 encoding, so
      that equality and concatenation are those of the strings.
    - What the engine provides and the code does not determine is a
      parameter of the development: [toLowerCase], the text of a number
      that is not an integer of magnitude at most 2^53, and the text of a
      member of [Object.prototype].  Every statement holds whatever these
      functions are; what a statement needs to know of them is one of
      its hypotheses.
    - The proficiency of a strength and the fluency of a language are
      the union types of app/types/api.ts; a field that is absent at run
      time is [None].
    - A [Map] is an association list in insertion order ([JSMap]).  A
      plain object used as a dictionary is the finite map of its own
      properties ([gmap string _], whose enumeration order is not
      represented) together with what it inherits: reading a name that is
      not an own property finds the member of [Object.prototype] of that
      name when there is one, and an assignment under the name
      [__proto__] stores no property.
    - [Array.prototype.sort] is stable; it is implemented by a stable
      insertion sort driven by the sign of the comparator.
    - A regular expression is the function that computes its leftmost
      match; under the flag [i] an ASCII letter of the pattern matches
      its two cases and nothing else.  White space, for [trim] and for
      [\s], is the white space and the line terminators of ECMAScript. *)

From Stdlib Require Import ZArith Lia List Bool Ascii String.
From Stdlib Require Import Sorting.Sorted Sorting.Permutation.
From Stdlib Require Import Floats.SpecFloat.
From stdpp Require Import gmap strings list fin_maps pretty.

Open Scope Z_scope.

Set Default Proof Using "Type".

(** ** Numbers *)

Module Num.

Abbreviation number := spec_float.

Definition prec : Z := 53.
Definition emax : Z := 1024.

Definition ofZ (z : Z) : number := binary_normalize prec emax z 0 false.
Definition ofNat (n : nat) : number := ofZ (Z.of_nat n).

Definition add : number -> number -> number := SFadd prec emax.
Definition sub : number -> number -> number := SFsub prec emax.
Definition mul : number -> number -> number := SFmul prec emax.
Definition div : number -> number -> number := SFdiv prec emax.

(** [x < y], [x > y], [x >= y] and [x === y]. *)
Definition lt (x y : number) : bool := SFltb x y.
Definition gt (x y : number) : bool := SFltb y x.
Definition ge (x y : number) : bool := SFleb y x.
Definition le (x y : number) : bool := SFleb x y.
Definition strictEq (x y : number) : bool := SFeqb x y.

Definition zero : number := S754_zero false.
Definition one : number := Eval vm_compute in ofZ 1.
Definition hundred : number := Eval vm_compute in ofZ 100.

(** A number is falsy when it is [0], [-0] or [NaN]. *)
Definition truthy (x : number) : bool :=
  match x with
  | S754_zero _ | S754_nan => false
  | _ => true
  end.

(** [x || y] on numbers. *)
Definition orElse (x y : number) : number := if truthy x then x else y.

(** [Math.round]: the nearest integer, ties towards +infinity; the sign
    of a zero result is the sign of the argument. *)
Definition mathRound (x : number) : number :=
  match x with
  | S754_finite s m e =>
      if 0 <=? e then x
      else
        let d := 2 ^ (- e) in
        let n := if s then Z.neg m else Z.pos m in
        let r := (2 * n + d) / (2 * d) in
        if r =? 0 then S754_zero s else ofZ r
  | _ => x
  end.

(** The integer part of a finite number (the number itself when it is an
    integer). *)
Definition integerPart (x : number) : Z :=
  match x with
  | S754_finite s m e =>
      let a := if 0 <=? e then Z.pos m * 2 ^ e else Z.pos m / 2 ^ (- e) in
      if s then - a else a
  | _ => 0
  end.

(** The integers of magnitude at most 2^53: between two of them there is
    no other decimal numeral that denotes the same number, so that the
    digits of such a number are those of the integer. *)
Definition isSafeInteger (x : number) : bool :=
  match x with
  | S754_zero _ => true
  | S754_finite _ m e =>
      if 0 <=? e then Z.pos m * 2 ^ e <=? 2 ^ 53
      else ((Z.pos m mod 2 ^ (- e) =? 0) && (Z.pos m / 2 ^ (- e) <=? 2 ^ 53))%bool
  | _ => false
  end.

End Num.

Import Num.

(** ** Strings *)

Definition lowerAscii (c : ascii) : ascii :=
  let n := nat_of_ascii c in
  if (Nat.leb 65 n && Nat.leb n 90)%bool then ascii_of_nat (n + 32) else c.

(** What [toLowerCase] does to a string of ASCII characters: the letters
    [A] to [Z] are replaced.  The properties below are instantiated with
    this function, on such strings. *)
Fixpoint asciiLowerCase (s : string) : string :=
  match s with
  | EmptyString => EmptyString
  | String c r => String (lowerAscii c) (asciiLowerCase r)
  end.

(** [Array.prototype.join]. *)
Definition join (sep : string) (l : list string) : string := String.concat sep l.

(** [s || 'unknown'] for an optional string field: absent and empty are
    both falsy. *)
Definition orUnknown (s : option string) : string :=
  match s with
  | Some EmptyString | None => "unknown"
  | Some v => v
  end.

(** ** Insertion-ordered maps *)

Module JSMap.

Section Ops.
Context {V : Type}.

Abbreviation t := (list (string * V)).

Fixpoint get (k : string) (m : t) : option V :=
  match m with
  | [] => None
  | (k', v) :: r => if String.eqb k k' then Some v else get k r
  end.

Definition has (k : string) (m : t) : bool :=
  match get k m with Some _ => true | None => false end.

(** [set] keeps the position of a key that is already present and
    appends a new key at the end. *)
Fixpoint set (k : string) (v : V) (m : t) : t :=
  match m with
  | [] => [(k, v)]
  | (k', v') :: r =>
      if String.eqb k k' then (k', v) :: r else (k', v') :: set k v r
  end.

Definition keys (m : t) : list string := List.map fst m.
Definition values (m : t) : list V := List.map snd m.
End Ops.

End JSMap.

(** ** Plain objects *)

(** The names of the members of [Object.prototype], which every plain
    object inherits: functions, and under [__proto__] an accessor that
    reads and replaces the prototype of the object. *)
Definition objectPrototypeKeys : list string :=
  ["constructor"; "__defineGetter__"; "__defineSetter__"; "hasOwnProperty";
   "__lookupGetter__"; "__lookupSetter__"; "isPrototypeOf"; "propertyIsEnumerable";
   "toString"; "valueOf"; "__proto__"; "toLocaleString"].

Definition isInherited (key : string) : bool :=
  existsb (String.eqb key) objectPrototypeKeys.

(** What [object[key]] finds in a plain object: an own property, or else
    the member of [Object.prototype] of that name, or else nothing
    ([undefined]).  An inherited member is a function or, under
    [__proto__], an object: it is truthy and it is not a number. *)
Inductive Member (V : Type) :=
  | ownMember (v : V)
  | inheritedMember
  | noMember.

Arguments ownMember {V} v.
Arguments inheritedMember {V}.
Arguments noMember {V}.

Definition getMember {V : Type} (object : gmap string V) (key : string) : Member V :=
  match object !! key with
  | Some v => ownMember v
  | None => if isInherited key then inheritedMember else noMember
  end.

(** [object[key] = value] for a value that is not an object.  Under
    [__proto__] the assignment goes to the accessor of [Object.prototype],
    which ignores such a value, unless the object has an own property of
    that name. *)
Definition setPrimitive {V : Type} (key : string) (value : V) (object : gmap string V)
    : gmap string V :=
  match object !! key with
  | None => if String.eqb key "__proto__" then object else <[key := value]> object
  | Some _ => <[key := value]> object
  end.

(** ** Stable sort *)

Section Sort.
Context {A : Type}.
(** [after a b] holds when the comparator is positive on [(a, b)], that
    is, when [a] has to come after [b]. *)
Variable after : A -> A -> bool.

Fixpoint insertSorted (x : A) (l : list A) : list A :=
  match l with
  | [] => [x]
  | y :: r => if after x y then y :: insertSorted x r else x :: y :: r
  end.

Fixpoint sortBy (l : list A) : list A :=
  match l with
  | [] => []
  | x :: r => insertSorted x (sortBy r)
  end.
End Sort.

(** ** Data model (app/types/api.ts) *)

Module Proficiency.
Inductive t := noExperienceInterested | novice | proficient | expert | master.

(** The string that a level is at run time. *)
Definition text (p : t) : string :=
  match p with
  | noExperienceInterested => "no-experience-interested"
  | novice => "novice"
  | proficient => "proficient"
  | expert => "expert"
  | master => "master"
  end.
End Proficiency.

Module Fluency.
Inductive t := basic | conversational | fullyFluent | nativeOrBilingual.

Definition text (f : t) : string :=
  match f with
  | basic => "basic"
  | conversational => "conversational"
  | fullyFluent => "fully-fluent"
  | nativeOrBilingual => "native-or-bilingual"
  end.
End Fluency.

Module GenomeStrength.
Record t := mk { name : string; proficiency : option Proficiency.t }.
End GenomeStrength.

Module GenomeLanguage.
Record t := mk { code : string; language : string; fluency : option Fluency.t }.
End GenomeLanguage.

(** [strength.proficiency] and [lang.fluency], as the strings that they
    are at run time. *)
Definition proficiencyOf (strength : GenomeStrength.t) : option string :=
  option_map Proficiency.text (GenomeStrength.proficiency strength).

Definition fluencyOf (lang : GenomeLanguage.t) : option string :=
  option_map Fluency.text (GenomeLanguage.fluency lang).

(** Only the two fields the analysis reads; each may be absent. *)
Module GenomeResponse.
Record t := mk {
  strengths : option (list GenomeStrength.t);
  languages : option (list GenomeLanguage.t) }.
End GenomeResponse.

Module SkillFrequency.
Record t := mk {
  skillName : string;
  count : nat;
  percentage : number;
  proficiencyLevels : gmap string nat }.
End SkillFrequency.

Module LanguageFrequency.
Record t := mk {
  count : nat;
  percentage : number;
  fluencyLevels : gmap string nat }.
End LanguageFrequency.

(** The object [TeamAggregate['languages']]: its own properties, and the
    entry that an assignment under [__proto__] has made its prototype, if
    any; without one the prototype is [Object.prototype]. *)
Module Languages.
Record t := mk {
  own : gmap string LanguageFrequency.t;
  prototype : option LanguageFrequency.t }.
End Languages.

Module TeamAggregate.
Record t := mk {
  totalMembers : nat;
  skills : list SkillFrequency.t;
  languages : Languages.t }.
End TeamAggregate.

Module SkillDelta.
Record t := mk {
  skillName : string;
  candidateProficiency : string;
  teamCoverage : number;
  teamProficiencyDistribution : gmap string number;
  isRedundant : bool;
  isValueAdd : bool }.
End SkillDelta.

Module LanguageDelta.
Record t := mk {
  languageCode : string;
  languageName : string;
  candidateFluency : string;
  teamCoverage : number;
  isValueAdd : bool }.
End LanguageDelta.

Module Summary.
Record t := mk {
  totalRedundantSkills : nat;
  totalValueAddSkills : nat;
  totalValueAddLanguages : nat;
  totalTeamMembers : nat }.
End Summary.

Module DeltaAnalysis.
Record t := mk {
  redundantSkills : list SkillDelta.t;
  valueAddSkills : list SkillDelta.t;
  valueAddLanguages : list LanguageDelta.t;
  summary : Summary.t }.
End DeltaAnalysis.

Inductive Severity := high | medium | low.

Module RedundancyAlert.
Record t := mk {
  severity : Severity;
  message : string;
  skills : list SkillDelta.t;
  count : number }.
End RedundancyAlert.

Module ValueAddAlert.
Record t := mk {
  message : string;
  skills : list SkillDelta.t;
  languages : list LanguageDelta.t }.
End ValueAddAlert.

Module Alerts.
Record t := mk {
  redundancyAlerts : list RedundancyAlert.t;
  valueAddAlert : option ValueAddAlert.t }.
End Alerts.

(** The data of the radar chart (app/components/RadarChart.tsx). *)
Module RadarDataPoint.
Record t := mk { skill : string; teamValue : number; candidateValue : number }.
End RadarDataPoint.

Module MissingPiece.
Record t := mk { index : nat; skill : string; extension : number }.
End MissingPiece.

(** The value of an entry of [allSkills] in [getRadarData]. *)
Module RadarEntry.
Record t := mk { teamValue : number; candidateProficiency : option string }.
End RadarEntry.

(** ** Thresholds *)

(** [0.8] and [0.2] as binary64 values. *)
Definition REDUNDANCY_THRESHOLD : number := S754_finite false 7205759403792794 (-53).
Definition VALUE_ADD_THRESHOLD : number := S754_finite false 7205759403792794 (-55).

(** [0.9] and [0.85], the severity cut-offs of [generateAlerts]. *)
Definition HIGH_SEVERITY : number := S754_finite false 8106479329266893 (-53).
Definition MEDIUM_SEVERITY : number := S754_finite false 7656119366529843 (-53).

(** ** buildTeamAggregate *)

(** The value of each [skillMap] and [languageMap] entry: an occurrence
    counter and a counter per proficiency (or fluency) level. *)
Module Tally.
Record t := mk { count : nat; levels : list (string * nat) }.
End Tally.

(** One iteration of either inner loop: create the entry on first sight,
    then bump its counter and the counter of the level. *)
Definition tally (key level : string) (m : list (string * Tally.t)) : list (string * Tally.t) :=
  let m1 := if JSMap.has key m then m else JSMap.set key (Tally.mk 0 []) m in
  match JSMap.get key m1 with
  | Some data =>
      let current := default 0%nat (JSMap.get level (Tally.levels data)) in
      JSMap.set key
        (Tally.mk (Tally.count data + 1)
                  (JSMap.set level (current + 1)%nat (Tally.levels data))) m1
  | None => m1
  end.

Definition tallyStrengths (m : list (string * Tally.t)) (genome : GenomeResponse.t) : list (string * Tally.t) :=
  match GenomeResponse.strengths genome with
  | Some l =>
      fold_left (fun m strength =>
        tally (GenomeStrength.name strength)
              (orUnknown (proficiencyOf strength)) m) l m
  | None => m
  end.

Definition tallyLanguages (m : list (string * Tally.t)) (genome : GenomeResponse.t) : list (string * Tally.t) :=
  match GenomeResponse.languages genome with
  | Some l =>
      fold_left (fun m lang =>
        tally (GenomeLanguage.code lang)
              (orUnknown (fluencyOf lang)) m) l m
  | None => m
  end.

(** [Math.round((count / totalMembers) * 100 * 100) / 100]. *)
Definition percentageOf (count totalMembers : nat) : number :=
  div (mathRound (mul (mul (div (ofNat count) (ofNat totalMembers)) hundred) hundred)) hundred.

(** Copy of a [Map] of counters into a plain object, one assignment per
    entry. *)
Definition toObject {V : Type} (m : list (string * V)) : gmap string V :=
  fold_left (fun o kv => setPrimitive (fst kv) (snd kv) o) m ∅.

Definition toSkillFrequency (totalMembers : nat) (entry : string * Tally.t) : SkillFrequency.t :=
  let (skillName, data) := entry in
  SkillFrequency.mk skillName (Tally.count data)
    (percentageOf (Tally.count data) totalMembers)
    (toObject (Tally.levels data)).

Definition toLanguageFrequency (totalMembers : nat) (data : Tally.t) : LanguageFrequency.t :=
  LanguageFrequency.mk (Tally.count data)
    (percentageOf (Tally.count data) totalMembers)
    (toObject (Tally.levels data)).

(** The comparator [(a, b) => b.count - a.count] is positive exactly when
    [a.count < b.count]. *)
Definition byCountDesc (a b : SkillFrequency.t) : bool :=
  0 <? Z.of_nat (SkillFrequency.count b) - Z.of_nat (SkillFrequency.count a).

(** The object [{}]. *)
Definition noLanguages : Languages.t := Languages.mk ∅ None.

(** [languages[langCode] = entry].  Under [__proto__] the assignment goes
    to the accessor of [Object.prototype]: the entry, an object, becomes
    the prototype of [languages], and no property is stored. *)
Definition setLanguage (langCode : string) (entry : LanguageFrequency.t)
    (languages : Languages.t) : Languages.t :=
  match Languages.own languages !! langCode with
  | None =>
      if String.eqb langCode "__proto__"
      then Languages.mk (Languages.own languages) (Some entry)
      else Languages.mk (<[langCode := entry]> (Languages.own languages))
                        (Languages.prototype languages)
  | Some _ =>
      Languages.mk (<[langCode := entry]> (Languages.own languages))
                   (Languages.prototype languages)
  end.

Definition emptyAggregate : TeamAggregate.t := TeamAggregate.mk 0 [] noLanguages.

(** One iteration of the outer loop, over both maps. *)
Definition tallyGenome (maps : list (string * Tally.t) * list (string * Tally.t))
    (genome : GenomeResponse.t) : list (string * Tally.t) * list (string * Tally.t) :=
  (tallyStrengths (fst maps) genome, tallyLanguages (snd maps) genome).

Definition buildTeamAggregate (genomes : option (list GenomeResponse.t)) : TeamAggregate.t :=
  match genomes with
  | None | Some [] => emptyAggregate
  | Some genomes =>
      let totalMembers := length genomes in
      let (skillMap, languageMap) := fold_left tallyGenome genomes ([], []) in
      let skills := sortBy byCountDesc (List.map (toSkillFrequency totalMembers) skillMap) in
      let languages :=
        fold_left (fun o kv => setLanguage (fst kv) (toLanguageFrequency totalMembers (snd kv)) o)
                  languageMap noLanguages in
      TeamAggregate.mk totalMembers skills languages
  end.

(** ** Constants of the radar chart and of the alerts *)

(** [0.1], [0.3] and [0.5] as binary64 values; [0.8] and [0.2] are the
    two thresholds above. *)
Definition ONE_TENTH : number := S754_finite false 7205759403792794 (-56).
Definition THREE_TENTHS : number := S754_finite false 5404319552844595 (-54).
Definition ONE_HALF : number := S754_finite false 4503599627370496 (-53).

(** ** What the engine provides *)

Section Engine.

(** [String.prototype.toLowerCase]. *)
Variable toLowerCase : string -> string.

(** The text that a template literal prints for a number that is neither
    [NaN], nor infinite, nor an integer of magnitude at most 2^53. *)
Variable numberText : number -> string.

(** The text that a template literal prints for the member of
    [Object.prototype] of a given name: the source text of a function,
    which depends on the engine. *)
Variable inheritedText : string -> string.

(** Conversion of a number to a string inside a template literal. *)
Definition toString (x : number) : string :=
  match x with
  | S754_nan => "NaN"
  | S754_infinity false => "Infinity"
  | S754_infinity true => "-Infinity"
  | _ => if isSafeInteger x then pretty (integerPart x) else numberText x
  end.

(** ** calculateDelta *)

(** The lookup table of team skills, keyed by lower-cased name; a later
    skill replaces an earlier one with the same key. *)
Definition teamSkillMap (team : TeamAggregate.t) : gmap string SkillFrequency.t :=
  fold_left (fun m skill => <[toLowerCase (SkillFrequency.skillName skill) := skill]> m)
            (TeamAggregate.skills team) ∅.

(** The [SkillDelta] record built for one candidate strength.  The
    distribution receives one assignment of a number per own property of
    [proficiencyLevels]; the one under [__proto__], if any, stores
    nothing. *)
Definition skillDelta (team : TeamAggregate.t) (strength : GenomeStrength.t) : SkillDelta.t :=
  let skillName := GenomeStrength.name strength in
  let candidateProficiency := orUnknown (proficiencyOf strength) in
  let skillKey := toLowerCase skillName in
  let teamSkill := teamSkillMap team !! skillKey in
  let teamCoverage :=
    match teamSkill with
    | Some skill => div (SkillFrequency.percentage skill) hundred
    | None => zero
    end in
  let teamProficiencyDistribution :=
    match teamSkill with
    | Some skill =>
        let totalTeamMembers := TeamAggregate.totalMembers team in
        delete "__proto__"
          ((fun count => percentageOf count totalTeamMembers)
             <$> SkillFrequency.proficiencyLevels skill)
    | None => ∅
    end in
  SkillDelta.mk skillName candidateProficiency teamCoverage teamProficiencyDistribution
    (gt teamCoverage REDUNDANCY_THRESHOLD) (lt teamCoverage VALUE_ADD_THRESHOLD).

(** One iteration of the loop over the candidate's strengths; the state is
    [(redundantSkills, valueAddSkills)]. *)
Definition classifySkill (team : TeamAggregate.t)
    (acc : list SkillDelta.t * list SkillDelta.t) (strength : GenomeStrength.t)
    : list SkillDelta.t * list SkillDelta.t :=
  let d := skillDelta team strength in
  if SkillDelta.isRedundant d then (fst acc ++ [d], snd acc)
  else if SkillDelta.isValueAdd d then (fst acc, snd acc ++ [d])
  else acc.

(** What [teamAggregate.languages[langCode]] finds: an entry, which is an
    own property or, under [__proto__], the prototype that an assignment
    has installed; a field of that prototype, under the name of the
    field; a member of [Object.prototype]; or nothing. *)
Inductive LanguageMember :=
  | languageEntry (entry : LanguageFrequency.t)
  | numberField (n : number)
  | levelsField (levels : gmap string nat)
  | inheritedLanguage
  | noLanguage.

Definition getLanguage (languages : Languages.t) (langCode : string) : LanguageMember :=
  match Languages.own languages !! langCode with
  | Some entry => languageEntry entry
  | None =>
      match Languages.prototype languages with
      | Some entry =>
          if String.eqb langCode "count"
          then numberField (ofNat (LanguageFrequency.count entry))
          else if String.eqb langCode "percentage"
          then numberField (LanguageFrequency.percentage entry)
          else if String.eqb langCode "fluencyLevels"
          then levelsField (LanguageFrequency.fluencyLevels entry)
          else if String.eqb langCode "__proto__" then languageEntry entry
          else if isInherited langCode then inheritedLanguage
          else noLanguage
      | None => if isInherited langCode then inheritedLanguage else noLanguage
      end
  end.

(** [teamLanguage ? teamLanguage.percentage / 100 : 0].  A number has no
    property [percentage], and neither has a member of
    [Object.prototype]: the quotient of [undefined] is [NaN]. *)
Definition languageCoverage (team : TeamAggregate.t) (langCode : string) : number :=
  match getLanguage (TeamAggregate.languages team) langCode with
  | languageEntry teamLanguage => div (LanguageFrequency.percentage teamLanguage) hundred
  | numberField n => if truthy n then S754_nan else zero
  | levelsField levels =>
      match getMember levels "percentage" with
      | ownMember count => div (ofNat count) hundred
      | _ => S754_nan
      end
  | inheritedLanguage => S754_nan
  | noLanguage => zero
  end.

(** One iteration of the loop over the candidate's languages. *)
Definition classifyLanguage (team : TeamAggregate.t)
    (acc : list LanguageDelta.t) (lang : GenomeLanguage.t) : list LanguageDelta.t :=
  let langCode := GenomeLanguage.code lang in
  let languageName := GenomeLanguage.language lang in
  let candidateFluency := orUnknown (fluencyOf lang) in
  let teamCoverage := languageCoverage team langCode in
  if lt teamCoverage VALUE_ADD_THRESHOLD
  then acc ++ [LanguageDelta.mk langCode languageName candidateFluency teamCoverage true]
  else acc.

(** [(a, b) => b.teamCoverage - a.teamCoverage] is positive. *)
Definition byCoverageDesc (a b : SkillDelta.t) : bool :=
  gt (sub (SkillDelta.teamCoverage b) (SkillDelta.teamCoverage a)) zero.

(** [(a, b) => a.teamCoverage - b.teamCoverage] is positive. *)
Definition byCoverageAsc (a b : SkillDelta.t) : bool :=
  gt (sub (SkillDelta.teamCoverage a) (SkillDelta.teamCoverage b)) zero.

Definition calculateDelta (candidateGenome : GenomeResponse.t) (teamAggregate : TeamAggregate.t)
    : DeltaAnalysis.t :=
  let (redundant0, valueAdd0) :=
    match GenomeResponse.strengths candidateGenome with
    | Some l => fold_left (classifySkill teamAggregate) l ([], [])
    | None => ([], [])
    end in
  let valueAddLanguages :=
    match GenomeResponse.languages candidateGenome with
    | Some l => fold_left (classifyLanguage teamAggregate) l []
    | None => []
    end in
  let redundantSkills := sortBy byCoverageDesc redundant0 in
  let valueAddSkills := sortBy byCoverageAsc valueAdd0 in
  DeltaAnalysis.mk redundantSkills valueAddSkills valueAddLanguages
    (Summary.mk (length redundantSkills) (length valueAddSkills)
                (length valueAddLanguages) (TeamAggregate.totalMembers teamAggregate)).

(** ** generateAlerts *)

(** [proficiencyMap[proficiency] || proficiency], as a template literal
    prints it. *)
Definition formatProficiency (proficiency : string) : string :=
  if String.eqb proficiency "no-experience-interested" then "No Experience (Interested)"
  else if String.eqb proficiency "novice" then "Novice"
  else if String.eqb proficiency "proficient" then "Proficient"
  else if String.eqb proficiency "expert" then "Expert"
  else if String.eqb proficiency "master" then "Master"
  else if isInherited proficiency then inheritedText proficiency
  else proficiency.

Definition formatFluency (fluency : string) : string :=
  if String.eqb fluency "basic" then "Basic"
  else if String.eqb fluency "conversational" then "Conversational"
  else if String.eqb fluency "fully-fluent" then "Fully Fluent"
  else if String.eqb fluency "native-or-bilingual" then "Native/Bilingual"
  else if isInherited fluency then inheritedText fluency
  else fluency.

(** The grouping key [`${skillName.toLowerCase()}_${candidateProficiency}`]. *)
Definition groupKey (skill : SkillDelta.t) : string :=
  toLowerCase (SkillDelta.skillName skill) +:+ "_" +:+ SkillDelta.candidateProficiency skill.

(** One iteration of the grouping loop. *)
Definition addToGroup (skillGroups : list (string * list SkillDelta.t)) (skill : SkillDelta.t)
    : list (string * list SkillDelta.t) :=
  let key := groupKey skill in
  let groups := if JSMap.has key skillGroups then skillGroups else JSMap.set key [] skillGroups in
  match JSMap.get key groups with
  | Some members => JSMap.set key (members ++ [skill]) groups
  | None => groups
  end.

Definition severityOf (teamCoverage : number) : Severity :=
  if ge teamCoverage HIGH_SEVERITY then high
  else if ge teamCoverage MEDIUM_SEVERITY then medium
  else low.

(** [delta.summary.totalTeamMembers || 1]. *)
Definition membersOrOne (totalTeamMembers : nat) : nat :=
  match totalTeamMembers with O => 1 | n => n end.

(** [skill.teamProficiencyDistribution[skill.candidateProficiency] || 0],
    as the division that follows reads it: a member of
    [Object.prototype] is truthy, hence kept, and is not a number. *)
Definition proficiencyPercentage (skill : SkillDelta.t) : number :=
  match getMember (SkillDelta.teamProficiencyDistribution skill)
                  (SkillDelta.candidateProficiency skill) with
  | ownMember p => orElse p zero
  | inheritedMember => S754_nan
  | noMember => zero
  end.

Definition exactMatchCount (totalMembers : nat) (skill : SkillDelta.t) : number :=
  mathRound (mul (div (proficiencyPercentage skill) hundred) (ofNat totalMembers)).

(** The body of the loop over the groups; [None] is the [continue] taken
    on an empty group. *)
Definition redundancyAlert (delta : DeltaAnalysis.t) (skills : list SkillDelta.t)
    : option RedundancyAlert.t :=
  match skills with
  | [] => None
  | skill :: _ =>
      let totalMembers := membersOrOne (Summary.totalTeamMembers (DeltaAnalysis.summary delta)) in
      let severity := severityOf (SkillDelta.teamCoverage skill) in
      let exact := exactMatchCount totalMembers skill in
      let message :=
        if gt exact zero
        then "Warning: You already have " +:+ toString exact +:+ " team member"
             +:+ (if gt exact one then "s" else "") +:+ " with "
             +:+ SkillDelta.skillName skill +:+ " at "
             +:+ formatProficiency (SkillDelta.candidateProficiency skill)
             +:+ " proficiency level."
        else "Warning: " +:+ toString (mathRound (mul (SkillDelta.teamCoverage skill) hundred))
             +:+ "% of your team already has " +:+ SkillDelta.skillName skill +:+ "." in
      Some (RedundancyAlert.mk severity message skills
              (orElse exact (mathRound (mul (SkillDelta.teamCoverage skill) (ofNat totalMembers)))))
  end.

(** The clause listing the skill names: the first three, and how many more. *)
Definition skillsClause (skillNames : list string) : string :=
  "skills '" +:+ join "', '" (firstn 3 skillNames)
  +:+ (if Nat.ltb 3 (length skillNames)
       then "' and " +:+ pretty (length skillNames - 3)%nat +:+ " more"
       else "'").

Definition languagesClause (languageNames : list string) : string :=
  "languages '" +:+ join "', '" languageNames +:+ "'".

Definition valueAddMessage (delta : DeltaAnalysis.t) : string :=
  let topValueAddSkills := firstn 10 (DeltaAnalysis.valueAddSkills delta) in
  let skillNames := List.map SkillDelta.skillName topValueAddSkills in
  let languageNames := List.map LanguageDelta.languageName (DeltaAnalysis.valueAddLanguages delta) in
  let additions :=
    (if Nat.ltb 0 (length skillNames) then [skillsClause skillNames] else [])
    ++ (if Nat.ltb 0 (length languageNames) then [languagesClause languageNames] else []) in
  if Nat.ltb 0 (length additions)
  then "Strong Hire: " +:+ "This candidate brings " +:+ join " and " additions
       +:+ "—skills your current team "
       +:+ (if existsb (fun s => strictEq (SkillDelta.teamCoverage s) zero)
                       (DeltaAnalysis.valueAddSkills delta)
            then "completely lacks" else "has limited coverage in")
       +:+ "."
  else "Strong Hire: ".

Definition generateAlerts (delta : DeltaAnalysis.t) : Alerts.t :=
  let skillGroups := fold_left addToGroup (DeltaAnalysis.redundantSkills delta) [] in
  let redundancyAlerts := omap (redundancyAlert delta) (JSMap.values skillGroups) in
  let valueAddAlert :=
    if (Nat.ltb 0 (length (DeltaAnalysis.valueAddSkills delta))
        || Nat.ltb 0 (length (DeltaAnalysis.valueAddLanguages delta)))%bool
    then Some (ValueAddAlert.mk (valueAddMessage delta)
                 (firstn 10 (DeltaAnalysis.valueAddSkills delta))
                 (DeltaAnalysis.valueAddLanguages delta))
    else None in
  Alerts.mk redundancyAlerts valueAddAlert.

(** ** RadarChart (app/components/RadarChart.tsx) *)

(** [map[proficiency.toLowerCase()] || 0.3], as the arithmetic of the
    chart reads it: a member of [Object.prototype] is truthy, hence
    returned, and every operation on it gives [NaN]. *)
Definition proficiencyToValue (proficiency : string) : number :=
  let key := toLowerCase proficiency in
  let value :=
    if String.eqb key "master" then ownMember one
    else if String.eqb key "expert" then ownMember REDUNDANCY_THRESHOLD
    else if String.eqb key "proficient" then ownMember ONE_HALF
    else if String.eqb key "novice" then ownMember THREE_TENTHS
    else if String.eqb key "no-experience-interested" then ownMember ONE_TENTH
    else if isInherited key then inheritedMember
    else noMember in
  match value with
  | ownMember v => orElse v THREE_TENTHS
  | inheritedMember => S754_nan
  | noMember => THREE_TENTHS
  end.

(** [(a, b) => b.extension - a.extension] is positive. *)
Definition byExtensionDesc (a b : MissingPiece.t) : bool :=
  gt (sub (MissingPiece.extension b) (MissingPiece.extension a)) zero.

(** The pairs of an array with their indices, as [map((point, index) => ...)]
    sees them. *)
Fixpoint indexed {A} (start : nat) (l : list A) : list (nat * A) :=
  match l with
  | [] => []
  | x :: r => (start, x) :: indexed (S start) r
  end.

(** The skills in which the candidate extends beyond the team by more than
    [0.2], the largest extension first. *)
Definition missingPieces (data : list RadarDataPoint.t) : list MissingPiece.t :=
  sortBy byExtensionDesc
    (List.filter (fun item => gt (MissingPiece.extension item) VALUE_ADD_THRESHOLD)
       (List.map (fun ip =>
                    MissingPiece.mk (fst ip) (RadarDataPoint.skill (snd ip))
                      (sub (RadarDataPoint.candidateValue (snd ip))
                           (RadarDataPoint.teamValue (snd ip))))
                 (indexed 0 data))).

(** ** The radar data of the page ([getRadarData] of app/page.tsx) *)

(** [a || b] on optional strings: absent and empty are falsy. *)
Definition orString (a : option string) (b : string) : string :=
  match a with
  | Some EmptyString | None => b
  | Some v => v
  end.

Definition addTeamSkill (allSkills : list (string * RadarEntry.t)) (skill : SkillFrequency.t)
    : list (string * RadarEntry.t) :=
  JSMap.set (toLowerCase (SkillFrequency.skillName skill))
    (RadarEntry.mk (div (SkillFrequency.percentage skill) hundred) None) allSkills.

Definition addDistinctSkill (allSkills : list (string * RadarEntry.t)) (skill : GenomeStrength.t)
    : list (string * RadarEntry.t) :=
  let key := toLowerCase (GenomeStrength.name skill) in
  let m := if JSMap.has key allSkills then allSkills
           else JSMap.set key (RadarEntry.mk zero None) allSkills in
  match JSMap.get key m with
  | Some existing =>
      JSMap.set key (RadarEntry.mk (RadarEntry.teamValue existing)
                       (proficiencyOf skill)) m
  | None => m
  end.

Definition addCandidateValue (allSkills : list (string * RadarEntry.t)) (skill : GenomeStrength.t)
    : list (string * RadarEntry.t) :=
  let key := toLowerCase (GenomeStrength.name skill) in
  if JSMap.has key allSkills then
    match JSMap.get key allSkills with
    | Some existing =>
        JSMap.set key (RadarEntry.mk (RadarEntry.teamValue existing)
                         (proficiencyOf skill)) allSkills
    | None => allSkills
    end
  else allSkills.

Definition getRadarData (teamAggregate : option TeamAggregate.t)
    (candidateGenome : option GenomeResponse.t) : list RadarDataPoint.t :=
  match teamAggregate with
  | None => []
  | Some team =>
      let teamSkills := firstn 6 (TeamAggregate.skills team) in
      let candidateSkills :=
        match candidateGenome with
        | Some genome => default [] (GenomeResponse.strengths genome)
        | None => []
        end in
      let teamSkillNames :=
        List.map (fun s => toLowerCase (SkillFrequency.skillName s)) teamSkills in
      let distinctCandidateSkills :=
        firstn 2 (List.filter
                    (fun s => negb (existsb (String.eqb (toLowerCase (GenomeStrength.name s)))
                                      teamSkillNames))
                    candidateSkills) in
      let allSkills0 := fold_left addTeamSkill teamSkills [] in
      let allSkills1 := fold_left addDistinctSkill distinctCandidateSkills allSkills0 in
      let allSkills :=
        match candidateGenome with
        | Some _ => fold_left addCandidateValue candidateSkills allSkills1
        | None => allSkills1
        end in
      List.map
        (fun entry =>
           let skillName := fst entry in
           let data := snd entry in
           let originalSkillName :=
             orString
               (option_map SkillFrequency.skillName
                  (List.find (fun s => String.eqb (toLowerCase (SkillFrequency.skillName s)) skillName)
                     teamSkills))
               (orString
                  (option_map GenomeStrength.name
                     (List.find (fun s => String.eqb (toLowerCase (GenomeStrength.name s)) skillName)
                        distinctCandidateSkills))
                  skillName) in
           RadarDataPoint.mk originalSkillName (RadarEntry.teamValue data)
             (match RadarEntry.candidateProficiency data with
              | Some EmptyString | None => zero
              | Some p => proficiencyToValue p
              end))
        allSkills
  end.

(** ** The user name of a genome request ([getGenome] of app/lib/api.ts) *)

(** The number of bytes of the white-space character at the start of a
    string, [0] when the string does not start with one.  White space is
    what [trim] removes and [\s] matches: U+0009 to U+000D, U+0020,
    U+00A0, U+1680, U+2000 to U+200A, U+2028, U+2029, U+202F, U+205F,
    U+3000 and U+FEFF. *)
Definition spaceWidth (s : string) : nat :=
  match s with
  | String a r =>
      let a := nat_of_ascii a in
      if ((Nat.leb 9 a && Nat.leb a 13) || Nat.eqb a 32)%bool then 1%nat
      else
        match r with
        | String b r' =>
            let b := nat_of_ascii b in
            if (Nat.eqb a 194 && Nat.eqb b 160)%bool then 2%nat
            else
              match r' with
              | String c _ =>
                  let c := nat_of_ascii c in
                  if ((Nat.eqb a 225 && Nat.eqb b 154 && Nat.eqb c 128)
                      || (Nat.eqb a 226 && Nat.eqb b 128
                          && ((Nat.leb 128 c && Nat.leb c 138)
                              || Nat.eqb c 168 || Nat.eqb c 169 || Nat.eqb c 175))
                      || (Nat.eqb a 226 && Nat.eqb b 129 && Nat.eqb c 159)
                      || (Nat.eqb a 227 && Nat.eqb b 128 && Nat.eqb c 128)
                      || (Nat.eqb a 239 && Nat.eqb b 187 && Nat.eqb c 191))%bool
                  then 3%nat else 0%nat
              | EmptyString => 0%nat
              end
        | EmptyString => 0%nat
        end
  | EmptyString => 0%nat
  end.

Definition isSlash (c : ascii) : bool := Ascii.eqb c "/".

(** [trimStart]: [skip] is the number of bytes still to be removed of the
    white-space character that is being removed. *)
Fixpoint trimStartFrom (skip : nat) (s : string) : string :=
  match s with
  | String _ r =>
      match skip with
      | S k => trimStartFrom k r
      | O =>
          match spaceWidth s with
          | S k => trimStartFrom k r
          | O => s
          end
      end
  | EmptyString => s
  end.

Definition trimStart (s : string) : string := trimStartFrom 0 s.

(** A string of white space only. *)
Definition blank (s : string) : bool :=
  match trimStart s with EmptyString => true | _ => false end.

(** [trimEnd]: the string is cut where its white-space end begins. *)
Fixpoint trimEnd (s : string) : string :=
  match s with
  | String c r => if blank s then EmptyString else String c (trimEnd r)
  | EmptyString => EmptyString
  end.

Definition trim (s : string) : string := trimEnd (trimStart s).

(** The rest of [s] after the literal [lit], compared without regard to
    the case of ASCII letters, as under the flag [i]. *)
Fixpoint afterLiteral (lit s : string) : option string :=
  match lit, s with
  | EmptyString, _ => Some s
  | String a lit', String c s' =>
      if Ascii.eqb (lowerAscii a) (lowerAscii c) then afterLiteral lit' s' else None
  | String _ _, EmptyString => None
  end.

(** The longest prefix of characters that are not [stop], and the rest. *)
Fixpoint dropWhileNot (stop : ascii -> bool) (s : string) : string :=
  match s with
  | String c r => if stop c then s else dropWhileNot stop r
  | EmptyString => EmptyString
  end.

(** [s.replace(/^https?:\/\/[^\/]+/i, '')]: a scheme and a host at the
    start of the string are removed. *)
Definition removeOrigin (s : string) : string :=
  match afterLiteral "http" s with
  | Some r =>
      let afterS :=
        match r with
        | String c r' => if Ascii.eqb (lowerAscii c) "s" then afterLiteral "://" r' else None
        | EmptyString => None
        end in
      let rest := match afterS with Some x => Some x | None => afterLiteral "://" r end in
      match rest with
      | Some (String c host) => if isSlash c then s else dropWhileNot isSlash host
      | _ => s
      end
  | None => s
  end.

Fixpoint allChars (p : ascii -> bool) (s : string) : bool :=
  match s with
  | String c r => (p c && allChars p r)%bool
  | EmptyString => true
  end.

(** No white-space character in the string. *)
Fixpoint noSpace (s : string) : bool :=
  match s with
  | String _ r => (Nat.eqb (spaceWidth s) 0 && noSpace r)%bool
  | EmptyString => true
  end.

Definition noSlash (s : string) : bool := allChars (fun c => negb (isSlash c)) s.

(** [bios\/([^\/\s]+)$] matched at the start of [s]: the capture. *)
Definition biosHere (s : string) : option string :=
  match afterLiteral "bios/" s with
  | Some (String c r) =>
      if (noSlash (String c r) && noSpace (String c r))%bool
      then Some (String c r) else None
  | _ => None
  end.

(** [\/?bios\/([^\/\s]+)$] matched at the start of [s]: the slash is
    taken when there is one, and given back when the rest does not match. *)
Definition biosAt (s : string) : option string :=
  match s with
  | String c r =>
      if isSlash c then
        match biosHere r with
        | Some capture => Some capture
        | None => biosHere s
        end
      else biosHere s
  | EmptyString => biosHere s
  end.

(** [s.match(/\/?bios\/([^\/\s]+)$/i)]: the capture of the leftmost match. *)
Fixpoint biosMatch (s : string) : option string :=
  match biosAt s with
  | Some capture => Some capture
  | None =>
      match s with
      | String _ r => biosMatch r
      | EmptyString => None
      end
  end.

(** [s.split('/')]. *)
Fixpoint splitSlash (s : string) : list string :=
  match s with
  | EmptyString => [EmptyString]
  | String c r =>
      if isSlash c then EmptyString :: splitSlash r
      else match splitSlash r with
           | first :: others => String c first :: others
           | [] => [String c EmptyString]
           end
  end.

Definition nonEmpty (s : string) : bool :=
  match s with EmptyString => false | _ => true end.

(** [s.replace(/^\//, '')]. *)
Definition removeLeadingSlash (s : string) : string :=
  match s with
  | String c r => if isSlash c then r else s
  | EmptyString => s
  end.

(** The two errors that [getGenome] throws before it sends a request. *)
Inductive UsernameError :=
  | NonEmptyStringRequired   (* 'Username is required and must be a non-empty string' *)
  | UsernameRequired.        (* 'Username required' *)

(** The user name that [getGenome] puts in the request, or the error it
    throws instead of sending one. *)
Definition cleanUsername (username : string) : UsernameError + string :=
  if negb (nonEmpty username) || Nat.eqb (String.length (trim username)) 0 then
    inl NonEmptyStringRequired
  else
    let raw := trim username in
    let clean0 := removeOrigin raw in
    let clean1 :=
      match biosMatch clean0 with
      | Some capture => capture
      | None =>
          let parts := List.filter nonEmpty (splitSlash clean0) in
          match parts with
          | [] => clean0
          | _ => List.last parts EmptyString
          end
      end in
    let clean := removeLeadingSlash (trim clean1) in
    if nonEmpty clean then inr clean else inl UsernameRequired.

(** * Vocabulary of the statements *)

Definition isNaN (x : number) : bool :=
  match x with S754_nan => true | _ => false end.

(** The position of a number in the order of [SFcompare], as a triple
    compared lexicographically. *)
Definition rank (x : number) : Z * Z * Z :=
  match x with
  | S754_nan => (0, 0, 0)
  | S754_zero _ => (0, 0, 0)
  | S754_infinity false => (2, 0, 0)
  | S754_infinity true => (-2, 0, 0)
  | S754_finite false m e => (1, e, Z.pos m)
  | S754_finite true m e => (-1, - e, Z.neg m)
  end.

Definition rankLt (a b : Z * Z * Z) : Prop :=
  let '(a1, a2, a3) := a in
  let '(b1, b2, b3) := b in
  a1 < b1 \/ (a1 = b1 /\ (a2 < b2 \/ (a2 = b2 /\ a3 < b3))).

Abbreviation fexp := (SpecFloat.fexp prec emax).
Abbreviation emin := (SpecFloat.emin prec emax).

Definition isPositive (x : spec_float) : bool :=
  match x with
  | S754_finite false _ _ | S754_infinity false => true
  | _ => false
  end.

Definition isNegative (x : spec_float) : bool :=
  match x with
  | S754_finite true _ _ | S754_infinity true => true
  | _ => false
  end.

Definition signed (s : bool) (x : spec_float) : Prop :=
  (exists m e, x = S754_finite s m e) \/ x = S754_infinity s.

(** The integer that a finite number is, in units of [2 ^ ez]. *)
Definition aligned (s : bool) (m : positive) (e ez : Z) : Z :=
  cond_Zopp s (Z.pos m * 2 ^ (e - ez)).

(** [x] is zero, or positive and at most the integer [B]; the comparison is
    made on integers, after scaling by [2 ^ S]. *)
Definition boundedBy (S B : Z) (x : spec_float) : Prop :=
  match x with
  | S754_zero _ => True
  | S754_finite false m e => 0 <= e + S /\ Z.pos m * 2 ^ (e + S) <= B * 2 ^ S
  | _ => False
  end.

Definition mantissa100 : positive := 7036874417766400.

(** The skill names of one profile, and of all profiles, in order. *)
Definition strengthNames (genome : GenomeResponse.t) : list string :=
  match GenomeResponse.strengths genome with
  | Some l => List.map GenomeStrength.name l
  | None => []
  end.

Definition observedNames (genomes : list GenomeResponse.t) : list string :=
  flat_map strengthNames genomes.

Definition occurrences (k : string) (l : list string) : nat :=
  length (List.filter (String.eqb k) l).

(** The number of profiles that list a skill of that name. *)
Definition profilesWith (k : string) (genomes : list GenomeResponse.t) : nat :=
  length (List.filter (fun g => existsb (String.eqb k) (strengthNames g)) genomes).

(** The distinct elements of a list, in order of first appearance. *)
Definition addKey (acc : list string) (k : string) : list string :=
  if existsb (String.eqb k) acc then acc else (acc ++ [k])%list.

Definition firstSeen (l : list string) : list string := fold_left addKey l [].

Definition countOf (k : string) (m : list (string * Tally.t)) : nat :=
  match JSMap.get k m with Some d => Tally.count d | None => 0%nat end.

(** The skills of the aggregate before they are sorted. *)
Definition talliedSkills (genomes : list GenomeResponse.t) : list SkillFrequency.t :=
  List.map (toSkillFrequency (length genomes)) (fold_left tallyStrengths genomes []).

Definition candidateStrengths (candidate : GenomeResponse.t) : list GenomeStrength.t :=
  default [] (GenomeResponse.strengths candidate).

Definition candidateLanguages (candidate : GenomeResponse.t) : list GenomeLanguage.t :=
  default [] (GenomeResponse.languages candidate).

Definition languageDelta (team : TeamAggregate.t) (lang : GenomeLanguage.t) : LanguageDelta.t :=
  LanguageDelta.mk (GenomeLanguage.code lang) (GenomeLanguage.language lang)
    (orUnknown (fluencyOf lang))
    (languageCoverage team (GenomeLanguage.code lang)) true.

Definition rareLanguage (team : TeamAggregate.t) (lang : GenomeLanguage.t) : bool :=
  lt (languageCoverage team (GenomeLanguage.code lang)) VALUE_ADD_THRESHOLD.

Definition onlyValueAdd (d : SkillDelta.t) : bool :=
  (negb (SkillDelta.isRedundant d) && SkillDelta.isValueAdd d)%bool.

(** The last team skill whose lower-cased name is [key]. *)
Definition lastMatch (key : string) (skills : list SkillFrequency.t) : option SkillFrequency.t :=
  List.find (fun f => String.eqb (toLowerCase (SkillFrequency.skillName f)) key) (rev skills).

(** The groups of redundant skills: one per distinct key, in order of first
    appearance, each with its members in their original order. *)
Definition sameKey (k : string) (skill : SkillDelta.t) : bool := String.eqb (groupKey skill) k.

Definition groupsOf (l : list SkillDelta.t) : list (list SkillDelta.t) :=
  List.map (fun k => List.filter (sameKey k) l) (firstSeen (List.map groupKey l)).

(** The alert of a non-empty group. *)
Definition alertOf (delta : DeltaAnalysis.t) (skill : SkillDelta.t) (members : list SkillDelta.t)
    : RedundancyAlert.t :=
  let totalMembers := membersOrOne (Summary.totalTeamMembers (DeltaAnalysis.summary delta)) in
  let exact := exactMatchCount totalMembers skill in
  RedundancyAlert.mk (severityOf (SkillDelta.teamCoverage skill))
    (if gt exact zero
     then "Warning: You already have " +:+ toString exact +:+ " team member"
          +:+ (if gt exact one then "s" else "") +:+ " with "
          +:+ SkillDelta.skillName skill +:+ " at "
          +:+ formatProficiency (SkillDelta.candidateProficiency skill)
          +:+ " proficiency level."
     else "Warning: " +:+ toString (mathRound (mul (SkillDelta.teamCoverage skill) hundred))
          +:+ "% of your team already has " +:+ SkillDelta.skillName skill +:+ ".")
    members
    (orElse exact (mathRound (mul (SkillDelta.teamCoverage skill) (ofNat totalMembers)))).

Fixpoint noUnderscore (s : string) : bool :=
  match s with
  | EmptyString => true
  | String c r => (negb (Ascii.eqb c "_") && noUnderscore r)%bool
  end.

(** [s] ends with [suffix]: some tail of [s] is [suffix]. *)
Fixpoint endsWith (suffix s : string) : bool :=
  (String.eqb s suffix
   || match s with
      | EmptyString => false
      | String _ r => endsWith suffix r
      end)%bool.

(** The two message templates of a redundancy alert, in the words of the
    specification. *)
Definition exactMatchMessage (n : number) (skill : SkillDelta.t) : string :=
  "Warning: You already have " +:+ toString n +:+ " team "
  +:+ (if gt n one then "members" else "member") +:+ " with "
  +:+ SkillDelta.skillName skill +:+ " at "
  +:+ formatProficiency (SkillDelta.candidateProficiency skill) +:+ " proficiency level.".

Definition coverageMessage (skill : SkillDelta.t) : string :=
  "Warning: " +:+ toString (mathRound (mul (SkillDelta.teamCoverage skill) hundred))
  +:+ "% of your team already has " +:+ SkillDelta.skillName skill +:+ ".".

(** A delta written by hand: a team of ten and one redundant skill, which
    90% of the team have at the candidate's level. *)
Definition tenMembers : DeltaAnalysis.t :=
  DeltaAnalysis.mk
    [SkillDelta.mk "Go" "expert" HIGH_SEVERITY {[ "expert" := ofZ 90 ]} true false]
    [] [] (Summary.mk 1 0 0 10).

Definition LACKS : string := "—skills your current team completely lacks.".
Definition LIMITED : string := "—skills your current team has limited coverage in.".

Definition uncovered (skill : SkillDelta.t) : bool :=
  strictEq (SkillDelta.teamCoverage skill) zero.

(** A delta written by hand: eleven value-add skills in ascending order
    of coverage, the first covered by nobody and the others by 10% of the
    team. *)
Definition elevenSkills : DeltaAnalysis.t :=
  DeltaAnalysis.mk []
    (SkillDelta.mk "Rust" "novice" zero ∅ false true
     :: repeat (SkillDelta.mk "Go" "novice" (div (ofZ 10) hundred) ∅ false true) 10)
    [] (Summary.mk 0 11 0 5).

(** A candidate with a skill and a language of his own. *)
Definition rustCandidate : GenomeResponse.t :=
  GenomeResponse.mk (Some [GenomeStrength.mk "Rust" (Some Proficiency.novice)])
    (Some [GenomeLanguage.mk "fr" "French" (Some Fluency.basic)]).

(** A string made of a no-break space (U+00A0). *)
Definition noBreakSpace : string :=
  String (ascii_of_nat 194) (String (ascii_of_nat 160) EmptyString).

(** The sign bit of a number is clear (or the number is [NaN]). *)
Definition signClear (x : number) : bool :=
  match x with
  | S754_zero s | S754_infinity s | S754_finite s _ _ => negb s
  | S754_nan => true
  end.

(** A team of ten: nine list "Python" and one lists "python". *)
Definition twoSpellings : list GenomeResponse.t :=
  repeat (GenomeResponse.mk (Some [GenomeStrength.mk "Python" (Some Proficiency.expert)]) None) 9
  ++ [GenomeResponse.mk (Some [GenomeStrength.mk "python" (Some Proficiency.novice)]) None].


(** One profile that lists "Go" twice. *)
Definition listedTwice : list GenomeResponse.t :=
  [GenomeResponse.mk
     (Some [GenomeStrength.mk "Go" (Some Proficiency.expert); GenomeStrength.mk "Go" (Some Proficiency.novice)])
     None].

(** A team of ten, nine of whom have Go at the expert level, and a
    candidate with the same skill. *)
Definition goExpert : GenomeResponse.t :=
  GenomeResponse.mk (Some [GenomeStrength.mk "Go" (Some Proficiency.expert)]) None.

Definition nineOfTen : option (list GenomeResponse.t) :=
  Some (repeat goExpert 9 ++ [GenomeResponse.mk (Some []) None]).

(** The observations that the two inner loops of [buildTeamAggregate]
    tally: a key and a level each. *)
Definition strengthObservations (genome : GenomeResponse.t) : list (string * string) :=
  match GenomeResponse.strengths genome with
  | Some l => List.map (fun s => (GenomeStrength.name s, orUnknown (proficiencyOf s))) l
  | None => []
  end.

Definition languageObservations (genome : GenomeResponse.t) : list (string * string) :=
  match GenomeResponse.languages genome with
  | Some l => List.map (fun s => (GenomeLanguage.code s, orUnknown (fluencyOf s))) l
  | None => []
  end.

Definition tallyAll (m : list (string * Tally.t)) (obs : list (string * string))
    : list (string * Tally.t) :=
  fold_left (fun m kl => tally (fst kl) (snd kl) m) obs m.

(** The number of observations of the key [k] at the level [l]. *)
Definition occurrencesAt (k l : string) (obs : list (string * string)) : nat :=
  length (List.filter (fun kl => (String.eqb k (fst kl) && String.eqb l (snd kl))%bool) obs).

Definition levelCount (k l : string) (m : list (string * Tally.t)) : nat :=
  match JSMap.get k m with
  | Some d => default 0%nat (JSMap.get l (Tally.levels d))
  | None => 0%nat
  end.

Definition sumValues (m : list (string * nat)) : nat :=
  fold_right (fun kv acc => (snd kv + acc)%nat) 0%nat m.

(** The sum of the counters of an object of counters. *)
Definition sumLevels (o : gmap string nat) : nat :=
  map_fold (fun _ c acc => (c + acc)%nat) 0%nat o.

(** Every entry of a map of tallies has distinct levels, whose counters are
    positive and add up to the counter of the entry. *)
Definition balanced (m : list (string * Tally.t)) : Prop :=
  Forall (fun kd => List.NoDup (JSMap.keys (Tally.levels (snd kd)))
                    /\ Tally.count (snd kd) = sumValues (Tally.levels (snd kd))
                    /\ Forall (fun lv => (1 <= snd lv)%nat) (Tally.levels (snd kd))) m.

(** A candidate skill that is neither redundant nor a value-add. *)
Definition unremarkable (d : SkillDelta.t) : bool :=
  (negb (SkillDelta.isRedundant d) && negb (SkillDelta.isValueAdd d))%bool.

(** The order of the severities: low, medium, high. *)
Definition severityLevel (s : Severity) : nat :=
  match s with low => 0 | medium => 1 | high => 2 end.

(** The skill that heads a group. *)
Definition leader (g : list SkillDelta.t) : SkillDelta.t :=
  List.hd (SkillDelta.mk "" "" zero ∅ false false) g.

(** Equality of numbers as values: same kind, sign, mantissa and exponent. *)
Definition sameNumber (x y : number) : bool :=
  match x, y with
  | S754_zero s, S754_zero s' | S754_infinity s, S754_infinity s' => Bool.eqb s s'
  | S754_nan, S754_nan => true
  | S754_finite s m e, S754_finite s' m' e' => (Bool.eqb s s' && Pos.eqb m m' && Z.eqb e e')%bool
  | _, _ => false
  end.

(** The count that [generateAlerts] computes back from the percentage that
    [calculateDelta] stored for [c] members out of [total]. *)
Definition countFromPercentage (total c : nat) : number :=
  mathRound (mul (div (orElse (percentageOf c total) zero) hundred) (ofNat total)).

Definition recoversCount (total c : nat) : bool :=
  sameNumber (countFromPercentage total c) (ofNat c).

(** A check of every team size from 1 to [n] and every count from 0 to the
    size of the team. *)
Definition forTeamsUpTo (check : nat -> nat -> bool) (n : nat) : bool :=
  forallb (fun t => forallb (check (S t)) (seq 0 (S (S t)))) (seq 0 n).

(** The largest team for which the conversions are checked one by one. *)
Definition checkedTeamSize : nat := 100.

(** The language codes of one profile, in order. *)
Definition languageCodes (genome : GenomeResponse.t) : list string :=
  List.map fst (languageObservations genome).

(** Every member having the skill makes its percentage 100. *)
Definition fullShare (total c : nat) : bool :=
  if Nat.eqb c total then sameNumber (percentageOf c total) hundred else true.

(** A team of ten, nine of whom have Go at the expert level, and the
    alert that a candidate with the same skill gets. *)
Definition tenProfiles : list GenomeResponse.t :=
  repeat goExpert 9 ++ [GenomeResponse.mk (Some []) None].

Definition goSkill : SkillDelta.t :=
  skillDelta (buildTeamAggregate (Some tenProfiles)) (GenomeStrength.mk "Go" (Some Proficiency.expert)).

Definition goAlert : RedundancyAlert.t :=
  alertOf (calculateDelta goExpert (buildTeamAggregate (Some tenProfiles))) goSkill [goSkill].

(** The keys of [allSkills]: the lower-cased names of the team's first
    six skills, then those of the candidate's distinct skills. *)
Definition radarKeys (team : TeamAggregate.t) (candidateGenome : option GenomeResponse.t)
    : list string :=
  let teamSkills := firstn 6 (TeamAggregate.skills team) in
  let candidateSkills :=
    match candidateGenome with
    | Some genome => default [] (GenomeResponse.strengths genome)
    | None => []
    end in
  let teamSkillNames := List.map (fun s => toLowerCase (SkillFrequency.skillName s)) teamSkills in
  let distinctCandidateSkills :=
    firstn 2 (List.filter
                (fun s => negb (existsb (String.eqb (toLowerCase (GenomeStrength.name s)))
                                  teamSkillNames))
                candidateSkills) in
  firstSeen (teamSkillNames
             ++ List.map (fun s => toLowerCase (GenomeStrength.name s)) distinctCandidateSkills).

Definition onlySlashes (s : string) : bool := allChars isSlash s.

(** The non-empty segments of a path. *)
Definition segments (s : string) : list string := List.filter nonEmpty (splitSlash s).

(** A level that is the name of no member of [Object.prototype]. *)
Definition ordinaryLevel (level : string) : Prop :=
  level <> "__proto__" /\ isInherited level = false.

(** The entry that the object of the languages keeps for a code: its own
    property of that name or, for [__proto__], its prototype. *)
Definition storedLanguage (languages : Languages.t) (code : string)
    : option LanguageFrequency.t :=
  if String.eqb code "__proto__" then Languages.prototype languages
  else Languages.own languages !! code.

(** The value of each level on the radar. *)
Definition levelValue (level : Proficiency.t) : number :=
  match level with
  | Proficiency.master => one
  | Proficiency.expert => REDUNDANCY_THRESHOLD
  | Proficiency.proficient => ONE_HALF
  | Proficiency.novice => THREE_TENTHS
  | Proficiency.noExperienceInterested => ONE_TENTH
  end.

(** Texts for what the sample inputs never print. *)
Definition noText {A : Type} (_ : A) : string := EmptyString.

(** * Supporting facts *)

(** ** Facts about comparisons of numbers *)

Lemma compare_rank x y :
  isNaN x = false -> isNaN y = false ->
  match SFcompare x y with
  | Some Lt => rankLt (rank x) (rank y)
  | Some Eq => rank x = rank y
  | Some Gt => rankLt (rank y) (rank x)
  | None => False
  end.
Proof.
  destruct x as [[]|[]| |[] mx ex], y as [[]|[]| |[] my ey]; simpl; try discriminate;
    intros _ _; try lia; try reflexivity.
  - destruct (Z.compare_spec ex ey); try lia.
    rewrite Pos.compare_cont_spec; simpl.
    destruct (Pos.compare_spec mx my); simpl; subst; try reflexivity; lia.
  - destruct (Z.compare_spec ex ey); try lia.
    rewrite Pos.compare_cont_spec; simpl.
    destruct (Pos.compare_spec mx my); simpl; subst; try reflexivity; lia.
Qed.

Lemma compare_nan x y :
  (isNaN x || isNaN y = true)%bool -> SFcompare x y = None.
Proof.
  destruct x as [[]|[]| |[] mx ex], y as [[]|[]| |[] my ey]; simpl; try discriminate; reflexivity.
Qed.

Lemma ltb_rank x y :
  SFltb x y = true <-> isNaN x = false /\ isNaN y = false /\ rankLt (rank x) (rank y).
Proof.
  clear inheritedText numberText toLowerCase.
  unfold SFltb. destruct (isNaN x) eqn:Hx.
  { rewrite compare_nan by (rewrite Hx; reflexivity). split; [discriminate | intros [? _]; discriminate]. }
  destruct (isNaN y) eqn:Hy.
  { rewrite compare_nan by (rewrite Hy, orb_true_r; reflexivity).
    split; [discriminate | intros (_ & ? & _); discriminate]. }
  pose proof (compare_rank x y Hx Hy) as H.
  destruct (SFcompare x y) as [[]|]; try contradiction.
  - split; [discriminate|]. intros (_ & _ & HL). rewrite H in HL.
    destruct (rank y) as [[a b] c]. simpl in HL. lia.
  - tauto.
  - split; [discriminate|]. intros (_ & _ & HL).
    destruct (rank x) as [[a b] c], (rank y) as [[a' b'] c']. simpl in *. lia.
Qed.

Lemma leb_rank x y :
  SFleb x y = true <->
  isNaN x = false /\ isNaN y = false /\ (rankLt (rank x) (rank y) \/ rank x = rank y).
Proof.
  clear inheritedText numberText toLowerCase.
  unfold SFleb. destruct (isNaN x) eqn:Hx.
  { rewrite compare_nan by (rewrite Hx; reflexivity). split; [discriminate | intros [? _]; discriminate]. }
  destruct (isNaN y) eqn:Hy.
  { rewrite compare_nan by (rewrite Hy, orb_true_r; reflexivity).
    split; [discriminate | intros (_ & ? & _); discriminate]. }
  pose proof (compare_rank x y Hx Hy) as H.
  destruct (SFcompare x y) as [[]|]; try contradiction.
  - tauto.
  - tauto.
  - split; [discriminate|]. intros (_ & _ & HL).
    destruct (rank x) as [[a b] c], (rank y) as [[a' b'] c']. simpl in *.
    destruct HL as [HL|HL]; [lia | inversion HL; lia].
Qed.

Lemma eqb_rank x y :
  SFeqb x y = true <-> isNaN x = false /\ isNaN y = false /\ rank x = rank y.
Proof.
  clear inheritedText numberText toLowerCase.
  unfold SFeqb. destruct (isNaN x) eqn:Hx.
  { rewrite compare_nan by (rewrite Hx; reflexivity). split; [discriminate | intros [? _]; discriminate]. }
  destruct (isNaN y) eqn:Hy.
  { rewrite compare_nan by (rewrite Hy, orb_true_r; reflexivity).
    split; [discriminate | intros (_ & ? & _); discriminate]. }
  pose proof (compare_rank x y Hx Hy) as H.
  destruct (SFcompare x y) as [[]|]; try contradiction.
  - tauto.
  - split; [discriminate|]. intros (_ & _ & HL). rewrite HL in H.
    destruct (rank y) as [[a b] c]. simpl in H. lia.
  - split; [discriminate|]. intros (_ & _ & HL). rewrite HL in H.
    destruct (rank y) as [[a b] c]. simpl in H. lia.
Qed.

Ltac rank_solve :=
  repeat match goal with
  | H : SFltb _ _ = true |- _ => apply ltb_rank in H; destruct H as (? & ? & ?)
  | H : SFleb _ _ = true |- _ => apply leb_rank in H; destruct H as (? & ? & ?)
  | H : SFeqb _ _ = true |- _ => apply eqb_rank in H; destruct H as (? & ? & ?)
  end;
  repeat match goal with
  | |- context [rank ?x] => is_var x; destruct (rank x) as [[? ?] ?]
  | H : context [rank ?x] |- _ => is_var x; destruct (rank x) as [[? ?] ?]
  end.

Lemma lt_thresholds_exclusive (x : number) :
  gt x REDUNDANCY_THRESHOLD = true -> lt x VALUE_ADD_THRESHOLD = true -> False.
Proof.
  unfold gt, lt. intros H1 H2.
  apply ltb_rank in H1. apply ltb_rank in H2.
  destruct H1 as (_ & _ & H1), H2 as (_ & _ & H2).
  simpl in *. destruct (rank x) as [[a b] c]. simpl in *. lia.
Qed.

Lemma digits2_size p : digits2_pos p = Pos.size p.
Proof. induction p; simpl; congruence. Qed.

Lemma Zdigits2_log2 m : 0 < m -> Zdigits2 m = Z.log2 m + 1.
Proof.
  destruct m as [|p|p]; try lia. intros _. simpl.
  rewrite digits2_size. destruct p; simpl; try lia.
Qed.

Lemma Zdigits2_bounds m : 0 < m -> 2 ^ (Zdigits2 m - 1) <= m < 2 ^ Zdigits2 m.
Proof.
  intros H. rewrite Zdigits2_log2 by assumption.
  replace (Z.log2 m + 1 - 1) with (Z.log2 m) by lia.
  replace (Z.log2 m + 1) with (Z.succ (Z.log2 m)) by lia.
  apply Z.log2_spec. assumption.
Qed.

Lemma Zdigits2_pos m : 0 < m -> 0 < Zdigits2 m.
Proof.
  intros H. rewrite Zdigits2_log2 by assumption.
  pose proof (Z.log2_nonneg m). lia.
Qed.

Lemma Zdigits2_unique m k : 0 < m -> 2 ^ (k - 1) <= m < 2 ^ k -> Zdigits2 m = k.
Proof.
  intros H Hk. rewrite Zdigits2_log2 by assumption.
  assert (0 <= k - 1).
  { destruct (Z_lt_le_dec (k - 1) 0) as [Hn|]; [|assumption].
    exfalso. assert (k <= 0) by lia.
    destruct (Z.eq_dec k 0).
    - subst. simpl in Hk. lia.
    - rewrite (Z.pow_neg_r 2 k) in Hk by lia. lia. }
  assert (Z.log2 m = k - 1).
  { apply Z.log2_unique; [assumption|]. replace (Z.succ (k - 1)) with k by lia. assumption. }
  lia.
Qed.

Lemma Zdigits2_mono a b : 0 <= a <= b -> Zdigits2 a <= Zdigits2 b.
Proof.
  intros [Ha Hab]. destruct (Z.eq_dec a 0).
  - subst. simpl. destruct b; simpl; lia.
  - rewrite !Zdigits2_log2 by lia. pose proof (Z.log2_le_mono a b Hab). lia.
Qed.

Lemma Zdigits2_shiftr m n :
  0 < m -> 0 <= n < Zdigits2 m -> Zdigits2 (m / 2 ^ n) = Zdigits2 m - n.
Proof.
  intros Hm Hn.
  pose proof (Zdigits2_bounds m Hm) as [Hlo Hhi].
  assert (0 < 2 ^ n) by (apply Z.pow_pos_nonneg; lia).
  apply Zdigits2_unique.
  - apply Z.div_str_pos. split; [assumption|].
    eapply Z.le_trans; [|exact Hlo]. apply Z.pow_le_mono_r; lia.
  - split.
    + apply Z.div_le_lower_bound; [assumption|].
      rewrite <- Z.pow_add_r by lia. replace (n + (Zdigits2 m - n - 1)) with (Zdigits2 m - 1) by lia.
      assumption.
    + apply Z.div_lt_upper_bound; [assumption|].
      rewrite <- Z.pow_add_r by lia. replace (n + (Zdigits2 m - n)) with (Zdigits2 m) by lia.
      assumption.
Qed.

Lemma shiftr_zero m n : 0 <= m -> Zdigits2 m <= n -> m / 2 ^ n = 0.
Proof.
  intros Hm Hn. destruct (Z.eq_dec m 0); [subst; apply Z.div_0_l; apply Z.pow_nonzero; simpl in Hn; lia|].
  apply Z.div_small. split; [assumption|].
  pose proof (Zdigits2_bounds m ltac:(lia)) as [_ Hhi].
  eapply Z.lt_le_trans; [exact Hhi|]. apply Z.pow_le_mono_r; lia.
Qed.

(** shr_1 halves. *)
Lemma shr_1_m mrs : 0 <= shr_m mrs -> shr_m (shr_1 mrs) = shr_m mrs / 2.
Proof.
  destruct mrs as [m r s]. simpl. intros H.
  destruct m as [|p|p]; try lia; [reflexivity|].
  destruct p; simpl.
  - rewrite Pos2Z.inj_xI. apply Z.div_unique with (r := 1); lia.
  - rewrite Pos2Z.inj_xO. apply Z.div_unique with (r := 0); lia.
  - reflexivity.
Qed.

Lemma iter_pos_eq {A} (f : A -> A) p x : SpecFloat.iter_pos f p x = Pos.iter f x p.
Proof.
  revert x. induction p; intros x; simpl; rewrite ?IHp; try reflexivity.
  rewrite <- !Pos.iter_swap. reflexivity.
Qed.

Lemma shr_iter_m p mrs :
  0 <= shr_m mrs -> shr_m (SpecFloat.iter_pos shr_1 p mrs) = shr_m mrs / 2 ^ Z.pos p.
Proof.
  intros H. rewrite iter_pos_eq.
  revert mrs H. induction p using Pos.peano_ind; intros mrs H.
  - simpl. rewrite shr_1_m by assumption. reflexivity.
  - rewrite Pos.iter_succ. rewrite shr_1_m.
    + rewrite IHp by assumption. rewrite Pos2Z.inj_succ, Z.pow_succ_r by lia.
      rewrite Z.div_div by (try apply Z.pow_pos_nonneg; lia).
      f_equal. lia.
    + rewrite IHp by assumption. apply Z.div_pos; [assumption|]. apply Z.pow_pos_nonneg; lia.
Qed.

Lemma fexp_eq e : fexp e = Z.max (e - 53) (-1074).
Proof. reflexivity. Qed.

Lemma shr_record_of_loc_m m l : shr_m (shr_record_of_loc m l) = m.
Proof. destruct l as [|[]]; reflexivity. Qed.

Lemma shr_fexp_spec m e l :
  0 <= m -> e <= fexp (Zdigits2 m + e) ->
  snd (shr_fexp prec emax m e l) = fexp (Zdigits2 m + e)
  /\ shr_m (fst (shr_fexp prec emax m e l)) = m / 2 ^ (fexp (Zdigits2 m + e) - e).
Proof.
  intros Hm He. unfold shr_fexp, shr.
  destruct (fexp (Zdigits2 m + e) - e) as [|p|p] eqn:Hn; simpl.
  - rewrite shr_record_of_loc_m, Z.div_1_r. split; [lia | reflexivity].
  - split; [lia|]. rewrite shr_iter_m; rewrite shr_record_of_loc_m; [reflexivity | assumption].
  - lia.
Qed.

Lemma shifted_canonical m e :
  0 <= m -> e <= fexp (Zdigits2 m + e) ->
  let e2 := fexp (Zdigits2 m + e) in
  let m2 := m / 2 ^ (e2 - e) in
  (m2 = 0 /\ e2 = -1074) \/ (0 < m2 /\ fexp (Zdigits2 m2 + e2) = e2).
Proof.
  intros Hm He e2 m2.
  destruct (Z.eq_dec m 0) as [->|Hnz].
  - left. subst m2 e2. simpl Zdigits2 in *. rewrite fexp_eq in *.
    split; [apply Z.div_0_l, Z.pow_nonzero; lia | lia].
  - assert (0 < m) as Hpos by lia.
    pose proof (Zdigits2_pos m Hpos) as Hd.
    destruct (Z_lt_le_dec (e2 - e) (Zdigits2 m)) as [Hlt|Hge].
    + right. assert (Zdigits2 m2 = Zdigits2 m - (e2 - e)) as Hd2.
      { apply Zdigits2_shiftr; [assumption|]. subst e2. lia. }
      split.
      * destruct (Z_lt_le_dec 0 m2) as [|Hle]; [assumption|].
        assert (0 <= m2) by (apply Z.div_pos; [lia | apply Z.pow_pos_nonneg; subst e2; lia]).
        assert (m2 = 0) as H0 by lia. rewrite H0 in Hd2. simpl in Hd2. lia.
      * rewrite Hd2. replace (Zdigits2 m - (e2 - e) + e2) with (Zdigits2 m + e) by lia.
        reflexivity.
    + left. split.
      * apply shiftr_zero; lia.
      * subst e2. rewrite fexp_eq in *. lia.
Qed.

Lemma round_nearest_even_bounds m l : m <= round_nearest_even m l <= m + 1.
Proof.
  destruct l as [|[]]; simpl; try lia. destruct (Z.even m); lia.
Qed.

Lemma binary_round_aux_valid sx mx ex lx :
  0 <= mx -> ex <= fexp (Zdigits2 mx + ex) ->
  valid_binary prec emax (binary_round_aux prec emax sx mx ex lx) = true.
Proof.
  intros Hm He. unfold binary_round_aux.
  pose proof (shr_fexp_spec mx ex lx Hm He) as [He1 Hm1].
  pose proof (shifted_canonical mx ex Hm He) as Hc. cbv zeta in Hc.
  destruct (shr_fexp prec emax mx ex lx) as [mrs1 e1]. simpl in He1, Hm1.
  rewrite <- He1 in Hc, Hm1. rewrite <- Hm1 in Hc. clear Hm1 He1.
  set (m1 := round_nearest_even (shr_m mrs1) (loc_of_shr_record mrs1)).
  pose proof (round_nearest_even_bounds (shr_m mrs1) (loc_of_shr_record mrs1)) as Hb.
  fold m1 in Hb.
  assert (0 <= m1) as Hm1 by (destruct Hc as [[? ?]|[? ?]]; lia).
  assert (e1 <= fexp (Zdigits2 m1 + e1)) as He1.
  { destruct Hc as [[H0 Hemin]|[Hpos Hcan]].
    - rewrite fexp_eq. lia.
    - pose proof (Zdigits2_mono (shr_m mrs1) m1 ltac:(lia)).
      rewrite fexp_eq in *. lia. }
  pose proof (shr_fexp_spec m1 e1 loc_Exact Hm1 He1) as [He2 Hm2].
  pose proof (shifted_canonical m1 e1 Hm1 He1) as Hc2. cbv zeta in Hc2.
  destruct (shr_fexp prec emax m1 e1 loc_Exact) as [mrs2 e2]. simpl in He2, Hm2.
  rewrite <- He2 in Hc2, Hm2. rewrite <- Hm2 in Hc2.
  destruct (shr_m mrs2) as [|p|p] eqn:Hp.
  - reflexivity.
  - destruct (e2 <=? emax - prec) eqn:Hb2; [|reflexivity].
    simpl. unfold bounded, canonical_mantissa. rewrite Hb2.
    destruct Hc2 as [[? ?]|[_ Hcan]]; [lia|].
    change (Zdigits2 (Z.pos p)) with (Z.pos (digits2_pos p)) in Hcan.
    rewrite Hcan, Z.eqb_refl. reflexivity.
  - destruct Hc2 as [[? ?]|[? _]]; lia.
Qed.

(** Division. *)

Lemma Zdigits2_pow2 k : 0 <= k -> Zdigits2 (2 ^ k) = k + 1.
Proof.
  intros Hk. apply Zdigits2_unique.
  - apply Z.pow_pos_nonneg; lia.
  - replace (k + 1 - 1) with k by lia. split; [lia|].
    apply Z.pow_lt_mono_r; lia.
Qed.

Lemma div_core_spec m1 e1 m2 e2 :
  0 < m1 -> 0 < m2 ->
  let '(q, e, l) := SFdiv_core_binary prec emax m1 e1 m2 e2 in
  0 <= q /\ e <= fexp (Zdigits2 q + e).
Proof.
  intros H1 H2. unfold SFdiv_core_binary.
  set (d1 := Zdigits2 m1). set (d2 := Zdigits2 m2).
  set (e' := Z.min (fexp (d1 + e1 - (d2 + e2))) (e1 - e2)).
  set (s := e1 - e2 - e').
  set (m' := match s with Z.pos _ => Z.shiftl m1 s | 0 => m1 | Z.neg _ => 0 end).
  assert (0 <= s) as Hs by (subst s e'; lia).
  assert (m' = m1 * 2 ^ s) as Hm'.
  { subst m'. destruct s as [|p|p] eqn:Es; try lia.
    rewrite Z.shiftl_mul_pow2 by lia. reflexivity. }
  clearbody m'.
  pose proof (Z_div_mod m' m2 ltac:(lia)) as Hdm.
  destruct (Z.div_eucl m' m2) as [q r] eqn:Hqr.
  assert (q = m' / m2) as Hq by (unfold Z.div; rewrite Hqr; reflexivity).
  assert (0 < 2 ^ s) as Hps by (apply Z.pow_pos_nonneg; lia).
  assert (0 <= q) as Hq0 by (rewrite Hq; apply Z.div_pos; nia).
  split; [assumption|].
  pose proof (Zdigits2_bounds m1 H1) as [Hlo1 _]. fold d1 in Hlo1.
  pose proof (Zdigits2_bounds m2 H2) as [_ Hhi2]. fold d2 in Hhi2.
  pose proof (Zdigits2_pos m1 H1) as Hd1. pose proof (Zdigits2_pos m2 H2) as Hd2.
  fold d1 in Hd1. fold d2 in Hd2.
  destruct (Z_lt_le_dec (d1 - 1 + s - d2) 0) as [Hneg|Hk].
  - (* the quotient may vanish: the exponent is already minimal *)
    assert (e' <= fexp (d1 + e1 - (d2 + e2))) by (subst e'; lia).
    rewrite fexp_eq in *. subst s. lia.
  - assert (2 ^ (d1 - 1 + s - d2) <= q) as Hqlo.
    { rewrite Hq. apply Z.div_le_lower_bound; [lia|].
      apply Z.le_trans with (2 ^ d2 * 2 ^ (d1 - 1 + s - d2)).
      - apply Z.mul_le_mono_nonneg_r; [apply Z.pow_nonneg; lia | lia].
      - rewrite <- Z.pow_add_r by lia.
        replace (d2 + (d1 - 1 + s - d2)) with (d1 - 1 + s) by lia.
        rewrite Z.pow_add_r by lia. rewrite Hm'. nia. }
    assert (d1 + s - d2 <= Zdigits2 q) as Hdq.
    { pose proof (Zdigits2_mono (2 ^ (d1 - 1 + s - d2)) q) as Hmono.
      rewrite Zdigits2_pow2 in Hmono by lia.
      assert (0 <= 2 ^ (d1 - 1 + s - d2)) by (apply Z.pow_nonneg; lia). lia. }
    assert (e' <= fexp (d1 + e1 - (d2 + e2))) by (subst e'; lia).
    rewrite fexp_eq in *. subst s. lia.
Qed.

Lemma SFdiv_valid x y : valid_binary prec emax (SFdiv prec emax x y) = true.
Proof.
  destruct x as [sx|sx| |sx mx ex], y as [sy|sy| |sy my ey]; try reflexivity.
  unfold SFdiv.
  pose proof (div_core_spec (Z.pos mx) ex (Z.pos my) ey ltac:(lia) ltac:(lia)) as H.
  destruct (SFdiv_core_binary prec emax (Z.pos mx) ex (Z.pos my) ey) as [[q e] l].
  destruct H as [Hq He]. apply binary_round_aux_valid; assumption.
Qed.

(** Signs of rounded results. *)

Lemma shr_fexp_pos m e l :
  0 < m -> -1074 <= e ->
  0 < shr_m (fst (shr_fexp prec emax m e l)) /\ -1074 <= snd (shr_fexp prec emax m e l).
Proof.
  intros Hm He. unfold shr_fexp, shr.
  destruct (fexp (Zdigits2 m + e) - e) as [|p|p] eqn:Hn; simpl;
    try (rewrite shr_record_of_loc_m; split; assumption).
  rewrite shr_iter_m by (rewrite shr_record_of_loc_m; lia).
  rewrite shr_record_of_loc_m. split; [|lia].
  rewrite fexp_eq in Hn.
  assert (Z.pos p = Zdigits2 m - 53) as Hp by lia.
  apply Z.div_str_pos. split; [apply Z.pow_pos_nonneg; lia|].
  pose proof (Zdigits2_bounds m Hm) as [Hlo _].
  eapply Z.le_trans; [|exact Hlo]. apply Z.pow_le_mono_r; lia.
Qed.

Lemma binary_round_aux_signed sx mx ex lx :
  0 < mx -> -1074 <= ex -> signed sx (binary_round_aux prec emax sx mx ex lx).
Proof.
  intros Hm He. unfold binary_round_aux.
  pose proof (shr_fexp_pos mx ex lx Hm He) as [Hm1 He1].
  destruct (shr_fexp prec emax mx ex lx) as [mrs1 e1]. simpl in Hm1, He1.
  pose proof (round_nearest_even_bounds (shr_m mrs1) (loc_of_shr_record mrs1)) as Hb.
  set (m1 := round_nearest_even (shr_m mrs1) (loc_of_shr_record mrs1)) in *.
  pose proof (shr_fexp_pos m1 e1 loc_Exact ltac:(lia) He1) as [Hm2 He2].
  destruct (shr_fexp prec emax m1 e1 loc_Exact) as [mrs2 e2]. simpl in Hm2, He2.
  destruct (shr_m mrs2) as [|p|p]; try lia.
  destruct (e2 <=? emax - prec); [left; eauto | right; reflexivity].
Qed.

Lemma iter_xO m d : Z.pos (Pos.iter xO m d) = Z.pos m * 2 ^ Z.pos d.
Proof.
  induction d using Pos.peano_ind.
  - simpl. lia.
  - rewrite Pos.iter_succ, Pos2Z.inj_xO, IHd, Pos2Z.inj_succ, Z.pow_succ_r by lia. lia.
Qed.

Lemma shl_align_spec mx ex ex' :
  snd (shl_align mx ex ex') = Z.min ex ex'
  /\ Z.pos (fst (shl_align mx ex ex')) = Z.pos mx * 2 ^ (ex - Z.min ex ex').
Proof.
  unfold shl_align. destruct (ex' - ex) as [|d|d] eqn:Hd; cbn [fst snd].
  - replace (Z.min ex ex') with ex by lia. rewrite Z.sub_diag, Z.pow_0_r. split; lia.
  - replace (Z.min ex ex') with ex by lia. rewrite Z.sub_diag, Z.pow_0_r. split; lia.
  - replace (Z.min ex ex') with ex' by lia. split; [reflexivity|].
    rewrite iter_xO. f_equal. f_equal. pose proof (Pos2Z.opp_pos d). lia.
Qed.

Lemma binary_round_signed sx mx ex :
  -1074 <= ex -> signed sx (binary_round prec emax sx mx ex).
Proof.
  intros He. unfold binary_round.
  pose proof (shl_align_spec mx ex (fexp (Z.pos (digits2_pos mx) + ex))) as [H1 H2].
  destruct (shl_align mx ex (fexp (Z.pos (digits2_pos mx) + ex))) as [mz ez].
  simpl in H1, H2. apply binary_round_aux_signed; [lia|].
  rewrite H1, fexp_eq. lia.
Qed.

Lemma binary_normalize_sign m e :
  -1074 <= e ->
  (0 < m -> isPositive (binary_normalize prec emax m e false) = true)
  /\ (m < 0 -> isNegative (binary_normalize prec emax m e false) = true).
Proof.
  intros He. destruct m as [|p|p]; simpl; split; intros H; try lia.
  - destruct (binary_round_signed false p e He) as [(m' & e' & ->)| ->]; reflexivity.
  - destruct (binary_round_signed true p e He) as [(m' & e' & ->)| ->]; reflexivity.
Qed.

(** Canonical mantissas. *)
Lemma bounded_spec m e :
  bounded prec emax m e = true ->
  -1074 <= e /\ Z.pos m < 2 ^ 53 /\ (e = -1074 \/ 2 ^ 52 <= Z.pos m).
Proof.
  unfold bounded, canonical_mantissa. intros H.
  apply andb_true_iff in H. destruct H as [H _]. apply Z.eqb_eq in H.
  rewrite fexp_eq in H.
  pose proof (Zdigits2_bounds (Z.pos m) ltac:(lia)) as [Hlo Hhi].
  change (Zdigits2 (Z.pos m)) with (Z.pos (digits2_pos m)) in *.
  set (d := Z.pos (digits2_pos m)) in *.
  split; [lia|]. split.
  - eapply Z.lt_le_trans; [exact Hhi|]. apply Z.pow_le_mono_r; lia.
  - destruct (Z.eq_dec e (-1074)); [left; assumption|right].
    assert (d = 53) as -> by lia. exact Hlo.
Qed.

Lemma aligned_lt sx mx ex sy my ey :
  bounded prec emax mx ex = true -> bounded prec emax my ey = true ->
  SFcompare (S754_finite sx mx ex) (S754_finite sy my ey) = Some Lt ->
  aligned sx mx ex (Z.min ex ey) < aligned sy my ey (Z.min ex ey).
Proof.
  intros Hx Hy. apply bounded_spec in Hx, Hy.
  destruct Hx as (Hex & Hmx & Hnx), Hy as (Hey & Hmy & Hny).
  change (2 ^ 52) with 4503599627370496 in *.
  change (2 ^ 53) with 9007199254740992 in *.
  unfold aligned, SFcompare, cond_Zopp.
  assert (0 < 2 ^ (ex - Z.min ex ey)) as Hpx by (apply Z.pow_pos_nonneg; lia).
  assert (0 < 2 ^ (ey - Z.min ex ey)) as Hpy by (apply Z.pow_pos_nonneg; lia).
  assert (forall a : Z, 0 < a -> 2 <= 2 ^ a) as Hpow1.
  { intros a Ha. change 2 with (2 ^ 1) at 1. apply Z.pow_le_mono_r; lia. }
  destruct sx, sy; intros H; try discriminate; try nia.
  - (* both negative *)
    destruct (Z.compare_spec ex ey) as [Heq|Hlt|Hgt]; try discriminate.
    + subst ey. rewrite Pos.compare_cont_spec in H. simpl in H.
      destruct (Pos.compare_spec mx my); try discriminate.
      rewrite Z.min_id, Z.sub_diag, Z.pow_0_r in *. lia.
    + replace (Z.min ex ey) with ey in * by lia.
      rewrite Z.sub_diag, Z.pow_0_r in *.
      pose proof (Hpow1 (ex - ey) ltac:(lia)).
      destruct Hnx as [->|Hnx]; [lia|]. nia.
  - (* both positive *)
    destruct (Z.compare_spec ex ey) as [Heq|Hlt|Hgt]; try discriminate.
    + subst ey. rewrite Pos.compare_cont_spec in H. simpl in H.
      destruct (Pos.compare_spec mx my); try discriminate.
      rewrite Z.min_id, Z.sub_diag, Z.pow_0_r in *. lia.
    + replace (Z.min ex ey) with ex in * by lia.
      rewrite Z.sub_diag, Z.pow_0_r in *.
      pose proof (Hpow1 (ey - ex) ltac:(lia)).
      destruct Hny as [->|Hny]; [lia|]. nia.
Qed.

Lemma SFsub_finite sx mx ex sy my ey :
  SFsub prec emax (S754_finite sx mx ex) (S754_finite sy my ey)
  = binary_normalize prec emax
      (aligned sx mx ex (Z.min ex ey) - aligned sy my ey (Z.min ex ey)) (Z.min ex ey) false.
Proof.
  unfold SFsub, aligned.
  pose proof (shl_align_spec mx ex (Z.min ex ey)) as [_ H1].
  pose proof (shl_align_spec my ey (Z.min ex ey)) as [_ H2].
  rewrite H1, H2.
  replace (Z.min ex (Z.min ex ey)) with (Z.min ex ey) by lia.
  replace (Z.min ey (Z.min ex ey)) with (Z.min ex ey) by lia.
  reflexivity.
Qed.

(** The sign of a difference is the order of its operands. *)
Lemma SFsub_sign x y :
  valid_binary prec emax x = true -> valid_binary prec emax y = true ->
  SFltb x y = true ->
  isPositive (SFsub prec emax y x) = true /\ isNegative (SFsub prec emax x y) = true.
Proof.
  unfold SFltb.
  destruct x as [sx|sx| |sx mx ex], y as [sy|sy| |sy my ey]; intros Hx Hy H;
    try (repeat match goal with s : bool |- _ => destruct s end;
         simpl in H |- *; (discriminate || (split; reflexivity))).
  simpl in Hx, Hy.
  destruct (SFcompare (S754_finite sx mx ex) (S754_finite sy my ey)) as [[]|] eqn:Hc;
    try discriminate.
  pose proof (aligned_lt _ _ _ _ _ _ Hx Hy Hc) as Hlt.
  apply bounded_spec in Hx, Hy.
  rewrite !SFsub_finite. rewrite (Z.min_comm ey ex).
  split; apply binary_normalize_sign; lia.
Qed.

(** ** Upper bounds through rounding *)

Lemma shr_1_exact mrs :
  0 <= shr_m mrs -> Z.even (shr_m mrs) = true -> shr_r mrs = false -> shr_s mrs = false ->
  shr_r (shr_1 mrs) = false /\ shr_s (shr_1 mrs) = false.
Proof.
  destruct mrs as [m r s]. simpl. intros Hm He -> ->.
  destruct m as [|[p|p|]|p]; simpl in *; try discriminate; try lia; auto.
Qed.

Lemma even_div_pow2 m p : (2 ^ Z.pos (Pos.succ p) | m) -> Z.even (m / 2 ^ Z.pos p) = true.
Proof.
  intros [k Hk]. subst m. rewrite Pos2Z.inj_succ, Z.pow_succ_r by lia.
  replace (k * (2 * 2 ^ Z.pos p)) with ((2 * k) * 2 ^ Z.pos p) by lia.
  rewrite Z.div_mul by (apply Z.pow_nonzero; lia).
  rewrite Z.even_mul. reflexivity.
Qed.

Lemma shr_iter_exact p m :
  0 <= m -> (2 ^ Z.pos p | m) ->
  shr_r (SpecFloat.iter_pos shr_1 p (Build_shr_record m false false)) = false
  /\ shr_s (SpecFloat.iter_pos shr_1 p (Build_shr_record m false false)) = false.
Proof.
  intros Hm. rewrite iter_pos_eq. induction p using Pos.peano_ind; intros Hd.
  - change (Pos.iter shr_1 (Build_shr_record m false false) 1)
      with (shr_1 (Build_shr_record m false false)).
    apply shr_1_exact; cbn [shr_m shr_r shr_s]; auto.
    destruct Hd as [k ->]. change (2 ^ 1) with 2. rewrite Z.even_mul. apply orb_true_r.
  - rewrite Pos.iter_succ.
    assert (2 ^ Z.pos p | m) as Hd'.
    { destruct Hd as [k ->]. exists (2 * k). rewrite Pos2Z.inj_succ, Z.pow_succ_r by lia. lia. }
    destruct (IHp Hd') as [Hr Hs].
    pose proof (shr_iter_m p (Build_shr_record m false false) Hm) as Hval.
    rewrite iter_pos_eq in Hval. simpl in Hval.
    apply shr_1_exact; auto.
    + rewrite Hval. apply Z.div_pos; [assumption | apply Z.pow_pos_nonneg; lia].
    + rewrite Hval. apply even_div_pow2, Hd.
Qed.

Lemma shr_fexp_exact m e :
  0 <= m -> e <= fexp (Zdigits2 m + e) ->
  (2 ^ (fexp (Zdigits2 m + e) - e) | m) ->
  loc_of_shr_record (fst (shr_fexp prec emax m e loc_Exact)) = loc_Exact.
Proof.
  intros Hm He Hd. unfold shr_fexp, shr.
  destruct (fexp (Zdigits2 m + e) - e) as [|p|p] eqn:Hn; try reflexivity.
  cbn [fst shr_record_of_loc].
  destruct (shr_iter_exact p m Hm Hd) as [Hr Hs].
  destruct (SpecFloat.iter_pos shr_1 p _) as [m' r s]. simpl in *. subst. reflexivity.
Qed.

Lemma round_nearest_even_exact m : round_nearest_even m loc_Exact = m.
Proof. reflexivity. Qed.

Lemma pow2_split a b : 0 <= a -> 0 <= b -> 2 ^ (a + b) = 2 ^ a * 2 ^ b.
Proof. intros. apply Z.pow_add_r; assumption. Qed.

Lemma round_aux_boundedBy S B mx ex lx :
  0 < B < 2 ^ 53 -> 0 <= mx -> ex <= fexp (Zdigits2 mx + ex) -> 0 <= ex + S -> 0 <= S ->
  (mx * 2 ^ (ex + S) < B * 2 ^ S \/ (mx * 2 ^ (ex + S) = B * 2 ^ S /\ lx = loc_Exact)) ->
  boundedBy S B (binary_round_aux prec emax false mx ex lx).
Proof.
  intros HB Hm He HS HS0 Hbound. unfold binary_round_aux.
  pose proof (shr_fexp_spec mx ex lx Hm He) as [He1 Hm1].
  pose proof (shifted_canonical mx ex Hm He) as Hc. cbv zeta in Hc.
  assert (lx = loc_Exact -> (2 ^ (fexp (Zdigits2 mx + ex) - ex) | mx) ->
          loc_of_shr_record (fst (shr_fexp prec emax mx ex lx)) = loc_Exact) as Hexact.
  { intros -> Hd. apply shr_fexp_exact; assumption. }
  destruct (shr_fexp prec emax mx ex lx) as [mrs1 e1]. cbn [fst snd] in He1, Hm1, Hexact.
  rewrite <- He1 in Hc, Hm1, Hexact. rewrite <- Hm1 in Hc.
  set (m' := shr_m mrs1) in *.
  set (n := e1 - ex) in *.
  assert (0 <= n) as Hn by (subst n; lia).
  assert (0 < 2 ^ n) as Hpn by (apply Z.pow_pos_nonneg; lia).
  assert (0 < 2 ^ (ex + S)) as HpX by (apply Z.pow_pos_nonneg; lia).
  assert (2 ^ (e1 + S) = 2 ^ n * 2 ^ (ex + S)) as HpE.
  { rewrite <- pow2_split by lia. f_equal. subst n. lia. }
  assert (0 <= m') as Hm'0 by (rewrite Hm1; apply Z.div_pos; lia).
  assert (m' * 2 ^ n <= mx) as Hfloor.
  { rewrite Hm1, Z.mul_comm. apply Z.mul_div_le. lia. }
  pose proof (round_nearest_even_bounds m' (loc_of_shr_record mrs1)) as Hb.
  assert (loc_of_shr_record mrs1 = loc_Exact ->
          round_nearest_even m' (loc_of_shr_record mrs1) = m') as Hrne
    by (intros ->; reflexivity).
  set (m1 := round_nearest_even m' (loc_of_shr_record mrs1)) in *. clearbody m1.
  assert (m1 * 2 ^ (e1 + S) <= B * 2 ^ S) as Hm1le.
  { assert (m' * 2 ^ (e1 + S) <= mx * 2 ^ (ex + S)) as Hle' by (rewrite HpE; nia).
    destruct (Z.eq_dec m1 m') as [->|Hne]; [lia|].
    assert (m1 = m' + 1) as Hup by lia. rewrite Hup.
    destruct (Z_lt_le_dec (m' * 2 ^ (e1 + S)) (B * 2 ^ S)) as [Hlt|Hge].
    - destruct (Z_lt_le_dec 0 e1) as [Hpos|Hnonpos].
      + exfalso. destruct Hc as [[_ Hemin]|[Hm'pos Hcan]]; [lia|].
        rewrite fexp_eq in Hcan.
        assert (Zdigits2 m' = 53) as Hd by lia.
        pose proof (Zdigits2_bounds m' Hm'pos) as [Hlo _]. rewrite Hd in Hlo.
        change (2 ^ (53 - 1)) with 4503599627370496 in Hlo.
        change (2 ^ 53) with 9007199254740992 in HB.
        rewrite (pow2_split e1 S) in Hlt by lia.
        assert (2 <= 2 ^ e1).
        { change 2 with (2 ^ 1) at 1. apply Z.pow_le_mono_r; lia. }
        assert (0 < 2 ^ S) by (apply Z.pow_pos_nonneg; lia).
        set (a := 2 ^ e1) in *. set (b := 2 ^ S) in *.
        assert (9007199254740992 <= m' * a) by nia.
        assert (B * b < m' * a * b) by nia. nia.
      + assert (2 ^ S = 2 ^ (e1 + S) * 2 ^ (- e1)) as HpS.
        { rewrite <- pow2_split by lia. f_equal. lia. }
        assert (0 < 2 ^ (e1 + S)) by (apply Z.pow_pos_nonneg; lia).
        assert (0 < 2 ^ (- e1)) by (apply Z.pow_pos_nonneg; lia).
        rewrite HpS in Hlt |- *.
        assert (m' < B * 2 ^ (- e1)) by nia. nia.
    - exfalso. destruct Hbound as [Hlt|[Heq Hlx]]; [lia|].
      assert (m' * 2 ^ n = mx) as Hdiv by (rewrite HpE in Hle', Hge; nia).
      assert (loc_of_shr_record mrs1 = loc_Exact) as Hloc.
      { apply Hexact; [exact Hlx|]. exists m'. lia. }
      specialize (Hrne Hloc). lia. }
  assert (0 <= m1) as Hm10 by lia.
  assert (e1 <= fexp (Zdigits2 m1 + e1)) as He1'.
  { destruct Hc as [[H0 Hemin]|[Hpos Hcan]].
    - rewrite fexp_eq. lia.
    - pose proof (Zdigits2_mono m' m1 ltac:(lia)). rewrite fexp_eq in *. lia. }
  pose proof (shr_fexp_spec m1 e1 loc_Exact Hm10 He1') as [He2 Hm2].
  destruct (shr_fexp prec emax m1 e1 loc_Exact) as [mrs2 e2]. cbn [fst snd] in He2, Hm2.
  rewrite <- He2 in Hm2.
  assert (0 <= e2 - e1) as Hn2 by lia.
  assert (0 < 2 ^ (e2 - e1)) as Hpn2 by (apply Z.pow_pos_nonneg; lia).
  assert (shr_m mrs2 * 2 ^ (e2 - e1) <= m1) as Hfloor2.
  { rewrite Hm2, Z.mul_comm. apply Z.mul_div_le. lia. }
  assert (2 ^ (e2 + S) = 2 ^ (e2 - e1) * 2 ^ (e1 + S)) as HpE2.
  { rewrite <- pow2_split by lia. f_equal. lia. }
  assert (0 < 2 ^ (e1 + S)) as HpE1 by (apply Z.pow_pos_nonneg; lia).
  assert (shr_m mrs2 * 2 ^ (e2 + S) <= B * 2 ^ S) as Hfinal by (rewrite HpE2; nia).
  destruct (shr_m mrs2) as [|p|p] eqn:Hp.
  - exact I.
  - destruct (Z.leb_spec e2 (emax - prec)) as [Hle|Hgt].
    + simpl. split; [lia | exact Hfinal].
    + exfalso. unfold emax, prec in Hgt.
      assert (2 ^ (e2 + S) = 2 ^ e2 * 2 ^ S) as HpS by (apply pow2_split; lia).
      assert (2 ^ 53 <= 2 ^ e2) by (apply Z.pow_le_mono_r; lia).
      assert (0 < 2 ^ S) by (apply Z.pow_pos_nonneg; lia).
      rewrite HpS in Hfinal. nia.
  - exfalso. pose proof (Z.div_pos m1 (2 ^ (e2 - e1)) Hm10 Hpn2). lia.
Qed.

Lemma boundedBy_scale S S' B x : S <= S' -> boundedBy S B x -> boundedBy S' B x.
Proof.
  intros HS. destruct x as [s|s| |[] m e]; simpl; try tauto.
  intros [He Hle]. split; [lia|].
  destruct (Z_lt_le_dec S 0) as [Hn|Hp].
  - rewrite (Z.pow_neg_r 2 S) in Hle by assumption.
    assert (0 < Z.pos m * 2 ^ (e + S)) by (apply Z.mul_pos_pos; [lia | apply Z.pow_pos_nonneg; lia]).
    lia.
  - assert (2 ^ (e + S') = 2 ^ (e + S) * 2 ^ (S' - S)) as ->.
    { rewrite <- pow2_split by lia. f_equal. lia. }
    assert (2 ^ S' = 2 ^ S * 2 ^ (S' - S)) as ->.
    { rewrite <- pow2_split by lia. f_equal. lia. }
    assert (0 <= 2 ^ (S' - S)) by (apply Z.pow_nonneg; lia).
    rewrite !Z.mul_assoc. apply Z.mul_le_mono_nonneg_r; assumption.
Qed.

Lemma round_aux_canonical s m e :
  fexp (Zdigits2 (Z.pos m) + e) = e -> e <= 971 ->
  binary_round_aux prec emax s (Z.pos m) e loc_Exact = S754_finite s m e.
Proof.
  intros Hc He.
  assert (shr_fexp prec emax (Z.pos m) e loc_Exact
          = (Build_shr_record (Z.pos m) false false, e)) as Hs.
  { unfold shr_fexp. rewrite Hc, Z.sub_diag. reflexivity. }
  unfold binary_round_aux. rewrite Hs. cbn [shr_m loc_of_shr_record round_nearest_even].
  rewrite Hs. cbn [shr_m].
  destruct (Z.leb_spec e (emax - prec)) as [|Hgt]; [reflexivity|].
  unfold emax, prec in Hgt. lia.
Qed.

(** Integers below [2 ^ 53] are numbers, exactly. *)
Lemma ofZ_exact z :
  0 < z < 2 ^ 53 ->
  exists m e, ofZ z = S754_finite false m e /\ -52 <= e <= 0 /\ Z.pos m = z * 2 ^ (- e).
Proof.
  intros [Hz Hlt]. destruct z as [|p|p]; try lia.
  unfold ofZ, binary_normalize, binary_round.
  pose proof (Zdigits2_bounds (Z.pos p) Hz) as [Hlo Hhi].
  pose proof (Zdigits2_pos (Z.pos p) Hz) as Hd.
  assert (Zdigits2 (Z.pos p) <= 53) as Hd53.
  { destruct (Z_lt_le_dec 53 (Zdigits2 (Z.pos p))) as [Hgt|]; [|assumption].
    exfalso. assert (2 ^ 53 <= 2 ^ (Zdigits2 (Z.pos p) - 1)) by (apply Z.pow_le_mono_r; lia). lia. }
  change (Z.pos (digits2_pos p)) with (Zdigits2 (Z.pos p)).
  set (d := Zdigits2 (Z.pos p)) in *.
  pose proof (shl_align_spec p 0 (fexp (d + 0))) as [H1 H2].
  destruct (shl_align p 0 (fexp (d + 0))) as [mz ez]. cbn [fst snd] in H1, H2.
  rewrite fexp_eq in H1, H2.
  assert (ez = d - 53) as Hez by lia.
  replace (0 - Z.min 0 (Z.max (d + 0 - 53) (-1074))) with (53 - d) in H2 by lia.
  exists mz, ez. split; [|split; [lia|]].
  - apply round_aux_canonical; [|lia].
    assert (Zdigits2 (Z.pos mz) = 53) as Hdz.
    { apply Zdigits2_unique; [lia|]. rewrite H2. split.
      - replace (53 - 1) with ((d - 1) + (53 - d)) by lia. rewrite pow2_split by lia.
        apply Z.mul_le_mono_nonneg_r; [apply Z.pow_nonneg; lia | exact Hlo].
      - replace 53 with (d + (53 - d)) at 2 by lia. rewrite pow2_split by lia.
        apply Z.mul_lt_mono_pos_r; [apply Z.pow_pos_nonneg; lia | exact Hhi]. }
    rewrite Hdz, fexp_eq. lia.
  - rewrite H2. f_equal. f_equal. lia.
Qed.

Lemma new_location_zero m : new_location m 0 = loc_Exact.
Proof.
  unfold new_location, new_location_even, new_location_odd.
  destruct (Z.even m); reflexivity.
Qed.

Lemma div_boundedBy S B ma ea mb eb :
  0 < B < 2 ^ 53 -> 1074 <= S -> 0 <= ea - eb + S ->
  Z.pos ma * 2 ^ (ea - eb + S) <= B * Z.pos mb * 2 ^ S ->
  boundedBy S B (SFdiv prec emax (S754_finite false ma ea) (S754_finite false mb eb)).
Proof.
  intros HB HS Hd H. unfold SFdiv. cbn [xorb].
  pose proof (div_core_spec (Z.pos ma) ea (Z.pos mb) eb ltac:(lia) ltac:(lia)) as Hcore.
  unfold SFdiv_core_binary in *.
  set (e' := Z.min (fexp (Zdigits2 (Z.pos ma) + ea - (Zdigits2 (Z.pos mb) + eb))) (ea - eb)) in *.
  set (s := ea - eb - e') in *.
  assert (0 <= s) as Hs by (subst s e'; lia).
  assert (0 <= e' + S) as He'.
  { subst e'. rewrite fexp_eq. lia. }
  set (P := match s with Z.pos _ => Z.shiftl (Z.pos ma) s | 0 => Z.pos ma | Z.neg _ => 0 end) in *.
  assert (P = Z.pos ma * 2 ^ s) as HP.
  { subst P. destruct s as [|p|p] eqn:Es; try lia.
    rewrite Z.shiftl_mul_pow2 by lia. reflexivity. }
  clearbody P.
  pose proof (Z_div_mod P (Z.pos mb) ltac:(lia)) as Hdm.
  destruct (Z.div_eucl P (Z.pos mb)) as [q r] eqn:Hqr.
  destruct Hcore as [Hq0 Hfexp]. destruct Hdm as [HPq Hr].
  assert (0 < 2 ^ s) by (apply Z.pow_pos_nonneg; lia).
  assert (0 < 2 ^ (e' + S)) as Hpe by (apply Z.pow_pos_nonneg; lia).
  assert (2 ^ (ea - eb + S) = 2 ^ s * 2 ^ (e' + S)) as Hpow.
  { rewrite <- pow2_split by lia. f_equal. subst s. lia. }
  rewrite Hpow in H.
  assert (0 < 2 ^ S) by (apply Z.pow_pos_nonneg; lia).
  assert (q * Z.pos mb * 2 ^ (e' + S) <= B * Z.pos mb * 2 ^ S) as Hle by nia.
  assert (q * 2 ^ (e' + S) <= B * 2 ^ S) as Hle' by nia.
  apply round_aux_boundedBy; try assumption; try lia.
  destruct (Z_lt_le_dec (q * 2 ^ (e' + S)) (B * 2 ^ S)) as [Hlt|Hge]; [left; exact Hlt|].
  right. split; [lia|].
  assert (r = 0) as -> by nia.
  apply new_location_zero.
Qed.

Lemma hundred_eq : hundred = S754_finite false mantissa100 (-46).
Proof. reflexivity. Qed.

Lemma mul_hundred_boundedBy S B x :
  0 < B -> 100 * B < 2 ^ 53 -> 0 <= S ->
  boundedBy S B x -> boundedBy (S + 46) (100 * B) (mul x hundred).
Proof.
  intros HB HB' HS. destruct x as [s|s| |[] m e]; try (simpl; tauto).
  intros [He Hle].
  change (mul (S754_finite false m e) hundred)
    with (binary_round_aux prec emax false (Z.pos (m * mantissa100)) (e + -46) loc_Exact).
  apply round_aux_boundedBy; try lia.
  - assert (53 <= Zdigits2 (Z.pos (m * mantissa100))) as Hd.
    { change 53 with (Zdigits2 (Z.pos mantissa100)).
      apply Zdigits2_mono. rewrite Pos2Z.inj_mul. nia. }
    rewrite fexp_eq. lia.
  - replace (e + -46 + (S + 46)) with (e + S) by lia.
    rewrite Pos2Z.inj_mul.
    change (Z.pos mantissa100) with (100 * 2 ^ 46).
    rewrite (pow2_split S 46) by lia.
    assert (0 < 2 ^ 46) by reflexivity.
    assert (Z.pos m * (100 * 2 ^ 46) * 2 ^ (e + S) <= 100 * B * (2 ^ S * 2 ^ 46)) as Hfin by nia.
    destruct (Z_lt_le_dec (Z.pos m * (100 * 2 ^ 46) * 2 ^ (e + S)) (100 * B * (2 ^ S * 2 ^ 46)));
      [left; assumption | right; split; [lia | reflexivity]].
Qed.

Lemma mathRound_boundedBy S B x :
  0 < B < 2 ^ 53 -> 52 <= S ->
  boundedBy S B x -> boundedBy S B (mathRound x).
Proof.
  intros HB HS. destruct x as [s|s| |[] m e]; try (simpl; tauto).
  intros Hx. pose proof Hx as [He Hle]. unfold mathRound.
  destruct (Z.leb_spec 0 e) as [Hpos|Hneg]; [exact Hx|].
  set (d := 2 ^ (- e)).
  assert (0 < d) as Hd by (apply Z.pow_pos_nonneg; lia).
  assert (2 ^ S = 2 ^ (e + S) * d) as HpS.
  { subst d. rewrite <- pow2_split by lia. f_equal. lia. }
  assert (0 < 2 ^ (e + S)) by (apply Z.pow_pos_nonneg; lia).
  assert (Z.pos m <= B * d) as Hm by (rewrite HpS in Hle; nia).
  set (r := (2 * Z.pos m + d) / (2 * d)).
  assert (0 <= r) as Hr0 by (apply Z.div_pos; lia).
  assert (r <= B) as HrB.
  { assert (r < B + 1); [|lia].
    subst r. apply Z.div_lt_upper_bound; nia. }
  destruct (Z.eqb_spec r 0) as [|Hnz]; [exact I|].
  destruct (ofZ_exact r ltac:(lia)) as (mr & er & -> & Her & Hmr).
  apply (boundedBy_scale 52); [lia|]. simpl. split; [lia|].
  rewrite Hmr. rewrite <- Z.mul_assoc, <- pow2_split by lia.
  replace (- er + (er + 52)) with 52 by lia. nia.
Qed.

(** ** More facts about comparisons *)

Lemma gt_positive x : gt x zero = isPositive x.
Proof. destruct x as [[]|[]| |[] m e]; reflexivity. Qed.

Lemma le_total x y : isNaN x = false -> isNaN y = false -> le x y = false -> lt y x = true.
Proof.
  unfold le, lt. intros Hx Hy H.
  apply ltb_rank. split; [assumption|]. split; [assumption|].
  destruct (SFleb x y) eqn:E; [discriminate|].
  assert (~ (rankLt (rank x) (rank y) \/ rank x = rank y)) as Hn.
  { intros Hc. assert (SFleb x y = true) by (apply leb_rank; auto). congruence. }
  destruct (rank x) as [[a b] c], (rank y) as [[a' b'] c']. simpl in *.
  destruct (Z.eq_dec a a'), (Z.eq_dec b b'), (Z.eq_dec c c'); subst;
    try (exfalso; apply Hn; right; reflexivity); lia.
Qed.

Lemma le_trans x y z : le x y = true -> le y z = true -> le x z = true.
Proof.
  unfold le. intros H1 H2. apply leb_rank in H1, H2. apply leb_rank.
  destruct H1 as (Hx & Hy & H1), H2 as (_ & Hz & H2).
  split; [assumption|]. split; [assumption|].
  destruct (rank x) as [[a b] c], (rank y) as [[a' b'] c'], (rank z) as [[a'' b''] c''].
  simpl in *.
  destruct H1 as [H1|H1], H2 as [H2|H2]; try (inversion H1; subst); try (inversion H2; subst);
    try (left; lia); try (right; reflexivity).
Qed.

Lemma lt_notNaN x y : lt x y = true -> isNaN x = false /\ isNaN y = false.
Proof.
  clear inheritedText numberText toLowerCase.
  unfold lt. intros H. apply ltb_rank in H. tauto. Qed.

Lemma lt_le x y : lt x y = true -> le x y = true.
Proof.
  unfold lt, le, SFltb, SFleb. destruct (SFcompare x y) as [[]|]; congruence.
Qed.

Lemma lt_irrefl_le x y : lt x y = true -> le y x = false.
Proof.
  unfold lt, le. intros H. destruct (SFleb y x) eqn:E; [|reflexivity].
  apply ltb_rank in H. apply leb_rank in E.
  destruct H as (_ & _ & H), E as (_ & _ & E).
  destruct (rank x) as [[a b] c], (rank y) as [[a' b'] c']. simpl in *.
  destruct E as [E|E]; [lia | inversion E; subst; lia].
Qed.

(** ** Facts about the stable sort *)

Section SortFacts.
Context {A : Type}.
Variable after : A -> A -> bool.

Lemma insertSorted_perm x l : Permutation (insertSorted after x l) (x :: l).
Proof.
  induction l as [|y r IH]; simpl.
  - apply Permutation_refl.
  - destruct (after x y).
    + eapply perm_trans; [apply perm_skip, IH | apply perm_swap].
    + apply Permutation_refl.
Qed.

Lemma sortBy_perm l : Permutation (sortBy after l) l.
Proof.
  induction l as [|x r IH]; simpl.
  - apply perm_nil.
  - eapply perm_trans; [apply insertSorted_perm | apply perm_skip, IH].
Qed.

Lemma sortBy_length l : length (sortBy after l) = length l.
Proof. apply Permutation_length, sortBy_perm. Qed.

Lemma sortBy_In x l : In x (sortBy after l) <-> In x l.
Proof.
  split; apply Permutation_in; [| apply Permutation_sym]; apply sortBy_perm.
Qed.

(** Elements of one class that the comparator never puts after one
    another keep their relative order. *)
Lemma insertSorted_filter (p : A -> bool) x l :
  (forall y, In y l -> p x = true -> p y = true -> after x y = false) ->
  List.filter p (insertSorted after x l) = List.filter p (x :: l).
Proof.
  induction l as [|y r IH]; intros H; [reflexivity|].
  simpl. destruct (after x y) eqn:Hxy.
  - simpl. rewrite IH by (intros; apply H; simpl; auto).
    simpl. destruct (p x) eqn:Hx, (p y) eqn:Hy; try reflexivity.
    rewrite H in Hxy by (simpl; auto). discriminate.
  - reflexivity.
Qed.

Lemma sortBy_filter (p : A -> bool) l :
  (forall x y, In x l -> In y l -> p x = true -> p y = true -> after x y = false) ->
  List.filter p (sortBy after l) = List.filter p l.
Proof.
  induction l as [|x r IH]; intros H; [reflexivity|].
  simpl sortBy. rewrite insertSorted_filter.
  - simpl. rewrite IH by (intros; apply H; simpl; auto). reflexivity.
  - intros y Hy. apply H; simpl; auto. right. apply (proj1 (sortBy_In _ _)), Hy.
Qed.

(** The output is ordered by any relation that the comparator decides on
    the elements of the input. *)
Variable ord : A -> A -> Prop.

Lemma insertSorted_Sorted x l :
  (forall y, In y l -> if after x y then ord y x else ord x y) ->
  Sorted ord l -> Sorted ord (insertSorted after x l).
Proof.
  induction l as [|y r IH]; intros H HS; simpl.
  - repeat constructor.
  - pose proof (H y (or_introl eq_refl)) as Hy.
    destruct (after x y) eqn:Hxy.
    + inversion HS as [|? ? HSr Hhd]; subst.
      constructor.
      * apply IH; [intros; apply H; simpl; auto | exact HSr].
      * destruct r as [|z r']; simpl.
        -- constructor. exact Hy.
        -- destruct (after x z); constructor; [|exact Hy].
           inversion Hhd; subst. assumption.
    + constructor; [exact HS | constructor; exact Hy].
Qed.

Lemma sortBy_Sorted l :
  (forall x y, In x l -> In y l -> if after x y then ord y x else ord x y) ->
  Sorted ord (sortBy after l).
Proof.
  induction l as [|x r IH]; intros H; simpl.
  - constructor.
  - apply insertSorted_Sorted.
    + intros y Hy. apply (proj1 (sortBy_In _ _)) in Hy. apply H; simpl; auto.
    + apply IH. intros; apply H; simpl; auto.
Qed.
End SortFacts.

(** ** Facts about insertion-ordered maps *)

Section MapFacts.
Context {V : Type}.
Implicit Types m : list (string * V).

Lemma get_set_eq k v m : JSMap.get k (JSMap.set k v m) = Some v.
Proof.
  induction m as [|[k' v'] r IH]; simpl.
  - rewrite String.eqb_refl. reflexivity.
  - destruct (String.eqb k k') eqn:E; simpl; rewrite E; [reflexivity | exact IH].
Qed.

Lemma get_set_ne k k' v m : k <> k' -> JSMap.get k' (JSMap.set k v m) = JSMap.get k' m.
Proof.
  intros Hne. induction m as [|[k0 v0] r IH]; simpl.
  - destruct (String.eqb_spec k' k); [congruence | reflexivity].
  - destruct (String.eqb_spec k k0); simpl.
    + subst k0. destruct (String.eqb_spec k' k); [congruence | reflexivity].
    + destruct (String.eqb k' k0); [reflexivity | exact IH].
Qed.

Lemma has_In_keys k m : JSMap.has k m = true <-> In k (JSMap.keys m).
Proof.
  clear inheritedText toLowerCase.
  unfold JSMap.has, JSMap.keys. induction m as [|[k' v'] r IH]; simpl.
  - split; [discriminate | tauto].
  - destruct (String.eqb_spec k k').
    + subst. tauto.
    + rewrite IH. split; [tauto | intros [->|]; [congruence | assumption]].
Qed.

Lemma keys_set k v m :
  JSMap.keys (JSMap.set k v m) = if JSMap.has k m then JSMap.keys m else (JSMap.keys m ++ [k])%list.
Proof.
  unfold JSMap.has, JSMap.keys. induction m as [|[k' v'] r IH]; simpl; [reflexivity|].
  destruct (String.eqb k k'); simpl; [reflexivity|].
  rewrite IH. destruct (JSMap.get k r); reflexivity.
Qed.

Lemma get_In k v m : List.NoDup (JSMap.keys m) -> In (k, v) m -> JSMap.get k m = Some v.
Proof.
  unfold JSMap.keys. induction m as [|[k' v'] r IH]; simpl; intros HN HI; [contradiction|].
  inversion HN as [|? ? Hnot HN']; subst.
  destruct HI as [HI|HI].
  - inversion HI; subst. rewrite String.eqb_refl. reflexivity.
  - destruct (String.eqb_spec k k').
    + subst. exfalso. apply Hnot. apply (in_map fst) in HI. exact HI.
    + apply IH; assumption.
Qed.

Lemma In_get k v m : JSMap.get k m = Some v -> In (k, v) m.
Proof.
  induction m as [|[k' v'] r IH]; simpl; [discriminate|].
  destruct (String.eqb_spec k k'); intros H.
  - inversion H; subst. auto.
  - auto.
Qed.
End MapFacts.

(** ** The aggregate, as a function of the observed names *)

Lemma has_existsb {V} k (m : list (string * V)) :
  JSMap.has k m = existsb (String.eqb k) (JSMap.keys m).
Proof.
  unfold JSMap.has, JSMap.keys. induction m as [|[k' v] r IH]; simpl; [reflexivity|].
  destruct (String.eqb k k'); [reflexivity | exact IH].
Qed.

Lemma has_get {V} k (m : list (string * V)) :
  JSMap.has k m = true -> exists v, JSMap.get k m = Some v.
Proof. unfold JSMap.has. destruct (JSMap.get k m); [eauto | discriminate]. Qed.

Lemma has_get_false {V} k (m : list (string * V)) :
  JSMap.has k m = false -> JSMap.get k m = None.
Proof. unfold JSMap.has. destruct (JSMap.get k m); [discriminate | reflexivity]. Qed.

Lemma tally_keys k l m : JSMap.keys (tally k l m) = addKey (JSMap.keys m) k.
Proof.
  unfold tally, addKey. rewrite <- has_existsb.
  destruct (JSMap.has k m) eqn:Hh.
  - destruct (has_get _ _ Hh) as [d Hd]. rewrite Hd, keys_set, Hh. reflexivity.
  - rewrite get_set_eq, keys_set. unfold JSMap.has at 1. rewrite get_set_eq.
    rewrite keys_set, Hh. reflexivity.
Qed.

Lemma tally_countOf k l m k' :
  countOf k' (tally k l m) = (countOf k' m + if String.eqb k k' then 1 else 0)%nat.
Proof.
  unfold tally, countOf.
  destruct (JSMap.has k m) eqn:Hh.
  - destruct (has_get _ _ Hh) as [d Hd]. rewrite Hd.
    destruct (String.eqb_spec k k').
    + subst. rewrite get_set_eq, Hd. reflexivity.
    + rewrite get_set_ne by assumption. lia.
  - rewrite get_set_eq. apply has_get_false in Hh.
    destruct (String.eqb_spec k k').
    + subst. rewrite get_set_eq, Hh. reflexivity.
    + rewrite !get_set_ne by assumption. lia.
Qed.

Lemma occurrences_app k l1 l2 :
  occurrences k (l1 ++ l2) = (occurrences k l1 + occurrences k l2)%nat.
Proof. unfold occurrences. rewrite List.filter_app, List.length_app. reflexivity. Qed.

Lemma occurrences_cons k k' l :
  occurrences k' (k :: l) = ((if String.eqb k k' then 1 else 0) + occurrences k' l)%nat.
Proof.
  unfold occurrences. simpl. rewrite (String.eqb_sym k' k).
  destruct (String.eqb k k'); reflexivity.
Qed.

Lemma tallyStrengths_keys m g :
  JSMap.keys (tallyStrengths m g) = fold_left addKey (strengthNames g) (JSMap.keys m).
Proof.
  unfold tallyStrengths, strengthNames. destruct (GenomeResponse.strengths g) as [l|]; [|reflexivity].
  revert m. induction l as [|s l IH]; intros m; simpl; [reflexivity|].
  rewrite IH, tally_keys. reflexivity.
Qed.

Lemma tallyStrengths_countOf m g k :
  countOf k (tallyStrengths m g) = (countOf k m + occurrences k (strengthNames g))%nat.
Proof.
  unfold tallyStrengths, strengthNames. destruct (GenomeResponse.strengths g) as [l|].
  2:{ unfold occurrences. simpl. lia. }
  revert m. induction l as [|s l IH]; intros m; simpl.
  - unfold occurrences. simpl. lia.
  - rewrite IH, tally_countOf, occurrences_cons. lia.
Qed.

Lemma skillMap_keys gs m :
  JSMap.keys (fold_left tallyStrengths gs m) = fold_left addKey (observedNames gs) (JSMap.keys m).
Proof.
  revert m. induction gs as [|g gs IH]; intros m; simpl; [reflexivity|].
  rewrite IH, tallyStrengths_keys, fold_left_app. reflexivity.
Qed.

Lemma skillMap_countOf gs m k :
  countOf k (fold_left tallyStrengths gs m) = (countOf k m + occurrences k (observedNames gs))%nat.
Proof.
  revert m. induction gs as [|g gs IH]; intros m; simpl.
  - unfold occurrences. simpl. lia.
  - rewrite IH, tallyStrengths_countOf, occurrences_app. lia.
Qed.

Lemma tallyGenome_fst gs a b :
  fst (fold_left tallyGenome gs (a, b)) = fold_left tallyStrengths gs a.
Proof.
  revert a b. induction gs as [|g gs IH]; intros a b; simpl; [reflexivity|].
  unfold tallyGenome at 2. simpl. apply IH.
Qed.

Lemma addKey_NoDup acc k : List.NoDup acc -> List.NoDup (addKey acc k).
Proof.
  intros H. unfold addKey. destruct (existsb (String.eqb k) acc) eqn:E; [exact H|].
  apply (Permutation_NoDup (Permutation_cons_append acc k)).
  constructor; [|exact H].
  intros HI.
  assert (existsb (String.eqb k) acc = true) as E'.
  { apply existsb_exists. exists k. split; [exact HI | apply String.eqb_refl]. }
  congruence.
Qed.

Lemma fold_addKey_NoDup l acc : List.NoDup acc -> List.NoDup (fold_left addKey l acc).
Proof.
  revert acc. induction l as [|k l IH]; intros acc H; simpl; [exact H|].
  apply IH, addKey_NoDup, H.
Qed.

Lemma firstSeen_NoDup l : List.NoDup (firstSeen l).
Proof. apply fold_addKey_NoDup. constructor. Qed.

Lemma fold_addKey_In l acc k : In k (fold_left addKey l acc) <-> In k acc \/ In k l.
Proof.
  clear inheritedText toLowerCase.
  revert acc. induction l as [|k' l IH]; intros acc; simpl; [tauto|].
  rewrite IH. unfold addKey. destruct (existsb (String.eqb k') acc) eqn:E.
  - apply existsb_exists in E. destruct E as (x & Hx & Heq).
    apply String.eqb_eq in Heq. subst x.
    split; [tauto | intros [?|[->|?]]; auto].
  - rewrite in_app_iff. simpl. tauto.
Qed.

Lemma firstSeen_In l k : In k (firstSeen l) <-> In k l.
Proof.
  clear inheritedText toLowerCase.
  unfold firstSeen. rewrite fold_addKey_In. simpl. tauto. Qed.

Lemma aggregate_skills g gs :
  TeamAggregate.skills (buildTeamAggregate (Some (g :: gs)))
  = sortBy byCountDesc (talliedSkills (g :: gs)).
Proof.
  unfold buildTeamAggregate, talliedSkills.
  rewrite <- (tallyGenome_fst (g :: gs) [] []).
  destruct (fold_left tallyGenome (g :: gs) ([], [])) as [sm lm]. reflexivity.
Qed.

Lemma aggregate_totalMembers g gs :
  TeamAggregate.totalMembers (buildTeamAggregate (Some (g :: gs))) = length (g :: gs).
Proof.
  unfold buildTeamAggregate.
  destruct (fold_left tallyGenome (g :: gs) ([], [])) as [sm lm]. reflexivity.
Qed.

Lemma talliedSkills_names gs :
  List.map SkillFrequency.skillName (talliedSkills gs) = firstSeen (observedNames gs).
Proof.
  unfold talliedSkills, firstSeen.
  change (@nil string) with (JSMap.keys (@nil (string * Tally.t))).
  rewrite <- skillMap_keys. unfold JSMap.keys.
  rewrite List.map_map. apply List.map_ext. intros [k d]. reflexivity.
Qed.

Lemma talliedSkills_spec gs f :
  In f (talliedSkills gs) ->
  SkillFrequency.count f = occurrences (SkillFrequency.skillName f) (observedNames gs)
  /\ SkillFrequency.percentage f = percentageOf (SkillFrequency.count f) (length gs).
Proof.
  unfold talliedSkills. intros H. apply in_map_iff in H. destruct H as ([k d] & <- & Hin).
  simpl. split; [|reflexivity].
  pose proof (skillMap_countOf gs [] k) as Hc.
  unfold countOf in Hc. simpl in Hc.
  rewrite (get_In k d) in Hc; [exact Hc | | exact Hin].
  rewrite skillMap_keys. apply fold_addKey_NoDup. constructor.
Qed.

(** ** calculateDelta, as filters of the candidate's observations *)

Lemma classifySkill_step team r v s :
  classifySkill team (r, v) s
  = ((r ++ List.filter SkillDelta.isRedundant [skillDelta team s])%list,
     (v ++ List.filter onlyValueAdd [skillDelta team s])%list).
Proof.
  unfold classifySkill, onlyValueAdd. cbv zeta.
  generalize (skillDelta team s). intros d. cbn [fst snd List.filter].
  destruct (SkillDelta.isRedundant d), (SkillDelta.isValueAdd d); cbn [negb andb];
    rewrite ?app_nil_r; reflexivity.
Qed.

Lemma classifySkill_fold team l r v :
  fold_left (classifySkill team) l (r, v)
  = ((r ++ List.filter SkillDelta.isRedundant (List.map (skillDelta team) l))%list,
     (v ++ List.filter onlyValueAdd (List.map (skillDelta team) l))%list).
Proof.
  revert r v. induction l as [|s l IH]; intros r v.
  - simpl. rewrite !app_nil_r. reflexivity.
  - cbn [fold_left List.map]. rewrite classifySkill_step, IH.
    change (skillDelta team s :: List.map (skillDelta team) l)
      with ([skillDelta team s] ++ List.map (skillDelta team) l)%list.
    rewrite !List.filter_app, <- !app_assoc. reflexivity.
Qed.

Lemma classifyLanguage_step team acc x :
  classifyLanguage team acc x
  = (acc ++ List.map (languageDelta team) (List.filter (rareLanguage team) [x]))%list.
Proof.
  unfold classifyLanguage, rareLanguage, languageDelta. cbv zeta. cbn [List.filter].
  destruct (lt (languageCoverage team (GenomeLanguage.code x)) VALUE_ADD_THRESHOLD);
    cbn [List.map]; rewrite ?app_nil_r; reflexivity.
Qed.

Lemma classifyLanguage_fold team l acc :
  fold_left (classifyLanguage team) l acc
  = (acc ++ List.map (languageDelta team) (List.filter (rareLanguage team) l))%list.
Proof.
  revert acc. induction l as [|x l IH]; intros acc.
  - simpl. rewrite app_nil_r. reflexivity.
  - cbn [fold_left]. rewrite classifyLanguage_step, IH.
    change (x :: l) with ([x] ++ l)%list.
    rewrite List.filter_app, List.map_app, <- app_assoc. reflexivity.
Qed.

Lemma calculateDelta_spec candidate team :
  calculateDelta candidate team
  = let deltas := List.map (skillDelta team) (candidateStrengths candidate) in
    let redundantSkills := sortBy byCoverageDesc (List.filter SkillDelta.isRedundant deltas) in
    let valueAddSkills := sortBy byCoverageAsc (List.filter onlyValueAdd deltas) in
    let valueAddLanguages :=
      List.map (languageDelta team) (List.filter (rareLanguage team) (candidateLanguages candidate)) in
    DeltaAnalysis.mk redundantSkills valueAddSkills valueAddLanguages
      (Summary.mk (length redundantSkills) (length valueAddSkills)
         (length valueAddLanguages) (TeamAggregate.totalMembers team)).
Proof.
  unfold calculateDelta, candidateStrengths, candidateLanguages.
  destruct (GenomeResponse.strengths candidate) as [ls|],
           (GenomeResponse.languages candidate) as [ll|]; simpl;
    rewrite ?classifySkill_fold, ?classifyLanguage_fold; reflexivity.
Qed.

Lemma teamSkillMap_fold (l : list SkillFrequency.t) (m : gmap string SkillFrequency.t) key :
  fold_left (fun m skill => <[toLowerCase (SkillFrequency.skillName skill) := skill]> m) l m !! key
  = match lastMatch key l with Some f => Some f | None => m !! key end.
Proof.
  unfold lastMatch. revert m. induction l as [|f l IH] using rev_ind; intros m; [reflexivity|].
  rewrite fold_left_app, rev_app_distr. simpl.
  rewrite lookup_insert.
  destruct (String.eqb_spec (toLowerCase (SkillFrequency.skillName f)) key) as [E|E].
  - rewrite decide_True by assumption. reflexivity.
  - rewrite decide_False by assumption. apply IH.
Qed.

Lemma teamSkillMap_lookup team key :
  teamSkillMap team !! key = lastMatch key (TeamAggregate.skills team).
Proof.
  unfold teamSkillMap. rewrite teamSkillMap_fold, lookup_empty.
  destruct (lastMatch key (TeamAggregate.skills team)); reflexivity.
Qed.

Lemma lastMatch_Some key l f :
  lastMatch key l = Some f ->
  In f l /\ toLowerCase (SkillFrequency.skillName f) = key.
Proof.
  unfold lastMatch. intros H. apply List.find_some in H. destruct H as [Hin Heq].
  split; [apply in_rev, Hin | apply String.eqb_eq, Heq].
Qed.

Lemma lastMatch_None key l :
  lastMatch key l = None ->
  forall f, In f l -> toLowerCase (SkillFrequency.skillName f) <> key.
Proof.
  unfold lastMatch. intros H f Hin Heq.
  pose proof (List.find_none _ _ H f) as Hn.
  rewrite <- in_rev in Hn. specialize (Hn Hin).
  apply String.eqb_eq in Heq. congruence.
Qed.

Lemma sortBy_id {A} (after : A -> A -> bool) l :
  (forall x y, In x l -> In y l -> after x y = false) -> sortBy after l = l.
Proof.
  induction l as [|x r IH]; intros H; [reflexivity|].
  simpl. rewrite IH by (intros; apply H; simpl; auto).
  destruct r as [|y r']; [reflexivity|]. simpl.
  rewrite H by (simpl; auto). reflexivity.
Qed.

(** ** generateAlerts: the groups and their alerts *)

Lemma addToGroup_keys g x : JSMap.keys (addToGroup g x) = addKey (JSMap.keys g) (groupKey x).
Proof.
  unfold addToGroup, addKey. rewrite <- has_existsb.
  destruct (JSMap.has (groupKey x) g) eqn:Hh.
  - destruct (has_get _ _ Hh) as [d Hd]. rewrite Hd, keys_set, Hh. reflexivity.
  - rewrite get_set_eq, keys_set. unfold JSMap.has at 1. rewrite get_set_eq.
    rewrite keys_set, Hh. reflexivity.
Qed.

Lemma addToGroup_get g x k :
  JSMap.get k (addToGroup g x)
  = if sameKey k x then Some (default [] (JSMap.get k g) ++ [x])%list else JSMap.get k g.
Proof.
  unfold addToGroup, sameKey.
  destruct (JSMap.has (groupKey x) g) eqn:Hh.
  - destruct (has_get _ _ Hh) as [d Hd]. rewrite Hd.
    destruct (String.eqb_spec (groupKey x) k).
    + subst. rewrite get_set_eq, Hd. reflexivity.
    + rewrite get_set_ne by assumption. reflexivity.
  - rewrite get_set_eq. apply has_get_false in Hh.
    destruct (String.eqb_spec (groupKey x) k).
    + subst. rewrite get_set_eq, Hh. reflexivity.
    + rewrite !get_set_ne by assumption. reflexivity.
Qed.

Lemma groups_keys l :
  JSMap.keys (fold_left addToGroup l []) = firstSeen (List.map groupKey l).
Proof.
  unfold firstSeen. induction l as [|x l IH] using rev_ind; [reflexivity|].
  rewrite List.map_app, !fold_left_app. simpl. rewrite addToGroup_keys, IH. reflexivity.
Qed.

Lemma filter_existsb_false {A} (p : A -> bool) l :
  existsb p l = false -> List.filter p l = [].
Proof.
  induction l as [|x l IH]; simpl; [reflexivity|].
  destruct (p x); simpl; [discriminate | exact IH].
Qed.

Lemma groups_get l k :
  JSMap.get k (fold_left addToGroup l [])
  = if existsb (sameKey k) l then Some (List.filter (sameKey k) l) else None.
Proof.
  induction l as [|x l IH] using rev_ind; [reflexivity|].
  rewrite fold_left_app, existsb_app, List.filter_app. simpl.
  rewrite addToGroup_get, IH.
  destruct (sameKey k x); simpl.
  - rewrite orb_true_r. destruct (existsb (sameKey k) l) eqn:E; simpl; [reflexivity|].
    rewrite filter_existsb_false by assumption. reflexivity.
  - rewrite orb_false_r, app_nil_r. reflexivity.
Qed.

Lemma values_keys {V} (m : list (string * V)) (F : string -> V) :
  List.NoDup (JSMap.keys m) ->
  (forall k, In k (JSMap.keys m) -> JSMap.get k m = Some (F k)) ->
  JSMap.values m = List.map F (JSMap.keys m).
Proof.
  unfold JSMap.values, JSMap.keys. induction m as [|[k v] r IH]; intros HN H; [reflexivity|].
  simpl. inversion HN as [|? ? Hnot HN']; subst.
  f_equal.
  - specialize (H k (or_introl eq_refl)). simpl in H. rewrite String.eqb_refl in H. congruence.
  - apply IH; [exact HN'|]. intros k' Hk'. specialize (H k' (or_intror Hk')).
    simpl in H. destruct (String.eqb_spec k' k); [subst; contradiction | exact H].
Qed.

Lemma groups_values l : JSMap.values (fold_left addToGroup l []) = groupsOf l.
Proof.
  unfold groupsOf. rewrite <- groups_keys.
  apply values_keys.
  - rewrite groups_keys. apply firstSeen_NoDup.
  - intros k Hk. rewrite groups_get.
    rewrite groups_keys, firstSeen_In, in_map_iff in Hk. destruct Hk as (x & Hx & Hin).
    rewrite (proj2 (existsb_exists _ _)); [reflexivity|].
    exists x. split; [exact Hin|]. unfold sameKey. rewrite Hx. apply String.eqb_refl.
Qed.

Lemma groupsOf_nonempty l g : In g (groupsOf l) -> g <> [].
Proof.
  unfold groupsOf. rewrite in_map_iff. intros (k & <- & Hk).
  rewrite firstSeen_In, in_map_iff in Hk. destruct Hk as (x & Hx & Hin).
  intros Hnil.
  assert (In x (List.filter (sameKey k) l)) as Hf.
  { apply List.filter_In. split; [exact Hin|]. unfold sameKey. rewrite Hx. apply String.eqb_refl. }
  rewrite Hnil in Hf. contradiction.
Qed.

Lemma redundancyAlert_cons delta skill rest :
  redundancyAlert delta (skill :: rest) = Some (alertOf delta skill (skill :: rest)).
Proof. reflexivity. Qed.

Lemma omap_all_Some {A B} (f : A -> option B) (g : A -> B) l :
  (forall x, In x l -> f x = Some (g x)) -> omap f l = List.map g l.
Proof.
  induction l as [|x l IH]; intros H; [reflexivity|].
  simpl. rewrite (H x) by (simpl; auto). simpl. f_equal. apply IH. intros; apply H; simpl; auto.
Qed.

Lemma redundancyAlerts_spec delta :
  Alerts.redundancyAlerts (generateAlerts delta)
  = List.map (fun g => alertOf delta (List.hd (SkillDelta.mk "" "" zero ∅ false false) g) g)
      (groupsOf (DeltaAnalysis.redundantSkills delta)).
Proof.
  unfold generateAlerts. simpl. rewrite groups_values.
  apply omap_all_Some. intros g Hg. apply groupsOf_nonempty in Hg.
  destruct g as [|s r]; [contradiction | reflexivity].
Qed.

(** Every alert is the alert of a group, headed by the skill it describes. *)
Lemma redundancyAlert_inv delta a :
  In a (Alerts.redundancyAlerts (generateAlerts delta)) ->
  exists skill rest,
    In (skill :: rest) (groupsOf (DeltaAnalysis.redundantSkills delta))
    /\ a = alertOf delta skill (skill :: rest).
Proof.
  rewrite redundancyAlerts_spec, in_map_iff. intros (g & <- & Hg).
  pose proof (groupsOf_nonempty _ _ Hg) as Hne.
  destruct g as [|s r]; [contradiction|]. exists s, r. split; [exact Hg | reflexivity].
Qed.

(** ** Membership in the two skill lists *)

Lemma redundantSkills_In candidate team d :
  In d (DeltaAnalysis.redundantSkills (calculateDelta candidate team)) <->
  exists s, In s (candidateStrengths candidate) /\ d = skillDelta team s
            /\ SkillDelta.isRedundant d = true.
Proof.
  rewrite calculateDelta_spec. cbn [DeltaAnalysis.redundantSkills].
  rewrite sortBy_In, List.filter_In, in_map_iff. split.
  - intros [(s & <- & Hs) Hr]. eauto.
  - intros (s & Hs & -> & Hr). eauto.
Qed.

Lemma valueAddSkills_In candidate team d :
  In d (DeltaAnalysis.valueAddSkills (calculateDelta candidate team)) <->
  exists s, In s (candidateStrengths candidate) /\ d = skillDelta team s
            /\ SkillDelta.isRedundant d = false /\ SkillDelta.isValueAdd d = true.
Proof.
  rewrite calculateDelta_spec. cbn [DeltaAnalysis.valueAddSkills].
  rewrite sortBy_In, List.filter_In, in_map_iff. unfold onlyValueAdd.
  rewrite andb_true_iff, negb_true_iff. split.
  - intros [(s & <- & Hs) [Hr Hv]]. eauto.
  - intros (s & Hs & -> & Hr & Hv). eauto.
Qed.

Lemma skillDelta_empty strength :
  skillDelta emptyAggregate strength
  = SkillDelta.mk (GenomeStrength.name strength)
      (orUnknown (proficiencyOf strength)) zero ∅ false true.
Proof. unfold skillDelta. rewrite teamSkillMap_lookup. reflexivity. Qed.

Lemma filter_all {A} (p : A -> bool) l : (forall x, In x l -> p x = true) -> List.filter p l = l.
Proof.
  induction l as [|x l IH]; intros H; [reflexivity|].
  simpl. rewrite (H x) by (simpl; auto). f_equal. apply IH. intros; apply H; simpl; auto.
Qed.

Lemma filter_none {A} (p : A -> bool) l : (forall x, In x l -> p x = false) -> List.filter p l = [].
Proof.
  induction l as [|x l IH]; intros H; [reflexivity|].
  simpl. rewrite (H x) by (simpl; auto). apply IH. intros; apply H; simpl; auto.
Qed.

Lemma redundantSkills_empty candidate :
  DeltaAnalysis.redundantSkills (calculateDelta candidate emptyAggregate) = [].
Proof.
  rewrite calculateDelta_spec. cbn [DeltaAnalysis.redundantSkills].
  rewrite filter_none; [reflexivity|].
  intros d Hd. apply in_map_iff in Hd. destruct Hd as (s & <- & _).
  rewrite skillDelta_empty. reflexivity.
Qed.

Lemma redundant_needs_members genomes candidate :
  DeltaAnalysis.redundantSkills (calculateDelta candidate (buildTeamAggregate genomes)) <> [] ->
  (1 <= Summary.totalTeamMembers
          (DeltaAnalysis.summary (calculateDelta candidate (buildTeamAggregate genomes))))%nat.
Proof.
  intros Hne. rewrite calculateDelta_spec. cbn [DeltaAnalysis.summary Summary.totalTeamMembers].
  destruct genomes as [[|g gs]|].
  - exfalso. apply Hne. apply redundantSkills_empty.
  - rewrite aggregate_totalMembers. simpl. lia.
  - exfalso. apply Hne. apply redundantSkills_empty.
Qed.

(** ** Orderings *)

Lemma sign_exclusive x : isPositive x = true -> isNegative x = true -> False.
Proof. destruct x as [[]|[]| |[] m e]; simpl; discriminate. Qed.

Lemma div_valid x y : valid_binary prec emax (div x y) = true.
Proof. apply SFdiv_valid. Qed.

Lemma teamCoverage_valid team strength :
  valid_binary prec emax (SkillDelta.teamCoverage (skillDelta team strength)) = true.
Proof.
  unfold skillDelta. cbn [SkillDelta.teamCoverage].
  destruct (teamSkillMap team !! toLowerCase (GenomeStrength.name strength));
    [apply div_valid | reflexivity].
Qed.

(** On numbers that are not [NaN] the sign of [y - x] decides the order. *)
Lemma sub_decides_order x y :
  valid_binary prec emax x = true -> valid_binary prec emax y = true ->
  isNaN x = false -> isNaN y = false ->
  if gt (sub y x) zero then le x y = true else le y x = true.
Proof.
  intros Vx Vy Nx Ny. rewrite gt_positive.
  destruct (isPositive (sub y x)) eqn:E.
  - destruct (le x y) eqn:L; [reflexivity|].
    apply le_total in L; try assumption.
    destruct (SFsub_sign y x Vy Vx L) as [_ Hn].
    exfalso. exact (sign_exclusive _ E Hn).
  - destruct (le y x) eqn:L; [reflexivity|].
    apply le_total in L; try assumption.
    destruct (SFsub_sign x y Vx Vy L) as [Hp _].
    unfold sub in E. congruence.
Qed.

Lemma map_filter_ext {A B} (f : A -> B) (p : A -> bool) (q : B -> bool) l :
  (forall x, In x l -> p x = q (f x)) ->
  List.map f (List.filter p l) = List.filter q (List.map f l).
Proof.
  induction l as [|x l IH]; intros H; [reflexivity|].
  simpl. rewrite <- (H x) by (simpl; auto).
  destruct (p x); simpl; rewrite IH by (intros; apply H; simpl; auto); reflexivity.
Qed.

Lemma Sorted_le_Strongly {A} (key : A -> number) l :
  Sorted (fun a b => le (key a) (key b) = true) l ->
  StronglySorted (fun a b => le (key a) (key b) = true) l.
Proof.
  apply Sorted_StronglySorted. intros a b c. apply le_trans.
Qed.

Lemma redundantSkills_sorted candidate team :
  StronglySorted
    (fun a b => le (SkillDelta.teamCoverage b) (SkillDelta.teamCoverage a) = true)
    (DeltaAnalysis.redundantSkills (calculateDelta candidate team)).
Proof.
  rewrite calculateDelta_spec. cbn [DeltaAnalysis.redundantSkills].
  apply Sorted_StronglySorted; [intros a b c H1 H2; exact (le_trans _ _ _ H2 H1)|].
  apply sortBy_Sorted. intros x y Hx Hy.
  apply List.filter_In in Hx, Hy. destruct Hx as [Hx Rx], Hy as [Hy Ry].
  apply in_map_iff in Hx, Hy. destruct Hx as (sx & <- & _), Hy as (sy & <- & _).
  unfold byCoverageDesc.
  pose proof (lt_notNaN _ _ Rx) as [_ Nx]. pose proof (lt_notNaN _ _ Ry) as [_ Ny].
  pose proof (sub_decides_order _ _ (teamCoverage_valid team sx) (teamCoverage_valid team sy)
                Nx Ny) as H.
  destruct (gt (sub (SkillDelta.teamCoverage (skillDelta team sy))
                    (SkillDelta.teamCoverage (skillDelta team sx))) zero); exact H.
Qed.

Lemma valueAddSkills_sorted candidate team :
  StronglySorted
    (fun a b => le (SkillDelta.teamCoverage a) (SkillDelta.teamCoverage b) = true)
    (DeltaAnalysis.valueAddSkills (calculateDelta candidate team)).
Proof.
  rewrite calculateDelta_spec. cbn [DeltaAnalysis.valueAddSkills].
  apply Sorted_le_Strongly with (key := SkillDelta.teamCoverage).
  apply sortBy_Sorted. intros x y Hx Hy.
  apply List.filter_In in Hx, Hy. destruct Hx as [Hx Vx], Hy as [Hy Vy].
  apply in_map_iff in Hx, Hy. destruct Hx as (sx & <- & _), Hy as (sy & <- & _).
  unfold onlyValueAdd in Vx, Vy. apply andb_true_iff in Vx, Vy.
  destruct Vx as [_ Vx], Vy as [_ Vy].
  unfold byCoverageAsc.
  pose proof (lt_notNaN _ _ Vx) as [Nx _]. pose proof (lt_notNaN _ _ Vy) as [Ny _].
  pose proof (sub_decides_order _ _ (teamCoverage_valid team sy) (teamCoverage_valid team sx)
                Ny Nx) as H.
  destruct (gt (sub (SkillDelta.teamCoverage (skillDelta team sx))
                    (SkillDelta.teamCoverage (skillDelta team sy))) zero); exact H.
Qed.

(** ** Grouping keys *)

Lemma noUnderscore_append a b : noUnderscore (a +:+ String "_" b) = false.
Proof.
  induction a as [|c a IH]; simpl; [reflexivity|].
  rewrite IH. apply andb_false_r.
Qed.

Lemma key_injective a1 p1 a2 p2 :
  noUnderscore p1 = true -> noUnderscore p2 = true ->
  a1 +:+ "_" +:+ p1 = a2 +:+ "_" +:+ p2 -> a1 = a2 /\ p1 = p2.
Proof.
  change ("_" +:+ p1) with (String "_" p1). change ("_" +:+ p2) with (String "_" p2).
  intros H1 H2. revert a2. induction a1 as [|c a1 IH]; intros [|c' a2] H; cbn [String.append] in H.
  - injection H as Hp. auto.
  - injection H as Hc Hp. rewrite Hp, noUnderscore_append in H1. discriminate.
  - injection H as Hc Hp. rewrite <- Hp, noUnderscore_append in H2. discriminate.
  - injection H as Hc Hp. destruct (IH a2 Hp) as [-> ->]. subst. auto.
Qed.

(** ** Messages *)

Lemma endsWith_append suffix p : endsWith suffix (p +:+ suffix) = true.
Proof.
  induction p as [|c p IH]; simpl.
  - destruct suffix; simpl; rewrite ?Ascii.eqb_refl, ?String.eqb_refl; reflexivity.
  - rewrite IH. apply orb_true_r.
Qed.

Lemma append_assoc (a b c : string) : (a +:+ b) +:+ c = a +:+ (b +:+ c).
Proof.
  induction a as [|x a IH]; [reflexivity|].
  change (String x ((a +:+ b) +:+ c) = String x (a +:+ (b +:+ c))). f_equal. exact IH.
Qed.

Lemma alertOf_message delta skill members :
  RedundancyAlert.message (alertOf delta skill members)
  = let n := exactMatchCount
               (membersOrOne (Summary.totalTeamMembers (DeltaAnalysis.summary delta))) skill in
    if gt n zero then exactMatchMessage n skill else coverageMessage skill.
Proof.
  unfold alertOf, exactMatchMessage, coverageMessage. cbn [RedundancyAlert.message]. cbv zeta.
  destruct (gt _ zero); [|reflexivity].
  destruct (gt _ one); reflexivity.
Qed.

(** ** The value-add alert *)

Lemma valueAddMessage_ending delta :
  (0 < length (DeltaAnalysis.valueAddSkills delta)
   \/ 0 < length (DeltaAnalysis.valueAddLanguages delta))%nat ->
  endsWith (if existsb uncovered (DeltaAnalysis.valueAddSkills delta) then LACKS else LIMITED)
           (valueAddMessage delta) = true.
Proof.
  intros Hne. unfold valueAddMessage. cbv zeta.
  set (additions := (_ ++ _)%list).
  assert (Nat.ltb 0 (length additions) = true) as ->.
  { subst additions. rewrite List.length_app, !List.length_map, List.length_firstn.
    apply Nat.ltb_lt.
    destruct (DeltaAnalysis.valueAddSkills delta) as [|s l],
             (DeltaAnalysis.valueAddLanguages delta) as [|x ll]; simpl in *; lia. }
  change (existsb (fun s => strictEq (SkillDelta.teamCoverage s) zero))
    with (existsb uncovered).
  rewrite <- !append_assoc.
  destruct (existsb uncovered (DeltaAnalysis.valueAddSkills delta)).
  - rewrite !append_assoc.
    change ("—skills your current team " +:+ "completely lacks" +:+ ".") with LACKS.
    rewrite <- !append_assoc. apply endsWith_append.
  - rewrite !append_assoc.
    change ("—skills your current team " +:+ "has limited coverage in" +:+ ".") with LIMITED.
    rewrite <- !append_assoc. apply endsWith_append.
Qed.

Lemma le_zero_uncovered h x :
  le zero (SkillDelta.teamCoverage h) = true ->
  le (SkillDelta.teamCoverage h) (SkillDelta.teamCoverage x) = true ->
  uncovered x = true -> uncovered h = true.
Proof.
  unfold uncovered, strictEq, le. intros H0 Hle Hx.
  apply eqb_rank in Hx. apply leb_rank in H0, Hle. apply eqb_rank.
  destruct H0 as (_ & Hh & H0), Hle as (_ & _ & Hle), Hx as (_ & _ & Hx).
  split; [assumption|]. split; [reflexivity|].
  rewrite Hx in Hle. simpl in *.
  destruct (rank (SkillDelta.teamCoverage h)) as [[a b] c]. simpl in *.
  destruct H0 as [H0|H0], Hle as [Hle|Hle]; try (inversion H0; subst); try (inversion Hle; subst);
    try reflexivity; lia.
Qed.

Lemma In_firstn {A} n (l : list A) x : In x (firstn n l) -> In x l.
Proof.
  revert l. induction n as [|n IH]; intros [|y l]; simpl; try tauto.
  intros [->|H]; auto.
Qed.

(** In a list in ascending order of non-negative coverage, an uncovered
    skill, if there is one, comes first. *)
Lemma uncovered_in_prefix n l :
  StronglySorted (fun a b => le (SkillDelta.teamCoverage a) (SkillDelta.teamCoverage b) = true) l ->
  Forall (fun s => le zero (SkillDelta.teamCoverage s) = true) l ->
  existsb uncovered l = existsb uncovered (firstn (S n) l).
Proof.
  intros HS HF. destruct l as [|h r]; [reflexivity|].
  cbn [firstn existsb].
  destruct (uncovered h) eqn:Eh; [reflexivity|]. cbn [orb].
  assert (existsb uncovered r = false) as Hr.
  { destruct (existsb uncovered r) eqn:E; [|reflexivity].
    apply existsb_exists in E. destruct E as (x & Hx & Ux).
    inversion HS as [|? ? _ Hall]; subst. inversion HF as [|? ? H0 _]; subst.
    rewrite List.Forall_forall in Hall. specialize (Hall x Hx).
    rewrite (le_zero_uncovered h x H0 Hall Ux) in Eh. discriminate. }
  rewrite Hr. symmetry.
  destruct (existsb uncovered (firstn n r)) eqn:E; [|reflexivity].
  apply existsb_exists in E. destruct E as (x & Hx & Ux).
  apply In_firstn in Hx.
  assert (existsb uncovered r = true) by (apply existsb_exists; eauto). congruence.
Qed.

(** ** Signs along the computation of a percentage *)

Lemma binary_round_aux_signClear mx ex lx :
  signClear (binary_round_aux prec emax false mx ex lx) = true.
Proof.
  unfold binary_round_aux.
  destruct (shr_fexp prec emax mx ex lx) as [mrs1 e1].
  destruct (shr_fexp prec emax _ e1 loc_Exact) as [mrs2 e2].
  destruct (shr_m mrs2); try reflexivity.
  destruct (e2 <=? emax - prec); reflexivity.
Qed.

Lemma ofZ_signClear z : 0 <= z -> signClear (ofZ z) = true.
Proof.
  intros Hz. destruct z as [|p|p]; try lia; [reflexivity|].
  unfold ofZ, binary_normalize, binary_round.
  destruct (shl_align p 0 _) as [mz ez]. apply binary_round_aux_signClear.
Qed.

Lemma div_signClear x y : signClear x = true -> signClear y = true -> signClear (div x y) = true.
Proof.
  destruct x as [[]|[]| |[] mx ex], y as [[]|[]| |[] my ey]; simpl; try discriminate;
    intros _ _; try reflexivity.
  unfold div, SFdiv.
  destruct (SFdiv_core_binary prec emax (Z.pos mx) ex (Z.pos my) ey) as [[q e] l].
  apply binary_round_aux_signClear.
Qed.

Lemma mul_signClear x y : signClear x = true -> signClear y = true -> signClear (mul x y) = true.
Proof.
  destruct x as [[]|[]| |[] mx ex], y as [[]|[]| |[] my ey]; simpl; try discriminate;
    intros _ _; try reflexivity.
  apply binary_round_aux_signClear.
Qed.

Lemma mathRound_signClear x : signClear x = true -> signClear (mathRound x) = true.
Proof.
  destruct x as [[]|[]| |[] m e]; simpl; try discriminate; intros _; try reflexivity.
  destruct (0 <=? e); [reflexivity|].
  destruct (Z.eqb_spec ((2 * Z.pos m + 2 ^ (- e)) / (2 * 2 ^ (- e))) 0); [reflexivity|].
  apply ofZ_signClear. apply Z.div_pos.
  - pose proof (Z.pow_nonneg 2 (- e)). lia.
  - destruct (Z_lt_le_dec (- e) 0) as [Hn|Hn].
    + rewrite Z.pow_neg_r in n by assumption. simpl in n. rewrite Z.div_0_r in n. contradiction.
    + pose proof (Z.pow_pos_nonneg 2 (- e)). lia.
Qed.

Lemma percentageOf_signClear c t : signClear (percentageOf c t) = true.
Proof.
  unfold percentageOf, ofNat.
  apply div_signClear; [|reflexivity].
  apply mathRound_signClear.
  apply mul_signClear; [|reflexivity].
  apply mul_signClear; [|reflexivity].
  apply div_signClear; apply ofZ_signClear; lia.
Qed.

Lemma signClear_le_zero x : signClear x = true -> isNaN x = false -> le zero x = true.
Proof. destruct x as [[]|[]| |[] m e]; simpl; try discriminate; reflexivity. Qed.

(** The percentages of an aggregate built from profiles, and the coverages
    derived from them, have a clear sign bit. *)
Lemma aggregate_percentage genomes f :
  In f (TeamAggregate.skills (buildTeamAggregate (Some genomes))) ->
  SkillFrequency.count f = occurrences (SkillFrequency.skillName f) (observedNames genomes)
  /\ SkillFrequency.percentage f = percentageOf (SkillFrequency.count f) (length genomes).
Proof.
  destruct genomes as [|g gs]; [intros []|].
  rewrite aggregate_skills, sortBy_In. apply talliedSkills_spec.
Qed.

Lemma pipeline_coverage_signClear genomes strength :
  signClear (SkillDelta.teamCoverage
               (skillDelta (buildTeamAggregate (Some genomes)) strength)) = true.
Proof.
  unfold skillDelta. cbn [SkillDelta.teamCoverage]. rewrite teamSkillMap_lookup.
  destruct (lastMatch _ _) as [f|] eqn:E; [|reflexivity].
  apply lastMatch_Some in E. destruct E as [Hin _].
  apply aggregate_percentage in Hin. destruct Hin as [_ ->].
  apply div_signClear; [apply percentageOf_signClear | reflexivity].
Qed.

Lemma endsWith_trans s1 s2 s :
  endsWith s1 s2 = true -> endsWith s2 s = true -> endsWith s1 s = true.
Proof.
  intros H12. induction s as [|c s IH]; cbn [endsWith]; intros H.
  - rewrite orb_false_r in H. apply String.eqb_eq in H. subst. exact H12.
  - apply orb_true_iff in H. destruct H as [H|H].
    + apply String.eqb_eq in H. subst. exact H12.
    + rewrite (IH H). apply orb_true_r.
Qed.

Lemma pipeline_uncovered_listed genomes candidate :
  let delta := calculateDelta candidate (buildTeamAggregate (Some genomes)) in
  existsb uncovered (DeltaAnalysis.valueAddSkills delta)
  = existsb uncovered (firstn 10 (DeltaAnalysis.valueAddSkills delta)).
Proof.
  cbv zeta. apply uncovered_in_prefix.
  - apply valueAddSkills_sorted.
  - apply List.Forall_forall. intros d Hd.
    apply valueAddSkills_In in Hd. destruct Hd as (s & _ & -> & _ & Hv).
    apply signClear_le_zero; [apply pipeline_coverage_signClear|].
    change (lt (SkillDelta.teamCoverage
                  (skillDelta (buildTeamAggregate (Some genomes)) s)) VALUE_ADD_THRESHOLD = true)
      in Hv.
    apply lt_notNaN in Hv. tauto.
Qed.

Lemma aggregate_names genomes f :
  In f (TeamAggregate.skills (buildTeamAggregate (Some genomes))) ->
  In (SkillFrequency.skillName f) (observedNames genomes).
Proof.
  destruct genomes as [|g gs]; [intros []|].
  rewrite aggregate_skills, sortBy_In. intros H.
  apply (in_map SkillFrequency.skillName) in H.
  rewrite talliedSkills_names, firstSeen_In in H. exact H.
Qed.

Lemma skillDelta_unmatched team strength :
  (forall f, In f (TeamAggregate.skills team) ->
     toLowerCase (SkillFrequency.skillName f) <> toLowerCase (GenomeStrength.name strength)) ->
  skillDelta team strength
  = SkillDelta.mk (GenomeStrength.name strength)
      (orUnknown (proficiencyOf strength)) zero ∅ false true.
Proof.
  intros H. unfold skillDelta. rewrite teamSkillMap_lookup.
  destruct (lastMatch _ _) as [f|] eqn:E; [|reflexivity].
  apply lastMatch_Some in E. destruct E as [Hin Heq]. exfalso. exact (H f Hin Heq).
Qed.

(** ** Matching of names *)

Lemma find_app_none {A} (p : A -> bool) l1 l2 :
  (forall x, In x l1 -> p x = false) -> List.find p (l1 ++ l2) = List.find p l2.
Proof.
  induction l1 as [|x l1 IH]; intros H; [reflexivity|].
  simpl. rewrite (H x) by (simpl; auto). apply IH. intros; apply H; simpl; auto.
Qed.

Lemma lastMatch_split key before f after :
  toLowerCase (SkillFrequency.skillName f) = key ->
  (forall g, In g after -> toLowerCase (SkillFrequency.skillName g) <> key) ->
  lastMatch key (before ++ f :: after) = Some f.
Proof.
  intros Hf Hafter. unfold lastMatch.
  rewrite rev_app_distr. simpl. rewrite <- app_assoc.
  rewrite find_app_none.
  - simpl. rewrite (proj2 (String.eqb_eq _ _) Hf). reflexivity.
  - intros g Hg. apply in_rev in Hg. apply String.eqb_neq. apply Hafter, Hg.
Qed.

(** ** Counts *)

Lemma occurrences_NoDup k l :
  List.NoDup l -> occurrences k l = if existsb (String.eqb k) l then 1%nat else 0%nat.
Proof.
  unfold occurrences. induction l as [|x l IH]; intros HN; [reflexivity|].
  inversion HN as [|? ? Hnot HN']; subst. simpl.
  destruct (String.eqb_spec k x).
  - subst. simpl. rewrite IH by assumption.
    destruct (existsb (String.eqb x) l) eqn:E; [|reflexivity].
    apply existsb_exists in E. destruct E as (y & Hy & Heq).
    apply String.eqb_eq in Heq. subst. contradiction.
  - simpl. apply IH, HN'.
Qed.

Lemma occurrences_profilesWith k genomes :
  Forall (fun g => List.NoDup (strengthNames g)) genomes ->
  occurrences k (observedNames genomes) = profilesWith k genomes
  /\ (profilesWith k genomes <= length genomes)%nat.
Proof.
  unfold observedNames, profilesWith.
  induction genomes as [|g gs IH]; intros HF; [split; reflexivity|].
  inversion HF as [|? ? Hg HF']; subst.
  destruct (IH HF') as [IH1 IH2].
  cbn [flat_map List.filter]. rewrite occurrences_app, IH1, occurrences_NoDup by assumption.
  destruct (existsb (String.eqb k) (strengthNames g)); simpl; lia.
Qed.


(** ** The range of a percentage *)



(** ** The tallies, observation by observation *)

Lemma tallyStrengths_tallyAll m g : tallyStrengths m g = tallyAll m (strengthObservations g).
Proof.
  unfold tallyStrengths, strengthObservations, tallyAll.
  destruct (GenomeResponse.strengths g) as [l|]; [|reflexivity].
  revert m. induction l as [|s l IH]; intros m; simpl; [reflexivity | apply IH].
Qed.

Lemma tallyLanguages_tallyAll m g : tallyLanguages m g = tallyAll m (languageObservations g).
Proof.
  unfold tallyLanguages, languageObservations, tallyAll.
  destruct (GenomeResponse.languages g) as [l|]; [|reflexivity].
  revert m. induction l as [|s l IH]; intros m; simpl; [reflexivity | apply IH].
Qed.

Lemma tallyAll_app m o1 o2 : tallyAll m (o1 ++ o2) = tallyAll (tallyAll m o1) o2.
Proof. unfold tallyAll. apply fold_left_app. Qed.

Lemma fold_tallyStrengths gs m :
  fold_left tallyStrengths gs m = tallyAll m (flat_map strengthObservations gs).
Proof.
  revert m. induction gs as [|g gs IH]; intros m; simpl; [reflexivity|].
  rewrite IH, tallyAll_app, tallyStrengths_tallyAll. reflexivity.
Qed.

Lemma fold_tallyLanguages gs m :
  fold_left tallyLanguages gs m = tallyAll m (flat_map languageObservations gs).
Proof.
  revert m. induction gs as [|g gs IH]; intros m; simpl; [reflexivity|].
  rewrite IH, tallyAll_app, tallyLanguages_tallyAll. reflexivity.
Qed.

Lemma tallyGenome_snd gs a b :
  snd (fold_left tallyGenome gs (a, b)) = fold_left tallyLanguages gs b.
Proof.
  revert a b. induction gs as [|g gs IH]; intros a b; simpl; [reflexivity|].
  unfold tallyGenome at 2. simpl. apply IH.
Qed.

Lemma tallyAll_keys obs m :
  JSMap.keys (tallyAll m obs) = fold_left addKey (List.map fst obs) (JSMap.keys m).
Proof.
  revert m. induction obs as [|[k l] obs IH]; intros m; simpl; [reflexivity|].
  unfold tallyAll in *. simpl. rewrite IH, tally_keys. reflexivity.
Qed.

Lemma tallyAll_countOf obs m k :
  countOf k (tallyAll m obs) = (countOf k m + occurrences k (List.map fst obs))%nat.
Proof.
  revert m. induction obs as [|[k' l] obs IH]; intros m; simpl.
  - unfold occurrences. simpl. lia.
  - unfold tallyAll in *. simpl. rewrite IH, tally_countOf, occurrences_cons. lia.
Qed.

Lemma tally_levelCount k l m k' l' :
  levelCount k' l' (tally k l m)
  = (levelCount k' l' m + if (String.eqb k' k && String.eqb l' l)%bool then 1 else 0)%nat.
Proof.
  unfold tally, levelCount.
  destruct (JSMap.has k m) eqn:Hh.
  - destruct (has_get _ _ Hh) as [d Hd]. rewrite Hd.
    destruct (String.eqb_spec k' k) as [->|Hk].
    + rewrite get_set_eq, Hd. cbn [Tally.levels andb].
      destruct (String.eqb_spec l' l) as [->|Hl].
      * rewrite get_set_eq. reflexivity.
      * rewrite get_set_ne by congruence. lia.
    + rewrite get_set_ne by congruence. cbn [andb]. lia.
  - rewrite get_set_eq. apply has_get_false in Hh.
    destruct (String.eqb_spec k' k) as [->|Hk].
    + rewrite get_set_eq, Hh. cbn [Tally.levels andb].
      destruct (String.eqb_spec l' l) as [->|Hl].
      * rewrite get_set_eq. reflexivity.
      * rewrite get_set_ne by congruence. reflexivity.
    + rewrite !get_set_ne by congruence. cbn [andb]. lia.
Qed.

Lemma tallyAll_levelCount obs m k l :
  levelCount k l (tallyAll m obs) = (levelCount k l m + occurrencesAt k l obs)%nat.
Proof.
  revert m. induction obs as [|[k' l'] obs IH]; intros m.
  - unfold occurrencesAt. simpl. lia.
  - unfold tallyAll in *. cbn [fold_left fst snd]. rewrite IH, tally_levelCount.
    unfold occurrencesAt. cbn [List.filter fst snd].
    destruct (String.eqb k k' && String.eqb l l')%bool; cbn [length]; lia.
Qed.

Lemma sumValues_set k v (m : list (string * nat)) :
  (sumValues (JSMap.set k v m) + default 0 (JSMap.get k m) = sumValues m + v)%nat.
Proof.
  induction m as [|[k' v'] r IH]; simpl; [lia|].
  destruct (String.eqb k k'); simpl; lia.
Qed.

Lemma keys_set_NoDup {V} k (v : V) m :
  List.NoDup (JSMap.keys m) -> List.NoDup (JSMap.keys (JSMap.set k v m)).
Proof.
  intros H. rewrite keys_set. destruct (JSMap.has k m) eqn:E; [exact H|].
  apply (Permutation_NoDup (Permutation_cons_append _ k)).
  constructor; [|exact H]. rewrite <- has_In_keys. congruence.
Qed.

Lemma Forall_set {V} (P : string * V -> Prop) k v m :
  Forall P m -> (forall k', P (k', v)) -> Forall P (JSMap.set k v m).
Proof.
  intros H Hv. induction H as [|[k' v'] r Hx Hr IH]; simpl.
  - constructor; [apply Hv | constructor].
  - destruct (String.eqb k k'); constructor; auto.
Qed.

Lemma Forall_get {V} (P : string * V -> Prop) k v m :
  Forall P m -> JSMap.get k m = Some v -> exists k', P (k', v).
Proof.
  intros H Hg. apply In_get in Hg. rewrite List.Forall_forall in H. eauto.
Qed.

Lemma tally_balanced k l m : balanced m -> balanced (tally k l m).
Proof.
  intros H. unfold tally.
  assert (balanced (if JSMap.has k m then m else JSMap.set k (Tally.mk 0 []) m)) as H1.
  { destruct (JSMap.has k m); [exact H|].
    apply Forall_set; [exact H|]. intros k'. simpl.
    split; [constructor | split; [reflexivity | constructor]]. }
  set (m1 := if JSMap.has k m then m else JSMap.set k (Tally.mk 0 []) m) in *.
  destruct (JSMap.get k m1) as [d|] eqn:Hd; [|exact H1].
  apply Forall_set; [exact H1|]. intros k'. cbn [snd Tally.levels Tally.count].
  destruct (Forall_get _ _ _ _ H1 Hd) as (k0 & Hn & Hc & Hp). cbn [snd] in Hn, Hc, Hp.
  split; [apply keys_set_NoDup, Hn|]. split.
  - pose proof (sumValues_set l (default 0%nat (JSMap.get l (Tally.levels d)) + 1)%nat
                  (Tally.levels d)). lia.
  - apply Forall_set; [exact Hp|]. intros. cbn [snd]. lia.
Qed.

Lemma tallyAll_balanced obs m : balanced m -> balanced (tallyAll m obs).
Proof.
  revert m. induction obs as [|[k l] obs IH]; intros m H; [exact H|].
  unfold tallyAll in *. simpl. apply IH, tally_balanced, H.
Qed.

(** ** Objects copied from maps *)

Lemma get_None_keys {V} k (m : list (string * V)) :
  ~ In k (JSMap.keys m) -> JSMap.get k m = None.
Proof.
  intros H. apply has_get_false. destruct (JSMap.has k m) eqn:E; [|reflexivity].
  apply has_In_keys in E. contradiction.
Qed.

Lemma fold_insert_lookup {V W} (F : V -> W) (l : list (string * V)) (o : gmap string W) k :
  List.NoDup (JSMap.keys l) ->
  fold_left (fun o kv => <[fst kv := F (snd kv)]> o) l o !! k
  = match JSMap.get k l with Some v => Some (F v) | None => o !! k end.
Proof.
  revert o. induction l as [|[k' v'] r IH]; intros o Hn; [reflexivity|].
  inversion Hn as [|? ? Hk' Hr]; subst. cbn [fold_left fst snd JSMap.get].
  rewrite (IH _ Hr). destruct (String.eqb_spec k k') as [->|Hne].
  - rewrite (get_None_keys _ _ Hk'). apply lookup_insert_eq.
  - destruct (JSMap.get k r); [reflexivity|]. apply lookup_insert_ne. congruence.
Qed.

Lemma setPrimitive_ordinary {V} k (v : V) (o : gmap string V) :
  k <> "__proto__" -> setPrimitive k v o = <[k := v]> o.
Proof.
  intros Hk. unfold setPrimitive. destruct (o !! k); [reflexivity|].
  destruct (String.eqb_spec k "__proto__"); [contradiction | reflexivity].
Qed.

Lemma toObject_insert {V} (m : list (string * V)) :
  ~ In "__proto__" (JSMap.keys m) ->
  toObject m = fold_left (fun o kv => <[fst kv := snd kv]> o) m ∅.
Proof.
  unfold toObject. generalize (∅ : gmap string V).
  induction m as [|[k v] r IH]; intros o Hn; [reflexivity|].
  cbn [fold_left fst snd]. rewrite setPrimitive_ordinary.
  - apply IH. intros H. apply Hn. right. exact H.
  - intros ->. apply Hn. left. reflexivity.
Qed.

Lemma toObject_lookup {V} (m : list (string * V)) k :
  List.NoDup (JSMap.keys m) -> ~ In "__proto__" (JSMap.keys m) ->
  toObject m !! k = JSMap.get k m.
Proof.
  intros H Hp. rewrite (toObject_insert m Hp).
  rewrite (fold_insert_lookup (fun v => v) m ∅ k H).
  destruct (JSMap.get k m); [reflexivity | apply lookup_empty].
Qed.

Lemma sumLevels_insert (o : gmap string nat) k v :
  o !! k = None -> sumLevels (<[k := v]> o) = (v + sumLevels o)%nat.
Proof.
  intros H. unfold sumLevels. apply map_fold_insert_L; [|exact H].
  intros. lia.
Qed.

Lemma sumLevels_fold (l : list (string * nat)) (o : gmap string nat) :
  List.NoDup (JSMap.keys l) ->
  (forall k, In k (JSMap.keys l) -> o !! k = None) ->
  sumLevels (fold_left (fun o kv => <[fst kv := snd kv]> o) l o) = (sumValues l + sumLevels o)%nat.
Proof.
  revert o. induction l as [|[k v] r IH]; intros o Hn Ho; [reflexivity|].
  inversion Hn as [|? ? Hk Hr]; subst. cbn [fold_left fst snd].
  change (sumValues ((k, v) :: r)) with (v + sumValues r)%nat.
  rewrite IH; [|exact Hr|].
  - rewrite sumLevels_insert by (apply Ho; left; reflexivity). lia.
  - intros k' Hk'. rewrite lookup_insert_ne.
    + apply Ho. right. exact Hk'.
    + intros ->. contradiction.
Qed.

Lemma sumLevels_toObject (m : list (string * nat)) :
  List.NoDup (JSMap.keys m) -> ~ In "__proto__" (JSMap.keys m) ->
  sumLevels (toObject m) = sumValues m.
Proof.
  intros H Hp. rewrite (toObject_insert m Hp). rewrite sumLevels_fold; [|exact H|].
  - unfold sumLevels. rewrite map_fold_empty. lia.
  - intros. apply lookup_empty.
Qed.

(** What the maps of tallies hold once every observation is counted. *)
Lemma tallyAll_spec obs k :
  let m := tallyAll [] obs in
  List.NoDup (JSMap.keys m)
  /\ match JSMap.get k m with
     | Some d =>
         In k (List.map fst obs)
         /\ Tally.count d = occurrences k (List.map fst obs)
         /\ List.NoDup (JSMap.keys (Tally.levels d))
         /\ Tally.count d = sumValues (Tally.levels d)
         /\ (forall l, default 0%nat (JSMap.get l (Tally.levels d)) = occurrencesAt k l obs)
         /\ (forall l c, JSMap.get l (Tally.levels d) = Some c -> (1 <= c)%nat)
     | None => ~ In k (List.map fst obs)
     end.
Proof.
  clear inheritedText toLowerCase.
  cbv zeta.
  assert (List.NoDup (JSMap.keys (tallyAll [] obs))) as Hn.
  { rewrite tallyAll_keys. apply fold_addKey_NoDup. constructor. }
  split; [exact Hn|].
  assert (In k (JSMap.keys (tallyAll [] obs)) <-> In k (List.map fst obs)) as Hk.
  { rewrite tallyAll_keys, fold_addKey_In. simpl. tauto. }
  pose proof (tallyAll_countOf obs [] k) as Hc.
  pose proof (fun l => tallyAll_levelCount obs [] k l) as Hl.
  pose proof (tallyAll_balanced obs [] (List.Forall_nil _)) as Hb.
  unfold countOf, levelCount in Hc, Hl. cbn [JSMap.get] in Hc, Hl.
  destruct (JSMap.get k (tallyAll [] obs)) as [d|] eqn:Hd.
  - destruct (Forall_get _ _ _ _ Hb Hd) as (k0 & H1 & H2 & H3). cbn [snd] in H1, H2, H3.
    split. { apply Hk, has_In_keys. unfold JSMap.has. rewrite Hd. reflexivity. }
    split; [exact Hc|]. split; [exact H1|]. split; [exact H2|]. split; [exact Hl|].
    intros l c Hg. apply In_get in Hg. rewrite List.Forall_forall in H3.
    exact (H3 _ Hg).
  - intros HI. apply Hk, has_In_keys in HI. unfold JSMap.has in HI. rewrite Hd in HI.
    discriminate.
Qed.

(** The levels that are tallied are those of the two union types, or
    "unknown". *)
Lemma orUnknown_proficiency s :
  In (orUnknown (proficiencyOf s))
     ["no-experience-interested"; "novice"; "proficient"; "expert"; "master"; "unknown"].
Proof.
  unfold proficiencyOf. destruct (GenomeStrength.proficiency s) as [[]|]; simpl; auto 10.
Qed.


Lemma proficiency_ordinary s : ordinaryLevel (orUnknown (proficiencyOf s)).
Proof.
  pose proof (orUnknown_proficiency s) as H. cbn [In] in H.
  destruct H as [<-|[<-|[<-|[<-|[<-|[<-|[]]]]]]]; split; (discriminate || reflexivity).
Qed.


Lemma strengthObservations_ordinary genomes kl :
  In kl (flat_map strengthObservations genomes) -> ordinaryLevel (snd kl).
Proof.
  intros H. apply in_flat_map in H. destruct H as (g & _ & H).
  unfold strengthObservations in H. destruct (GenomeResponse.strengths g); [|destruct H].
  apply in_map_iff in H. destruct H as (s & <- & _). apply proficiency_ordinary.
Qed.


Lemma occurrencesAt_none k l obs :
  (forall kl, In kl obs -> snd kl <> l) -> occurrencesAt k l obs = 0%nat.
Proof.
  intros H. unfold occurrencesAt. rewrite filter_none; [reflexivity|].
  intros kl Hin. destruct (String.eqb_spec l (snd kl)) as [E|_];
    [|apply andb_false_r].
  exfalso. apply (H kl Hin). symmetry. exact E.
Qed.

(** No level of a tally is [__proto__]. *)
Lemma levels_ordinary obs k d :
  (forall kl, In kl obs -> ordinaryLevel (snd kl)) ->
  JSMap.get k (tallyAll [] obs) = Some d ->
  ~ In "__proto__" (JSMap.keys (Tally.levels d)).
Proof.
  intros Hobs Hd Hin. destruct (tallyAll_spec obs k) as [_ Hs]. rewrite Hd in Hs.
  destruct Hs as (_ & _ & _ & _ & Hl & Hpos).
  apply has_In_keys in Hin. unfold JSMap.has in Hin.
  destruct (JSMap.get "__proto__" (Tally.levels d)) as [c|] eqn:E; [|discriminate].
  specialize (Hl "__proto__"). rewrite E in Hl. cbn in Hl.
  rewrite occurrencesAt_none in Hl by (intros kl Hkl; apply (Hobs kl Hkl)).
  specialize (Hpos _ _ E). lia.
Qed.

Lemma observedNames_observations genomes :
  observedNames genomes = List.map fst (flat_map strengthObservations genomes).
Proof.
  unfold observedNames. induction genomes as [|g gs IH]; simpl; [reflexivity|].
  rewrite List.map_app, <- IH. f_equal.
  unfold strengthNames, strengthObservations.
  destruct (GenomeResponse.strengths g); [|reflexivity].
  rewrite List.map_map. reflexivity.
Qed.

Lemma aggregate_skill_tally genomes f :
  In f (TeamAggregate.skills (buildTeamAggregate (Some genomes))) ->
  exists d,
    JSMap.get (SkillFrequency.skillName f) (tallyAll [] (flat_map strengthObservations genomes))
    = Some d
    /\ f = toSkillFrequency (length genomes) (SkillFrequency.skillName f, d).
Proof.
  intros H. destruct genomes as [|g gs]; [destruct H|].
  rewrite aggregate_skills in H. apply (proj1 (sortBy_In _ _ _)) in H.
  unfold talliedSkills in H. rewrite fold_tallyStrengths in H.
  apply in_map_iff in H. destruct H as ([k d] & <- & Hin).
  exists d. split; [|reflexivity]. cbn [toSkillFrequency SkillFrequency.skillName].
  apply get_In; [|exact Hin]. apply (tallyAll_spec _ k).
Qed.

Lemma fold_setLanguage (F : Tally.t -> LanguageFrequency.t) (l : list (string * Tally.t))
    (o : Languages.t) :
  List.NoDup (JSMap.keys l) ->
  Languages.own o !! "__proto__" = None ->
  (forall k,
     Languages.own (fold_left (fun o kv => setLanguage (fst kv) (F (snd kv)) o) l o) !! k
     = if String.eqb k "__proto__" then None
       else match JSMap.get k l with
            | Some v => Some (F v)
            | None => Languages.own o !! k
            end)
  /\ Languages.prototype (fold_left (fun o kv => setLanguage (fst kv) (F (snd kv)) o) l o)
     = match JSMap.get "__proto__" l with
       | Some v => Some (F v)
       | None => Languages.prototype o
       end.
Proof.
  revert o. induction l as [|[k' v'] r IH]; intros o Hn Ho.
  { cbn [fold_left JSMap.get]. split; [|reflexivity].
    intros k. destruct (String.eqb_spec k "__proto__") as [->|_]; [exact Ho | reflexivity]. }
  inversion Hn as [|? ? Hk' Hr]; subst. cbn [fold_left fst snd].
  destruct (String.eqb_spec k' "__proto__") as [->|Hne].
  - assert (setLanguage "__proto__" (F v') o = Languages.mk (Languages.own o) (Some (F v')))
      as -> by (unfold setLanguage; rewrite Ho; reflexivity).
    destruct (IH (Languages.mk (Languages.own o) (Some (F v'))) Hr Ho) as [IH1 IH2].
    split.
    + intros k. rewrite IH1. cbn [JSMap.get Languages.own].
      destruct (String.eqb_spec k "__proto__") as [->|Hk]; reflexivity.
    + rewrite IH2. cbn [JSMap.get Languages.prototype].
      rewrite String.eqb_refl, (get_None_keys _ _ Hk'). reflexivity.
  - assert (setLanguage k' (F v') o
            = Languages.mk (<[k' := F v']> (Languages.own o)) (Languages.prototype o)) as ->.
    { unfold setLanguage. destruct (Languages.own o !! k'); [reflexivity|].
      destruct (String.eqb_spec k' "__proto__"); [contradiction | reflexivity]. }
    destruct (IH (Languages.mk (<[k' := F v']> (Languages.own o)) (Languages.prototype o)) Hr)
      as [IH1 IH2].
    { cbn [Languages.own]. rewrite lookup_insert_ne by exact Hne. exact Ho. }
    split.
    + intros k. rewrite IH1. cbn [JSMap.get Languages.own].
      destruct (String.eqb_spec k "__proto__") as [->|Hk]; [reflexivity|].
      destruct (String.eqb_spec k k') as [->|Hkk].
      * rewrite (get_None_keys _ _ Hk'). apply lookup_insert_eq.
      * destruct (JSMap.get k r); [reflexivity|]. apply lookup_insert_ne. congruence.
    + rewrite IH2. cbn [JSMap.get Languages.prototype].
      destruct (String.eqb_spec "__proto__" k') as [E|_]; [congruence | reflexivity].
Qed.

Lemma aggregate_languages_own genomes :
  Languages.own (TeamAggregate.languages (buildTeamAggregate (Some genomes))) !! "__proto__"
  = None.
Proof.
  destruct genomes as [|g gs]; [reflexivity|].
  unfold buildTeamAggregate.
  pose proof (tallyGenome_snd (g :: gs) [] []) as Hs.
  destruct (fold_left tallyGenome (g :: gs) ([], [])) as [sm lm].
  cbn [snd] in Hs. cbn [TeamAggregate.languages].
  destruct (fold_setLanguage (toLanguageFrequency (length (g :: gs))) lm noLanguages) as [H _].
  - rewrite Hs, fold_tallyLanguages. apply (tallyAll_spec _ "").
  - reflexivity.
  - rewrite H. reflexivity.
Qed.

Lemma aggregate_languages_lookup g gs code :
  storedLanguage (TeamAggregate.languages (buildTeamAggregate (Some (g :: gs)))) code
  = toLanguageFrequency (length (g :: gs))
      <$> JSMap.get code (tallyAll [] (flat_map languageObservations (g :: gs))).
Proof.
  unfold buildTeamAggregate.
  pose proof (tallyGenome_snd (g :: gs) [] []) as Hs.
  destruct (fold_left tallyGenome (g :: gs) ([], [])) as [sm lm].
  cbn [snd] in Hs. cbn [TeamAggregate.languages].
  destruct (fold_setLanguage (toLanguageFrequency (length (g :: gs))) lm noLanguages) as [H1 H2].
  - rewrite Hs, fold_tallyLanguages. apply (tallyAll_spec _ code).
  - reflexivity.
  - unfold storedLanguage. subst lm. rewrite fold_tallyLanguages in *.
    destruct (String.eqb_spec code "__proto__") as [->|Hne].
    + rewrite H2. destruct (JSMap.get "__proto__" _); reflexivity.
    + rewrite H1. destruct (String.eqb_spec code "__proto__"); [contradiction|].
      destruct (JSMap.get code _); reflexivity.
Qed.

Lemma list_sum_cons a l : list_sum (a :: l) = (a + list_sum l)%nat.
Proof. reflexivity. Qed.

Lemma list_sum_perm l l' : Permutation l l' -> list_sum l = list_sum l'.
Proof.
  induction 1 as [|x l l' _ IH|x y l|l l' l'' _ IH1 _ IH2];
    rewrite ?list_sum_cons; [reflexivity | lia | lia | congruence].
Qed.

Lemma sum_occurrences (ks l : list string) :
  List.NoDup ks -> (forall x, In x l -> In x ks) ->
  list_sum (List.map (fun k => occurrences k l) ks) = length l.
Proof.
  intros Hn. induction l as [|x l IH]; intros Hin.
  - clear Hn Hin. induction ks as [|k ks IH]; [reflexivity | exact IH].
  - assert (forall ks, List.NoDup ks ->
              list_sum (List.map (fun k => occurrences k (x :: l)) ks)
              = ((if existsb (String.eqb x) ks then 1 else 0)
                 + list_sum (List.map (fun k => occurrences k l) ks))%nat) as Hstep.
    { clear. intros ks Hn. induction Hn as [|k ks Hk Hn IH]; [reflexivity|].
      cbn [List.map existsb]. rewrite !list_sum_cons, IH, occurrences_cons.
      destruct (String.eqb_spec x k) as [->|Hne]; cbn [orb]; [|lia].
      assert (existsb (String.eqb k) ks = false) as ->; [|lia].
      destruct (existsb (String.eqb k) ks) eqn:E; [|reflexivity].
      apply existsb_exists in E. destruct E as (y & Hy & Heq).
      apply String.eqb_eq in Heq. subst y. contradiction. }
    rewrite (Hstep ks Hn), IH by (intros; apply Hin; right; assumption).
    assert (existsb (String.eqb x) ks = true) as ->; [|reflexivity].
    apply existsb_exists. exists x. split; [apply Hin; left; reflexivity | apply String.eqb_refl].
Qed.

Lemma aggregate_skill_names genomes :
  Permutation (List.map SkillFrequency.skillName
                 (TeamAggregate.skills (buildTeamAggregate (Some genomes))))
              (firstSeen (observedNames genomes)).
Proof.
  destruct genomes as [|g gs]; [reflexivity|].
  rewrite aggregate_skills, <- talliedSkills_names.
  apply Permutation_map, sortBy_perm.
Qed.

Lemma proficiency_levels_spec genomes f :
  In f (TeamAggregate.skills (buildTeamAggregate (Some genomes))) ->
  (forall p,
     default 0%nat (SkillFrequency.proficiencyLevels f !! p)
     = occurrencesAt (SkillFrequency.skillName f) p (flat_map strengthObservations genomes))
  /\ (forall p c, SkillFrequency.proficiencyLevels f !! p = Some c -> (1 <= c)%nat).
Proof.
  intros H. destruct (aggregate_skill_tally genomes f H) as (d & Hd & Hf).
  destruct (tallyAll_spec (flat_map strengthObservations genomes) (SkillFrequency.skillName f))
    as [_ Hs].
  rewrite Hd in Hs. destruct Hs as (_ & _ & Hn & _ & Hl & Hpos).
  pose proof (levels_ordinary _ _ _ (strengthObservations_ordinary genomes) Hd) as Hp.
  rewrite Hf. cbn [toSkillFrequency SkillFrequency.proficiencyLevels SkillFrequency.skillName].
  split; intros p; rewrite toObject_lookup by assumption; [apply Hl | apply Hpos].
Qed.

Lemma languages_spec genomes code :
  match storedLanguage (TeamAggregate.languages (buildTeamAggregate (Some genomes))) code with
  | Some entry =>
      In code (List.map fst (flat_map languageObservations genomes))
      /\ LanguageFrequency.count entry
         = occurrences code (List.map fst (flat_map languageObservations genomes))
      /\ LanguageFrequency.percentage entry
         = percentageOf (LanguageFrequency.count entry) (length genomes)
  | None => ~ In code (List.map fst (flat_map languageObservations genomes))
  end.
Proof.
  destruct genomes as [|g gs].
  { unfold storedLanguage. cbn [buildTeamAggregate emptyAggregate TeamAggregate.languages].
    destruct (String.eqb code "__proto__"); [intros [] |].
    cbn [noLanguages Languages.own]. rewrite lookup_empty. intros []. }
  rewrite aggregate_languages_lookup.
  destruct (tallyAll_spec (flat_map languageObservations (g :: gs)) code) as [_ Hs].
  destruct (JSMap.get code _) as [d|]; cbn [fmap option_fmap option_map]; [|exact Hs].
  destruct Hs as (Hin & Hc & _). split; [exact Hin|]. split; [exact Hc | reflexivity].
Qed.

(** ** The classification of the candidate's skills *)

Lemma filter_three {A} (p q r : A -> bool) l :
  (forall x, In x l ->
     (p x = true /\ q x = false /\ r x = false)
     \/ (p x = false /\ q x = true /\ r x = false)
     \/ (p x = false /\ q x = false /\ r x = true)) ->
  Permutation (List.filter p l ++ List.filter q l ++ List.filter r l) l.
Proof.
  induction l as [|x l IH]; intros H; [constructor|].
  assert (Permutation (List.filter p l ++ List.filter q l ++ List.filter r l) l) as IH'
    by (apply IH; intros; apply H; right; assumption).
  cbn [List.filter].
  destruct (H x (or_introl eq_refl)) as [(-> & -> & ->)|[(-> & -> & ->)|(-> & -> & ->)]].
  - simpl. constructor. exact IH'.
  - etransitivity; [|apply Permutation_cons; [reflexivity | exact IH']].
    symmetry. apply Permutation_middle.
  - etransitivity; [|apply Permutation_cons; [reflexivity | exact IH']].
    symmetry. rewrite List.app_assoc.
    etransitivity; [apply Permutation_middle|]. rewrite <- List.app_assoc. reflexivity.
Qed.

Lemma skillDelta_flags team s :
  SkillDelta.isRedundant (skillDelta team s) = true ->
  SkillDelta.isValueAdd (skillDelta team s) = false.
Proof.
  unfold skillDelta. cbn [SkillDelta.isRedundant SkillDelta.isValueAdd]. intros H.
  destruct (lt _ VALUE_ADD_THRESHOLD) eqn:E; [|reflexivity].
  exfalso. exact (lt_thresholds_exclusive _ H E).
Qed.

(** ** The groups as a partition *)

Lemma filter_split {A} (p : A -> bool) l :
  Permutation (List.filter p l ++ List.filter (fun x => negb (p x)) l) l.
Proof.
  induction l as [|x l IH]; [constructor|]. cbn [List.filter].
  destruct (p x); cbn [negb].
  - simpl. constructor. exact IH.
  - etransitivity; [symmetry; apply Permutation_middle|]. constructor. exact IH.
Qed.

Lemma filter_sameKey_other k k' l :
  k' <> k ->
  List.filter (sameKey k') (List.filter (fun x => negb (sameKey k x)) l)
  = List.filter (sameKey k') l.
Proof.
  intros Hne. induction l as [|x l IH]; [reflexivity|]. cbn [List.filter].
  destruct (sameKey k x) eqn:E; cbn [negb List.filter].
  - rewrite IH. unfold sameKey in *. apply String.eqb_eq in E.
    destruct (String.eqb_spec (groupKey x) k'); [congruence | reflexivity].
  - rewrite IH. reflexivity.
Qed.

Lemma groups_partition ks :
  List.NoDup ks -> forall l,
  (forall x, In x l -> In (groupKey x) ks) ->
  Permutation (List.concat (List.map (fun k => List.filter (sameKey k) l) ks)) l.
Proof.
  induction 1 as [|k ks Hk Hn IH]; intros l Hl.
  - destruct l as [|x l]; [constructor|]. destruct (Hl x (or_introl eq_refl)).
  - cbn [List.map List.concat].
    etransitivity; [|apply (filter_split (sameKey k))].
    apply Permutation_app; [reflexivity|].
    rewrite (List.map_ext_in _ (fun k' => List.filter (sameKey k')
                                   (List.filter (fun x => negb (sameKey k x)) l))).
    + apply IH. intros x Hx. apply List.filter_In in Hx. destruct Hx as [Hx Hs].
      destruct (Hl x Hx) as [E|Hin]; [|exact Hin].
      unfold sameKey in Hs. rewrite <- E, String.eqb_refl in Hs. discriminate.
    + intros k' Hk'. symmetry. apply filter_sameKey_other. intros ->. contradiction.
Qed.

Lemma groupsOf_partition l : Permutation (List.concat (groupsOf l)) l.
Proof.
  unfold groupsOf. apply groups_partition; [apply firstSeen_NoDup|].
  intros x Hx. apply firstSeen_In, in_map, Hx.
Qed.

Lemma concat_length_nonempty {A} (gs : list (list A)) :
  (forall g, In g gs -> g <> []) -> (length gs <= length (List.concat gs))%nat.
Proof.
  induction gs as [|g gs IH]; intros H; [reflexivity|].
  cbn [List.concat length]. rewrite List.length_app.
  assert (g <> []) as Hg by (apply H; left; reflexivity).
  assert (length gs <= length (List.concat gs))%nat
    by (apply IH; intros; apply H; right; assumption).
  destruct g; [contradiction | simpl; lia].
Qed.

Lemma alerts_skills delta :
  List.map RedundancyAlert.skills (Alerts.redundancyAlerts (generateAlerts delta))
  = groupsOf (DeltaAnalysis.redundantSkills delta).
Proof. rewrite redundancyAlerts_spec, List.map_map. apply List.map_id. Qed.

Lemma prefix_append (p s : string) : String.prefix p (p +:+ s) = true.
Proof.
  induction p as [|c p IH]; [destruct s; reflexivity|].
  change (String c p +:+ s) with (String c (p +:+ s)). cbn [String.prefix].
  destruct (ascii_dec c c); [exact IH | contradiction].
Qed.

(** ** The heads of the groups *)

Lemma firstSeen_snoc l k : firstSeen (l ++ [k]) = addKey (firstSeen l) k.
Proof. unfold firstSeen. rewrite fold_left_app. reflexivity. Qed.

Lemma leader_app g h : g <> [] -> leader (g ++ h) = leader g.
Proof. destruct g; [contradiction | reflexivity]. Qed.

Lemma filter_sameKey_none k l :
  ~ In k (List.map groupKey l) -> List.filter (sameKey k) l = [].
Proof.
  intros H. apply filter_none. intros x Hx. unfold sameKey.
  destruct (String.eqb_spec (groupKey x) k) as [E|]; [|reflexivity].
  exfalso. apply H. rewrite <- E. apply in_map, Hx.
Qed.

Lemma filter_sameKey_some k l :
  In k (List.map groupKey l) -> List.filter (sameKey k) l <> [].
Proof.
  intros H E. apply in_map_iff in H. destruct H as (x & Hk & Hx).
  assert (In x (List.filter (sameKey k) l)) as Hin.
  { apply List.filter_In. split; [exact Hx|]. unfold sameKey. rewrite Hk. apply String.eqb_refl. }
  rewrite E in Hin. destruct Hin.
Qed.

(** Appending a skill either starts a new group, which it heads, or joins
    an existing group without changing any head. *)
Lemma leaders_snoc l x :
  List.map leader (groupsOf (l ++ [x]))
  = if existsb (String.eqb (groupKey x)) (firstSeen (List.map groupKey l))
    then List.map leader (groupsOf l)
    else (List.map leader (groupsOf l) ++ [x])%list.
Proof.
  unfold groupsOf. rewrite List.map_app. cbn [List.map]. rewrite firstSeen_snoc.
  unfold addKey.
  assert (forall ks, (forall k, In k ks -> In k (List.map groupKey l)) ->
            List.map leader (List.map (fun k => List.filter (sameKey k) (l ++ [x])) ks)
            = List.map leader (List.map (fun k => List.filter (sameKey k) l) ks)) as Hsame.
  { intros ks Hks. rewrite !List.map_map. apply List.map_ext_in. intros k Hk.
    rewrite List.filter_app. apply leader_app, filter_sameKey_some, Hks, Hk. }
  destruct (existsb (String.eqb (groupKey x)) (firstSeen (List.map groupKey l))) eqn:E.
  - apply Hsame. intros k. apply firstSeen_In.
  - rewrite !List.map_app. f_equal; [apply Hsame; intros k; apply firstSeen_In|].
    cbn [List.map]. rewrite List.filter_app, filter_sameKey_none.
    + cbn [List.filter]. unfold sameKey. rewrite String.eqb_refl. reflexivity.
    + intros HI. apply firstSeen_In in HI.
      assert (existsb (String.eqb (groupKey x)) (firstSeen (List.map groupKey l)) = true) as E'.
      { apply existsb_exists. exists (groupKey x). split; [exact HI | apply String.eqb_refl]. }
      congruence.
Qed.

Lemma leaders_In l y : In y (List.map leader (groupsOf l)) -> In y l.
Proof.
  intros H. apply in_map_iff in H. destruct H as (g & <- & Hg).
  pose proof (groupsOf_nonempty _ _ Hg) as Hne.
  unfold groupsOf in Hg. apply in_map_iff in Hg. destruct Hg as (k & <- & _).
  destruct (List.filter (sameKey k) l) as [|z r] eqn:E; [contradiction|].
  assert (In z (List.filter (sameKey k) l)) as Hz by (rewrite E; left; reflexivity).
  apply List.filter_In in Hz. exact (proj1 Hz).
Qed.

Lemma StronglySorted_snoc {A} (R : A -> A -> Prop) l x :
  StronglySorted R l -> Forall (fun y => R y x) l -> StronglySorted R (l ++ [x]).
Proof.
  induction 1 as [|y l Hs IH Hy]; intros Hx; simpl.
  - constructor; constructor.
  - inversion Hx as [|? ? Hyx Hlx]; subst. constructor; [apply IH, Hlx|].
    apply List.Forall_app. split; [exact Hy | constructor; [exact Hyx | constructor]].
Qed.

Lemma StronglySorted_snoc_inv {A} (R : A -> A -> Prop) l x :
  StronglySorted R (l ++ [x]) -> StronglySorted R l /\ Forall (fun y => R y x) l.
Proof.
  induction l as [|y l IH]; simpl; intros H; [split; constructor|].
  inversion H as [|? ? Hs Hy]; subst. destruct (IH Hs) as [H1 H2].
  apply List.Forall_app in Hy. destruct Hy as [Hy Hyx].
  split; constructor; auto. inversion Hyx; assumption.
Qed.

Lemma leaders_sorted (R : SkillDelta.t -> SkillDelta.t -> Prop) l :
  StronglySorted R l -> StronglySorted R (List.map leader (groupsOf l)).
Proof.
  induction l as [|x l IH] using rev_ind; intros H; [constructor|].
  apply StronglySorted_snoc_inv in H. destruct H as [Hl Hx].
  rewrite leaders_snoc. destruct (existsb _ _); [apply IH, Hl|].
  apply StronglySorted_snoc; [apply IH, Hl|].
  apply List.Forall_forall. intros y Hy. rewrite List.Forall_forall in Hx.
  apply Hx, leaders_In, Hy.
Qed.

Lemma severityOf_monotone x y :
  le x y = true -> (severityLevel (severityOf x) <= severityLevel (severityOf y))%nat.
Proof.
  intros H. unfold severityOf, ge.
  destruct (SFleb HIGH_SEVERITY x) eqn:Hx.
  { change (le HIGH_SEVERITY x = true) in Hx. rewrite (le_trans _ _ _ Hx H : SFleb _ _ = true).
    reflexivity. }
  destruct (SFleb MEDIUM_SEVERITY x) eqn:Mx.
  { change (le MEDIUM_SEVERITY x = true) in Mx.
    rewrite (le_trans _ _ _ Mx H : SFleb _ _ = true).
    destruct (SFleb HIGH_SEVERITY y); simpl; lia. }
  simpl. lia.
Qed.

Lemma StronglySorted_map {A B} (R : A -> A -> Prop) (Q : B -> B -> Prop) (f : A -> B) l :
  (forall a b, R a b -> Q (f a) (f b)) -> StronglySorted R l -> StronglySorted Q (List.map f l).
Proof.
  intros HRQ. induction 1 as [|x l Hs IH Hx]; simpl; constructor; [exact IH|].
  apply List.Forall_map. eapply List.Forall_impl; [|exact Hx]. intros a. apply HRQ.
Qed.

(** ** From a count to a percentage and back *)

Lemma sameNumber_eq x y : sameNumber x y = true -> x = y.
Proof.
  destruct x as [s|s| |s m e], y as [s'|s'| |s' m' e']; simpl; try discriminate; intros H.
  - apply Bool.eqb_prop in H. congruence.
  - apply Bool.eqb_prop in H. congruence.
  - reflexivity.
  - apply andb_true_iff in H. destruct H as [H He]. apply andb_true_iff in H.
    destruct H as [Hs Hm]. apply Bool.eqb_prop in Hs. apply Pos.eqb_eq in Hm.
    apply Z.eqb_eq in He. congruence.
Qed.

Lemma forTeamsUpTo_spec (check : nat -> nat -> bool) n :
  forTeamsUpTo check n = true ->
  forall total c, (1 <= total <= n)%nat -> (c <= total)%nat -> check total c = true.
Proof.
  unfold forTeamsUpTo. intros H total c Ht Hc.
  rewrite forallb_forall in H.
  destruct total as [|t]; [lia|].
  specialize (H t). rewrite forallb_forall in H.
  apply H; apply in_seq; lia.
Qed.

Lemma recoversCount_checked : forTeamsUpTo recoversCount checkedTeamSize = true.
Proof. vm_cast_no_check (@eq_refl bool true). Qed.

Lemma count_round_trip total c :
  (1 <= total <= checkedTeamSize)%nat -> (c <= total)%nat ->
  countFromPercentage total c = ofNat c.
Proof.
  intros Ht Hc. apply sameNumber_eq.
  exact (forTeamsUpTo_spec recoversCount checkedTeamSize recoversCount_checked total c Ht Hc).
Qed.

Lemma ofNat_positive c :
  (1 <= c)%nat -> Z.of_nat c < 2 ^ 53 ->
  gt (ofNat c) zero = true /\ truthy (ofNat c) = true.
Proof.
  intros Hc Hlt. destruct (ofZ_exact (Z.of_nat c)) as (m & e & E & _); [lia|].
  unfold ofNat. rewrite E. split; reflexivity.
Qed.

Lemma occurrencesAt_le k l obs :
  (occurrencesAt k l obs <= occurrences k (List.map fst obs))%nat.
Proof.
  unfold occurrencesAt, occurrences. induction obs as [|[k' l'] obs IH]; [reflexivity|].
  cbn [List.map List.filter fst snd].
  destruct (String.eqb k k'); cbn [andb]; [|exact IH].
  destruct (String.eqb l l'); simpl; lia.
Qed.

Lemma skillDelta_matched team s :
  SkillDelta.isRedundant (skillDelta team s) = true ->
  exists f,
    lastMatch (toLowerCase (GenomeStrength.name s)) (TeamAggregate.skills team) = Some f
    /\ SkillDelta.teamCoverage (skillDelta team s) = div (SkillFrequency.percentage f) hundred
    /\ SkillDelta.teamProficiencyDistribution (skillDelta team s)
       = delete "__proto__"
           ((fun count => percentageOf count (TeamAggregate.totalMembers team))
              <$> SkillFrequency.proficiencyLevels f).
Proof.
  unfold skillDelta.
  cbn [SkillDelta.isRedundant SkillDelta.teamCoverage SkillDelta.teamProficiencyDistribution].
  rewrite teamSkillMap_lookup.
  destruct (lastMatch _ _) as [f|]; [intros _; exists f; auto|].
  intros H. vm_compute in H. discriminate H.
Qed.

(** ** The range of a coverage *)

Lemma percentageOf_boundedBy c t :
  (1 <= c <= t)%nat -> Z.of_nat t < 2 ^ 53 -> boundedBy 1246 100 (percentageOf c t).
Proof.
  intros Hct Ht.
  unfold percentageOf, ofNat.
  destruct (ofZ_exact (Z.of_nat c) ltac:(lia)) as (ma & ea & -> & Hea & Hma).
  destruct (ofZ_exact (Z.of_nat t) ltac:(lia)) as (mb & eb & -> & Heb & Hmb).
  assert (boundedBy 1200 1 (div (S754_finite false ma ea) (S754_finite false mb eb))) as Hx.
  { apply div_boundedBy; [split; reflexivity | lia | lia |].
    rewrite Hma, Hmb.
    assert (2 ^ (- ea) * 2 ^ (ea - eb + 1200) = 2 ^ (1200 - eb)) as H1.
    { rewrite <- pow2_split by lia. f_equal. lia. }
    assert (2 ^ (- eb) * 2 ^ 1200 = 2 ^ (1200 - eb)) as H2.
    { rewrite <- pow2_split by lia. f_equal. lia. }
    assert (0 <= 2 ^ (1200 - eb)) by (apply Z.pow_nonneg; lia).
    replace (Z.of_nat c * 2 ^ (- ea) * 2 ^ (ea - eb + 1200))
      with (Z.of_nat c * 2 ^ (1200 - eb)) by (rewrite <- H1; ring).
    replace (1 * (Z.of_nat t * 2 ^ (- eb)) * 2 ^ 1200)
      with (Z.of_nat t * 2 ^ (1200 - eb)) by (rewrite <- H2; ring).
    apply Z.mul_le_mono_nonneg_r; [assumption | lia]. }
  apply (mul_hundred_boundedBy 1200 1) in Hx; [|lia|reflexivity|lia].
  apply (mul_hundred_boundedBy (1200 + 46) (100 * 1)) in Hx; [|lia|reflexivity|lia].
  apply (mathRound_boundedBy (1200 + 46 + 46) (100 * (100 * 1))) in Hx;
    [|split; reflexivity|lia].
  destruct (mathRound _) as [s|s| |[] mr er]; try contradiction.
  - exact I.
  - destruct Hx as [Her Hle]. rewrite hundred_eq.
    apply div_boundedBy; [split; reflexivity | lia | lia |].
    change (Z.pos mantissa100) with (100 * 2 ^ 46).
    replace (er - -46 + 1246) with (er + (1200 + 46 + 46)) by lia.
    change (100 * (100 * 1)) with 10000 in Hle.
    replace (2 ^ (1200 + 46 + 46)) with (2 ^ 46 * 2 ^ 1246) in Hle
      by (rewrite <- pow2_split by lia; reflexivity).
    lia.
Qed.

Lemma percentageOf_zero t :
  (1 <= t)%nat -> Z.of_nat t < 2 ^ 53 -> percentageOf 0 t = zero.
Proof.
  intros H1 H2. unfold percentageOf, ofNat.
  destruct (ofZ_exact (Z.of_nat t) ltac:(lia)) as (m & e & -> & _). reflexivity.
Qed.

Lemma fraction_boundedBy p :
  boundedBy 1246 100 p -> boundedBy 1246 1 (div p hundred).
Proof.
  destruct p as [s|s| |[] m e]; cbn [boundedBy]; try tauto.
  intros [He Hle]. rewrite hundred_eq.
  apply div_boundedBy; [split; reflexivity | lia | lia |].
  change (Z.pos mantissa100) with (100 * 2 ^ 46).
  replace (e - -46 + 1246) with (46 + (e + 1246)) by lia.
  rewrite pow2_split by lia.
  assert (0 < 2 ^ 46) by reflexivity. nia.
Qed.

Lemma boundedBy_le_one S p :
  52 <= S -> valid_binary prec emax p = true -> boundedBy S 1 p ->
  le zero p = true /\ le p one = true.
Proof.
  intros HS Hv. destruct p as [s|s| |[] m e]; cbn [boundedBy]; try tauto.
  intros [He Hle]. split; [reflexivity|].
  destruct (le (S754_finite false m e) one) eqn:E; [reflexivity|].
  exfalso. apply le_total in E; try reflexivity.
  unfold lt, SFltb in E.
  change one with (S754_finite false 4503599627370496 (-52)) in E.
  destruct (SFcompare (S754_finite false 4503599627370496 (-52)) (S754_finite false m e))
    as [[]|] eqn:Hc; try discriminate.
  pose proof (aligned_lt _ _ _ _ _ _
                (eq_refl : bounded prec emax 4503599627370496 (-52) = true) Hv Hc) as Hlt.
  unfold aligned, cond_Zopp in Hlt.
  set (ez := Z.min (-52) e) in *.
  assert (0 < 2 ^ (ez + S)) as Hp by (apply Z.pow_pos_nonneg; lia).
  assert (2 ^ (e + S) = 2 ^ (e - ez) * 2 ^ (ez + S)) as H1.
  { rewrite <- pow2_split by lia. f_equal. lia. }
  assert (1 * 2 ^ S = Z.pos 4503599627370496 * 2 ^ (-52 - ez) * 2 ^ (ez + S)) as H2.
  { change (Z.pos 4503599627370496) with (2 ^ 52).
    rewrite <- !pow2_split by lia. rewrite Z.mul_1_l. f_equal. lia. }
  rewrite H1 in Hle. rewrite H2 in Hle. nia.
Qed.

Lemma fraction_of_percentage c t :
  (c <= t)%nat -> (1 <= t)%nat -> Z.of_nat t < 2 ^ 53 ->
  le zero (div (percentageOf c t) hundred) = true
  /\ le (div (percentageOf c t) hundred) one = true.
Proof.
  intros Hc Ht Hlt. destruct c as [|c].
  - rewrite percentageOf_zero by assumption. split; reflexivity.
  - apply (boundedBy_le_one 1246); [lia | apply div_valid |].
    apply fraction_boundedBy, percentageOf_boundedBy; [lia | assumption].
Qed.

Lemma occurrences_once_per_profile {G} (names : G -> list string) k (genomes : list G) :
  Forall (fun g => List.NoDup (names g)) genomes ->
  (occurrences k (flat_map names genomes) <= length genomes)%nat.
Proof.
  induction 1 as [|g gs Hg _ IH]; [reflexivity|].
  cbn [flat_map length]. rewrite occurrences_app, occurrences_NoDup by assumption.
  destruct (existsb (String.eqb k) (names g)); lia.
Qed.

Lemma flat_map_map {A B C} (f : A -> list B) (h : B -> C) (l : list A) :
  List.map h (flat_map f l) = flat_map (fun a => List.map h (f a)) l.
Proof.
  induction l as [|a l IH]; [reflexivity|]. cbn [flat_map].
  rewrite List.map_app, IH. reflexivity.
Qed.

Lemma languageCodes_observations genomes :
  flat_map languageCodes genomes = List.map fst (flat_map languageObservations genomes).
Proof. symmetry. apply flat_map_map. Qed.

Lemma fullShare_checked : forTeamsUpTo fullShare checkedTeamSize = true.
Proof. vm_cast_no_check (@eq_refl bool true). Qed.

Lemma percentageOf_all total :
  (1 <= total <= checkedTeamSize)%nat -> percentageOf total total = hundred.
Proof.
  intros Ht. apply sameNumber_eq.
  pose proof (forTeamsUpTo_spec fullShare checkedTeamSize fullShare_checked total total Ht
                (Nat.le_refl _)) as H.
  unfold fullShare in H. rewrite Nat.eqb_refl in H. exact H.
Qed.

Lemma occurrences_every_profile k genomes :
  Forall (fun g => occurrences k (strengthNames g) = 1%nat) genomes ->
  occurrences k (observedNames genomes) = length genomes.
Proof.
  unfold observedNames. induction 1 as [|g gs Hg _ IH]; [reflexivity|].
  cbn [flat_map length]. rewrite occurrences_app, Hg, IH. reflexivity.
Qed.

Lemma occurrences_positive_In k l : (1 <= occurrences k l)%nat -> In k l.
Proof.
  unfold occurrences. intros H.
  destruct (List.filter (String.eqb k) l) as [|x r] eqn:E; [simpl in H; lia|].
  assert (In x (List.filter (String.eqb k) l)) as Hx by (rewrite E; left; reflexivity).
  apply List.filter_In in Hx. destruct Hx as [Hx Heq]. apply String.eqb_eq in Heq.
  subst. exact Hx.
Qed.

Lemma skillDelta_same_key team s1 s2 :
  toLowerCase (GenomeStrength.name s1) = toLowerCase (GenomeStrength.name s2) ->
  SkillDelta.teamCoverage (skillDelta team s1) = SkillDelta.teamCoverage (skillDelta team s2).
Proof. unfold skillDelta. cbn [SkillDelta.teamCoverage]. intros ->. reflexivity. Qed.

(** Against an aggregate of profiles none of which lists the code
    [__proto__], a code that is the name of no member of
    [Object.prototype] finds the entry stored for it, or nothing. *)
Lemma languageCoverage_pipeline genomes code :
  isInherited code = false ->
  ~ In "__proto__" (List.map fst (flat_map languageObservations genomes)) ->
  languageCoverage (buildTeamAggregate (Some genomes)) code
  = match storedLanguage (TeamAggregate.languages (buildTeamAggregate (Some genomes))) code with
    | Some entry => div (LanguageFrequency.percentage entry) hundred
    | None => zero
    end.
Proof.
  intros Hc Hp. unfold languageCoverage, getLanguage, storedLanguage.
  destruct (String.eqb_spec code "__proto__") as [->|Hne]; [discriminate Hc|].
  destruct (Languages.own _ !! code) as [entry|]; [reflexivity|].
  pose proof (languages_spec genomes "__proto__") as Hs.
  unfold storedLanguage in Hs. cbn [String.eqb Ascii.eqb Bool.eqb] in Hs.
  destruct (Languages.prototype _) as [entry|].
  - destruct Hs as [Hin _]. contradiction.
  - rewrite Hc. reflexivity.
Qed.

Lemma rareLanguage_unknown genomes lang :
  isInherited (GenomeLanguage.code lang) = false ->
  ~ In "__proto__" (List.map fst (flat_map languageObservations genomes)) ->
  ~ In (GenomeLanguage.code lang) (List.map fst (flat_map languageObservations genomes)) ->
  languageCoverage (buildTeamAggregate (Some genomes)) (GenomeLanguage.code lang) = zero.
Proof.
  intros Hc Hp H. rewrite languageCoverage_pipeline by assumption.
  pose proof (languages_spec genomes (GenomeLanguage.code lang)) as Hs.
  destruct (storedLanguage _ _) as [entry|]; [|reflexivity].
  destruct Hs as [Hin _]. contradiction.
Qed.

(** ** The radar *)

Lemma proficiencyToValue_cases p :
  isInherited (toLowerCase p) = false ->
  In (proficiencyToValue p) [one; REDUNDANCY_THRESHOLD; ONE_HALF; THREE_TENTHS; ONE_TENTH].
Proof.
  clear inheritedText.
  intros H. unfold proficiencyToValue. cbv zeta. rewrite H.
  repeat (match goal with |- context [String.eqb ?a ?b] => destruct (String.eqb a b) end;
          [cbn; tauto|]).
  cbn. tauto.
Qed.

Lemma proficiencyToValue_valid p : valid_binary prec emax (proficiencyToValue p) = true.
Proof.
  unfold proficiencyToValue. cbv zeta.
  repeat (match goal with |- context [String.eqb ?a ?b] => destruct (String.eqb a b) end;
          [reflexivity|]).
  destruct (isInherited _); reflexivity.
Qed.

Lemma proficiencyToValue_level level :
  toLowerCase (Proficiency.text level) = Proficiency.text level ->
  proficiencyToValue (Proficiency.text level) = levelValue level.
Proof.
  intros H. unfold proficiencyToValue. cbv zeta. rewrite H. destruct level; reflexivity.
Qed.

Lemma set_keys_addKey {V} k (v : V) m : JSMap.keys (JSMap.set k v m) = addKey (JSMap.keys m) k.
Proof. rewrite keys_set. unfold addKey. rewrite <- has_existsb. reflexivity. Qed.

Lemma addKey_idem acc k : In k acc -> addKey acc k = acc.
Proof.
  intros H. unfold addKey.
  rewrite (proj2 (existsb_exists _ _)); [reflexivity|].
  exists k. split; [exact H | apply String.eqb_refl].
Qed.

Lemma addTeamSkill_keys m s :
  JSMap.keys (addTeamSkill m s) = addKey (JSMap.keys m) (toLowerCase (SkillFrequency.skillName s)).
Proof. apply set_keys_addKey. Qed.

Lemma addDistinctSkill_keys m s :
  JSMap.keys (addDistinctSkill m s) = addKey (JSMap.keys m) (toLowerCase (GenomeStrength.name s)).
Proof.
  unfold addDistinctSkill. cbv zeta.
  set (key := toLowerCase (GenomeStrength.name s)).
  destruct (JSMap.has key m) eqn:Hh.
  - destruct (has_get _ _ Hh) as [d Hd]. rewrite Hd, set_keys_addKey. reflexivity.
  - rewrite get_set_eq, !set_keys_addKey. apply addKey_idem.
    unfold addKey. rewrite <- has_existsb, Hh. apply in_or_app. right. left. reflexivity.
Qed.

Lemma addCandidateValue_keys m s : JSMap.keys (addCandidateValue m s) = JSMap.keys m.
Proof.
  unfold addCandidateValue. cbv zeta.
  destruct (JSMap.has _ m) eqn:Hh; [|reflexivity].
  destruct (has_get _ _ Hh) as [d Hd]. rewrite Hd, set_keys_addKey.
  apply addKey_idem, has_In_keys, Hh.
Qed.

Lemma fold_keys {A V} (step : list (string * V) -> A -> list (string * V)) (key : A -> string) l m :
  (forall m a, JSMap.keys (step m a) = addKey (JSMap.keys m) (key a)) ->
  JSMap.keys (fold_left step l m) = fold_left addKey (List.map key l) (JSMap.keys m).
Proof.
  intros H. revert m. induction l as [|a l IH]; intros m; [reflexivity|].
  cbn [fold_left List.map]. rewrite IH, H. reflexivity.
Qed.

Lemma fold_keys_same {A V} (step : list (string * V) -> A -> list (string * V)) l m :
  (forall m a, JSMap.keys (step m a) = JSMap.keys m) ->
  JSMap.keys (fold_left step l m) = JSMap.keys m.
Proof.
  intros H. revert m. induction l as [|a l IH]; intros m; [reflexivity|].
  cbn [fold_left]. rewrite IH, H. reflexivity.
Qed.

Lemma fold_addKey_length l acc :
  (length (fold_left addKey l acc) <= length acc + length l)%nat.
Proof.
  revert acc. induction l as [|k l IH]; intros acc; [simpl; lia|].
  cbn [fold_left length]. specialize (IH (addKey acc k)).
  assert (length (addKey acc k) <= S (length acc))%nat.
  { unfold addKey. destruct (existsb _ acc); [lia|]. rewrite List.length_app. simpl. lia. }
  lia.
Qed.

Lemma fold_Forall {A V} (P : string * V -> Prop)
    (step : list (string * V) -> A -> list (string * V)) l m :
  (forall m a, Forall P m -> Forall P (step m a)) ->
  Forall P m -> Forall P (fold_left step l m).
Proof.
  intros H. revert m. induction l as [|a l IH]; intros m Hm; [exact Hm|].
  cbn [fold_left]. apply IH, H, Hm.
Qed.

Lemma Zdigits2_scale m k : 0 < m -> 0 <= k -> Zdigits2 (m * 2 ^ k) = Zdigits2 m + k.
Proof.
  intros Hm Hk. pose proof (Zdigits2_bounds m Hm) as [Hlo Hhi].
  pose proof (Zdigits2_pos m Hm) as Hd.
  assert (0 < 2 ^ k) by (apply Z.pow_pos_nonneg; lia).
  apply Zdigits2_unique; [nia|]. split.
  - replace (Zdigits2 m + k - 1) with ((Zdigits2 m - 1) + k) by lia.
    rewrite pow2_split by lia. nia.
  - rewrite pow2_split by lia. nia.
Qed.

Lemma binary_round_valid sx mx ex :
  valid_binary prec emax (binary_round prec emax sx mx ex) = true.
Proof.
  unfold binary_round.
  pose proof (shl_align_spec mx ex (fexp (Z.pos (digits2_pos mx) + ex))) as [H1 H2].
  destruct (shl_align mx ex (fexp (Z.pos (digits2_pos mx) + ex))) as [mz ez].
  cbn [fst snd] in H1, H2.
  apply binary_round_aux_valid; [lia|].
  rewrite H2, Zdigits2_scale by lia.
  change (Zdigits2 (Z.pos mx)) with (Z.pos (digits2_pos mx)).
  replace (Z.pos (digits2_pos mx) + (ex - Z.min ex (fexp (Z.pos (digits2_pos mx) + ex))) + ez)
    with (Z.pos (digits2_pos mx) + ex) by lia.
  lia.
Qed.

Lemma sub_valid x y :
  valid_binary prec emax x = true -> valid_binary prec emax y = true ->
  valid_binary prec emax (sub x y) = true.
Proof.
  intros Hx Hy. unfold sub.
  destruct x as [sx|sx| |sx mx ex], y as [sy|sy| |sy my ey];
    try (repeat match goal with s : bool |- _ => destruct s end; simpl; (reflexivity || assumption)).
  rewrite SFsub_finite. unfold binary_normalize.
  destruct (aligned sx mx ex (Z.min ex ey) - aligned sy my ey (Z.min ex ey));
    [reflexivity | apply binary_round_valid | apply binary_round_valid].
Qed.

Lemma indexed_In {A} (l : list A) start i x :
  In (i, x) (indexed start l) -> (start <= i)%nat /\ nth_error l (i - start) = Some x.
Proof.
  revert start. induction l as [|y l IH]; intros start H; [destruct H|].
  cbn [indexed] in H. destruct H as [H|H].
  - injection H as <- <-. rewrite Nat.sub_diag. split; [lia | reflexivity].
  - destruct (IH _ H) as [H1 H2]. split; [lia|].
    replace (i - start)%nat with (S (i - S start)) by lia. exact H2.
Qed.

Lemma Forall_get_value {V} (P : V -> Prop) k v (m : list (string * V)) :
  Forall (fun kv => P (snd kv)) m -> JSMap.get k m = Some v -> P v.
Proof.
  intros H Hg. apply In_get in Hg. rewrite List.Forall_forall in H. exact (H _ Hg).
Qed.

(** The radar data, entry by entry of [allSkills]. *)
Lemma radar_points team candidateGenome :
  exists (allSkills : list (string * RadarEntry.t)) (point : string * RadarEntry.t -> RadarDataPoint.t),
    getRadarData (Some team) candidateGenome = List.map point allSkills
    /\ JSMap.keys allSkills = radarKeys team candidateGenome
    /\ Forall (fun kv => RadarEntry.candidateProficiency (snd kv) = None
                         \/ exists level,
                              RadarEntry.candidateProficiency (snd kv)
                              = Some (Proficiency.text level)) allSkills
    /\ (forall kv,
          RadarDataPoint.candidateValue (point kv)
          = match RadarEntry.candidateProficiency (snd kv) with
            | Some EmptyString | None => zero
            | Some p => proficiencyToValue p
            end)
    /\ (forall kv s,
          List.find (fun s => String.eqb (toLowerCase (SkillFrequency.skillName s)) (fst kv))
            (firstn 6 (TeamAggregate.skills team)) = Some s ->
          SkillFrequency.skillName s <> EmptyString ->
          RadarDataPoint.skill (point kv) = SkillFrequency.skillName s).
Proof.
  unfold getRadarData, radarKeys. cbv zeta.
  set (teamSkills := firstn 6 (TeamAggregate.skills team)).
  set (candidateSkills := match candidateGenome with
                          | Some genome => default [] (GenomeResponse.strengths genome)
                          | None => []
                          end).
  set (distinct := firstn 2 (List.filter _ candidateSkills)).
  set (allSkills := match candidateGenome with
                    | Some _ => fold_left addCandidateValue candidateSkills
                                  (fold_left addDistinctSkill distinct
                                     (fold_left addTeamSkill teamSkills []))
                    | None => fold_left addDistinctSkill distinct
                                (fold_left addTeamSkill teamSkills [])
                    end).
  set (P := fun kv : string * RadarEntry.t =>
              RadarEntry.candidateProficiency (snd kv) = None
              \/ exists level,
                   RadarEntry.candidateProficiency (snd kv) = Some (Proficiency.text level)).
  assert (forall a : GenomeStrength.t,
            proficiencyOf a = None \/ exists level, proficiencyOf a = Some (Proficiency.text level))
    as Hof.
  { intros a. unfold proficiencyOf. destruct (GenomeStrength.proficiency a) as [level|];
      [right; exists level; reflexivity | left; reflexivity]. }
  eexists allSkills, _. split; [reflexivity|]. split; [|split; [|split]].
  - assert (JSMap.keys (fold_left addDistinctSkill distinct (fold_left addTeamSkill teamSkills []))
            = firstSeen (List.map (fun s => toLowerCase (SkillFrequency.skillName s)) teamSkills
                         ++ List.map (fun s => toLowerCase (GenomeStrength.name s)) distinct)) as H1.
    { rewrite (fold_keys addDistinctSkill (fun s => toLowerCase (GenomeStrength.name s)))
        by apply addDistinctSkill_keys.
      rewrite (fold_keys addTeamSkill (fun s => toLowerCase (SkillFrequency.skillName s)))
        by apply addTeamSkill_keys.
      unfold firstSeen. rewrite fold_left_app. reflexivity. }
    subst allSkills. destruct candidateGenome; [|exact H1].
    rewrite fold_keys_same by apply addCandidateValue_keys. exact H1.
  - assert (Forall P (fold_left addTeamSkill teamSkills [])) as H0.
    { apply fold_Forall; [|constructor]. intros m a Hm. unfold addTeamSkill.
      apply Forall_set; [exact Hm|]. intros k. left. reflexivity. }
    assert (Forall P (fold_left addDistinctSkill distinct (fold_left addTeamSkill teamSkills [])))
      as H1.
    { apply fold_Forall; [|exact H0]. intros m a Hm. unfold addDistinctSkill. cbv zeta.
      set (key := toLowerCase (GenomeStrength.name a)).
      assert (Forall P (if JSMap.has key m then m else JSMap.set key (RadarEntry.mk zero None) m))
        as Hm'.
      { destruct (JSMap.has key m); [exact Hm|].
        apply Forall_set; [exact Hm | intros k; left; reflexivity]. }
      destruct (JSMap.get key _) as [existing|] eqn:E; [|exact Hm'].
      apply Forall_set; [exact Hm'|]. intros k. apply Hof. }
    subst allSkills. destruct candidateGenome; [|exact H1].
    apply fold_Forall; [|exact H1]. intros m a Hm. unfold addCandidateValue. cbv zeta.
    destruct (JSMap.has _ m); [|exact Hm].
    destruct (JSMap.get _ m) as [existing|] eqn:E; [|exact Hm].
    apply Forall_set; [exact Hm|]. intros k. apply Hof.
  - intros kv. reflexivity.
  - intros kv s Hs Hn. cbn [RadarDataPoint.skill]. rewrite Hs. cbn [option_map].
    destruct (SkillFrequency.skillName s); [contradiction | reflexivity].
Qed.

Lemma radar_values_valid team candidateGenome :
  Forall (fun p => valid_binary prec emax (RadarDataPoint.teamValue p) = true
                   /\ valid_binary prec emax (RadarDataPoint.candidateValue p) = true)
    (getRadarData (Some team) candidateGenome).
Proof.
  unfold getRadarData. cbv zeta.
  set (P := fun kv : string * RadarEntry.t =>
              valid_binary prec emax (RadarEntry.teamValue (snd kv)) = true).
  set (teamSkills := firstn 6 (TeamAggregate.skills team)).
  set (candidateSkills := match candidateGenome with
                          | Some genome => default [] (GenomeResponse.strengths genome)
                          | None => []
                          end).
  set (distinct := firstn 2 (List.filter _ candidateSkills)).
  assert (Forall P (fold_left addTeamSkill teamSkills [])) as H0.
  { apply fold_Forall; [|constructor]. intros m a Hm. unfold addTeamSkill.
    apply Forall_set; [exact Hm|]. intros k. apply div_valid. }
  assert (Forall P (fold_left addDistinctSkill distinct (fold_left addTeamSkill teamSkills [])))
    as H1.
  { apply fold_Forall; [|exact H0]. intros m a Hm. unfold addDistinctSkill. cbv zeta.
    set (key := toLowerCase (GenomeStrength.name a)).
    assert (Forall P (if JSMap.has key m then m else JSMap.set key (RadarEntry.mk zero None) m))
      as Hm'.
    { destruct (JSMap.has key m); [exact Hm|]. apply Forall_set; [exact Hm | reflexivity]. }
    destruct (JSMap.get key _) as [existing|] eqn:E; [|exact Hm'].
    apply Forall_set; [exact Hm'|]. intros k.
    exact (Forall_get_value (fun d => valid_binary prec emax (RadarEntry.teamValue d) = true)
             _ _ _ Hm' E). }
  assert (Forall P (match candidateGenome with
                    | Some _ => fold_left addCandidateValue candidateSkills
                                  (fold_left addDistinctSkill distinct
                                     (fold_left addTeamSkill teamSkills []))
                    | None => fold_left addDistinctSkill distinct
                                (fold_left addTeamSkill teamSkills [])
                    end)) as H2.
  { destruct candidateGenome; [|exact H1].
    apply fold_Forall; [|exact H1]. intros m a Hm. unfold addCandidateValue. cbv zeta.
    destruct (JSMap.has _ m); [|exact Hm].
    destruct (JSMap.get _ m) as [existing|] eqn:E; [|exact Hm].
    apply Forall_set; [exact Hm|]. intros k.
    exact (Forall_get_value (fun d => valid_binary prec emax (RadarEntry.teamValue d) = true)
             _ _ _ Hm E). }
  apply List.Forall_forall. intros p Hp. apply in_map_iff in Hp.
  destruct Hp as ([key data] & <- & Hin). rewrite List.Forall_forall in H2.
  cbn [snd RadarDataPoint.teamValue RadarDataPoint.candidateValue].
  split; [exact (H2 _ Hin)|].
  destruct (RadarEntry.candidateProficiency data) as [[|c q]|]; try reflexivity.
  apply proficiencyToValue_valid.
Qed.

Lemma missingPieces_sorted data :
  Forall (fun p => valid_binary prec emax (RadarDataPoint.teamValue p) = true
                   /\ valid_binary prec emax (RadarDataPoint.candidateValue p) = true) data ->
  StronglySorted
    (fun a b => le (MissingPiece.extension b) (MissingPiece.extension a) = true)
    (missingPieces data).
Proof.
  intros Hv. unfold missingPieces.
  apply Sorted_StronglySorted; [intros a b c H1 H2; exact (le_trans _ _ _ H2 H1)|].
  apply sortBy_Sorted. intros x y Hx Hy.
  apply List.filter_In in Hx, Hy. destruct Hx as [Hx Rx], Hy as [Hy Ry].
  assert (forall z, In z (List.map
                            (fun ip => MissingPiece.mk (fst ip) (RadarDataPoint.skill (snd ip))
                                         (sub (RadarDataPoint.candidateValue (snd ip))
                                              (RadarDataPoint.teamValue (snd ip))))
                            (indexed 0 data)) ->
                    valid_binary prec emax (MissingPiece.extension z) = true) as Hvalid.
  { intros z Hz. apply in_map_iff in Hz. destruct Hz as ([i p] & <- & Hin).
    apply indexed_In in Hin. destruct Hin as [_ Hn]. apply nth_error_In in Hn.
    rewrite List.Forall_forall in Hv. destruct (Hv _ Hn) as [Ht Hc].
    cbn [MissingPiece.extension snd]. apply sub_valid; assumption. }
  unfold byExtensionDesc.
  pose proof (lt_notNaN _ _ Rx) as [_ Nx]. pose proof (lt_notNaN _ _ Ry) as [_ Ny].
  pose proof (sub_decides_order _ _ (Hvalid x Hx) (Hvalid y Hy) Nx Ny) as H.
  destruct (gt (sub (MissingPiece.extension y) (MissingPiece.extension x)) zero); exact H.
Qed.

(** ** Trimming, splitting and matching *)

Lemma append_cons c (s t : string) : String c s +:+ t = String c (s +:+ t).
Proof. reflexivity. Qed.

Lemma append_empty (t : string) : EmptyString +:+ t = t.
Proof. reflexivity. Qed.

Lemma isSlash_spec c : isSlash c = true <-> c = "/"%char.
Proof. unfold isSlash. apply Ascii.eqb_eq. Qed.

(** A white-space character at the start of a string: its bytes, none of
    which is a slash, and what follows it. *)
Lemma spaceWidth_spec s :
  spaceWidth s = 0%nat
  \/ exists p r,
       s = p +:+ r
       /\ p <> EmptyString
       /\ noSlash p = true
       /\ forall t, spaceWidth (p +:+ t) = String.length p
                    /\ trimStart (p +:+ t) = trimStart t.
Proof.
  assert (forall a n, nat_of_ascii a = n -> n <> 47%nat -> isSlash a = false) as Hns.
  { intros a n Ha Hn. destruct (isSlash a) eqn:E; [|reflexivity].
    apply isSlash_spec in E. subst a. exfalso. apply Hn. rewrite <- Ha. reflexivity. }
  destruct s as [|a r]; [left; reflexivity|].
  destruct ((Nat.leb 9 (nat_of_ascii a) && Nat.leb (nat_of_ascii a) 13)
            || Nat.eqb (nat_of_ascii a) 32)%bool eqn:E1.
  { right. exists (String a EmptyString), r.
    assert (forall t, spaceWidth (String a t) = 1%nat) as Hw.
    { intros t. unfold spaceWidth. cbv zeta. rewrite E1. reflexivity. }
    split; [reflexivity|]. split; [discriminate|]. split.
    - unfold noSlash. cbn [allChars]. rewrite (Hns a _ eq_refl); [reflexivity|].
      intros H. rewrite H in E1. discriminate E1.
    - intros t. split; [apply Hw|].
      unfold trimStart. rewrite !append_cons, append_empty. cbn [trimStartFrom].
      rewrite Hw. reflexivity. }
  destruct r as [|b r'].
  { left. unfold spaceWidth. cbv zeta. rewrite E1. reflexivity. }
  destruct (Nat.eqb (nat_of_ascii a) 194 && Nat.eqb (nat_of_ascii b) 160)%bool eqn:E2.
  { right. exists (String a (String b EmptyString)), r'.
    assert (forall t, spaceWidth (String a (String b t)) = 2%nat) as Hw.
    { intros t. unfold spaceWidth. cbv zeta. rewrite E1, E2. reflexivity. }
    apply andb_true_iff in E2. destruct E2 as [Ea Eb]. apply Nat.eqb_eq in Ea, Eb.
    split; [reflexivity|]. split; [discriminate|]. split.
    - unfold noSlash. cbn [allChars].
      rewrite (Hns a _ Ea), (Hns b _ Eb) by discriminate. reflexivity.
    - intros t. split; [apply Hw|].
      unfold trimStart. rewrite !append_cons, append_empty. cbn [trimStartFrom].
      rewrite Hw. reflexivity. }
  destruct r' as [|c r''].
  { left. unfold spaceWidth. cbv zeta. rewrite E1, E2. reflexivity. }
  match goal with
  | |- spaceWidth ?s = _ \/ _ =>
      let e := eval cbv beta iota zeta delta [spaceWidth] in (spaceWidth s) in
      match e with
      | context [if _ then _ else if _ then _ else if ?c3 then _ else _] =>
          destruct c3 eqn:E3
      end
  end.
  - right. exists (String a (String b (String c EmptyString))), r''.
    assert (forall t, spaceWidth (String a (String b (String c t))) = 3%nat) as Hw.
    { intros t. unfold spaceWidth. cbv zeta. rewrite E1, E2, E3. reflexivity. }
    split; [reflexivity|]. split; [discriminate|]. split.
    + unfold noSlash. cbn [allChars].
      assert (128 <= nat_of_ascii a /\ 128 <= nat_of_ascii b /\ 128 <= nat_of_ascii c)%nat
        as (Ha & Hb & Hc).
      { repeat match goal with
               | H : (_ || _)%bool = true |- _ => apply orb_true_iff in H; destruct H as [H|H]
               | H : (_ && _)%bool = true |- _ => apply andb_true_iff in H; destruct H as [? H]
               | H : Nat.eqb _ _ = true |- _ => apply Nat.eqb_eq in H
               | H : Nat.leb _ _ = true |- _ => apply Nat.leb_le in H
               end; lia. }
      rewrite (Hns a _ eq_refl), (Hns b _ eq_refl), (Hns c _ eq_refl) by lia. reflexivity.
    + intros t. split; [apply Hw|].
      unfold trimStart. rewrite !append_cons, append_empty. cbn [trimStartFrom].
      rewrite Hw. reflexivity.
  - left. unfold spaceWidth. cbv zeta. rewrite E1, E2, E3. reflexivity.
Qed.

Lemma length_append (p r : string) :
  String.length (p +:+ r) = (String.length p + String.length r)%nat.
Proof.
  induction p as [|c p IH]; [reflexivity|]. rewrite append_cons. cbn [String.length].
  rewrite IH. reflexivity.
Qed.

Lemma allChars_append f (a b : string) :
  allChars f (a +:+ b) = (allChars f a && allChars f b)%bool.
Proof.
  induction a as [|c a IH]; [reflexivity|]. rewrite append_cons. cbn [allChars].
  rewrite IH. apply andb_assoc.
Qed.

Lemma trimStart_fixed s : spaceWidth s = 0%nat -> trimStart s = s.
Proof.
  destruct s; [reflexivity|]. unfold trimStart. cbn [trimStartFrom]. intros ->. reflexivity.
Qed.

Lemma trimStartFrom_width k s : spaceWidth (trimStartFrom k s) = 0%nat.
Proof.
  revert k. induction s as [|c r IH]; intros k; [reflexivity|]. cbn [trimStartFrom].
  destruct k as [|k]; [|apply IH].
  destruct (spaceWidth (String c r)) eqn:E; [exact E | apply IH].
Qed.

Lemma trimStart_width s : spaceWidth (trimStart s) = 0%nat.
Proof. apply trimStartFrom_width. Qed.

Lemma allChars_trimStartFrom f k s :
  allChars f s = true -> allChars f (trimStartFrom k s) = true.
Proof.
  revert k. induction s as [|c r IH]; intros k H; [reflexivity|]. cbn [trimStartFrom].
  pose proof H as H'. cbn [allChars] in H'. apply andb_true_iff in H'. destruct H' as [_ Hr].
  destruct k as [|k]; [|apply IH, Hr].
  destruct (spaceWidth (String c r)); [exact H | apply IH, Hr].
Qed.

Lemma allChars_trimStart f s : allChars f s = true -> allChars f (trimStart s) = true.
Proof. apply allChars_trimStartFrom. Qed.

Lemma blank_iff s : blank s = true <-> trimStart s = EmptyString.
Proof. unfold blank. destruct (trimStart s); split; (reflexivity || discriminate). Qed.

(** A string of white space has no slash. *)
Lemma blank_noSlash s : blank s = true -> noSlash s = true.
Proof.
  rewrite blank_iff. remember (String.length s) as n eqn:Hn.
  assert (String.length s <= n)%nat as Hle by lia. clear Hn. revert s Hle.
  induction n as [|n IH]; intros s Hle H.
  - destruct s; [reflexivity | simpl in Hle; lia].
  - destruct (spaceWidth_spec s) as [H0 | (p & r & -> & Hp & Hns & Hall)].
    + rewrite (trimStart_fixed s H0) in H. subst s. reflexivity.
    + destruct (Hall r) as [_ Ht]. rewrite Ht in H.
      unfold noSlash. rewrite allChars_append. fold (noSlash p). fold (noSlash r).
      rewrite Hns. apply IH; [|exact H].
      rewrite length_append in Hle. destruct p; [contradiction | simpl in Hle; lia].
Qed.

Lemma trimStart_append s t : trimStart s = EmptyString -> trimStart (s +:+ t) = trimStart t.
Proof.
  remember (String.length s) as n eqn:Hn.
  assert (String.length s <= n)%nat as Hle by lia. clear Hn. revert s Hle.
  induction n as [|n IH]; intros s Hle H.
  - destruct s; [reflexivity | simpl in Hle; lia].
  - destruct (spaceWidth_spec s) as [H0 | (p & r & -> & Hp & Hns & Hall)].
    + rewrite (trimStart_fixed s H0) in H. subst s. reflexivity.
    + destruct (Hall r) as [_ Ht]. rewrite Ht in H.
      rewrite append_assoc. destruct (Hall (r +:+ t)) as [_ ->].
      apply IH; [|exact H].
      rewrite length_append in Hle. destruct p; [contradiction | simpl in Hle; lia].
Qed.

Lemma blank_append a b : blank a = true -> blank b = true -> blank (a +:+ b) = true.
Proof.
  rewrite !blank_iff. intros Ha Hb. rewrite (trimStart_append a b Ha). exact Hb.
Qed.

Lemma spaceWidth_append s t :
  spaceWidth s <> 0%nat -> spaceWidth (s +:+ t) = spaceWidth s.
Proof.
  intros H. destruct (spaceWidth_spec s) as [H0 | (p & r & -> & _ & _ & Hall)];
    [contradiction|].
  rewrite append_assoc. destruct (Hall r) as [-> _]. destruct (Hall (r +:+ t)) as [-> _].
  reflexivity.
Qed.

Lemma trimEnd_split s : exists w, s = trimEnd s +:+ w /\ blank w = true.
Proof.
  induction s as [|c r IH]; [exists EmptyString; split; reflexivity|].
  cbn [trimEnd]. destruct (blank (String c r)) eqn:E.
  - exists (String c r). split; [reflexivity | exact E].
  - destruct IH as (w & Hw & Hb). exists w. split; [|exact Hb].
    rewrite append_cons, <- Hw. reflexivity.
Qed.

Lemma noSpace_head s : noSpace s = true -> spaceWidth s = 0%nat.
Proof.
  destruct s as [|c r]; [reflexivity|]. cbn [noSpace]. intros H.
  apply andb_true_iff in H. destruct H as [H _]. apply Nat.eqb_eq, H.
Qed.

Lemma noSpace_not_blank s : nonEmpty s = true -> noSpace s = true -> blank s = false.
Proof.
  intros Hn Hs. destruct (blank s) eqn:E; [|reflexivity].
  apply blank_iff in E. rewrite (trimStart_fixed s (noSpace_head s Hs)) in E.
  subst s. discriminate Hn.
Qed.

Lemma trimEnd_noSpace s : noSpace s = true -> trimEnd s = s.
Proof.
  induction s as [|c r IH]; [reflexivity|]. intros H. cbn [trimEnd].
  rewrite (noSpace_not_blank (String c r) eq_refl H).
  cbn [noSpace] in H. apply andb_true_iff in H. destruct H as [_ Hr].
  rewrite (IH Hr). reflexivity.
Qed.

Lemma trim_noSpace s : noSpace s = true -> trim s = s.
Proof.
  intros H. unfold trim. rewrite (trimStart_fixed s (noSpace_head s H)).
  apply trimEnd_noSpace, H.
Qed.

(** What [trimEnd] leaves has no white space at its end, so trimming it
    again changes nothing. *)
Lemma trimEnd_idem s : trimEnd (trimEnd s) = trimEnd s.
Proof.
  induction s as [|c r IH]; [reflexivity|]. cbn [trimEnd].
  destruct (blank (String c r)) eqn:E; [reflexivity|]. cbn [trimEnd]. rewrite IH.
  destruct (blank (String c (trimEnd r))) eqn:E'; [|reflexivity].
  destruct (trimEnd_split r) as (w & Hw & Hb).
  pose proof (blank_append _ _ E' Hb) as H. rewrite append_cons, <- Hw in H. congruence.
Qed.

Lemma trim_idem s : trim (trim s) = trim s.
Proof.
  unfold trim. pose proof (trimStart_width s) as H.
  set (t := trimStart s) in *.
  assert (spaceWidth (trimEnd t) = 0%nat) as H0.
  { destruct (Nat.eq_dec (spaceWidth (trimEnd t)) 0%nat) as [E|E]; [exact E|].
    destruct (trimEnd_split t) as (w & Hw & _).
    pose proof (spaceWidth_append (trimEnd t) w E) as Ha. rewrite <- Hw in Ha. congruence. }
  rewrite (trimStart_fixed _ H0). apply trimEnd_idem.
Qed.

Lemma allChars_trimEnd f s : allChars f s = true -> allChars f (trimEnd s) = true.
Proof.
  induction s as [|c r IH]; [reflexivity|]. cbn [allChars trimEnd]. intros H.
  apply andb_true_iff in H. destruct H as [Hc Hr].
  destruct (blank (String c r)); [reflexivity|]. cbn [allChars]. rewrite Hc, (IH Hr).
  reflexivity.
Qed.

Lemma noSlash_trim s : noSlash s = true -> noSlash (trim s) = true.
Proof. intros H. apply allChars_trimEnd, allChars_trimStart, H. Qed.

Lemma spaceWidth_slash r : spaceWidth (String "/" r) = 0%nat.
Proof. destruct r as [|b [|c r]]; reflexivity. Qed.

Lemma onlySlashes_noSpace s : onlySlashes s = true -> noSpace s = true.
Proof.
  unfold onlySlashes. induction s as [|c r IH]; [reflexivity|]. cbn [allChars noSpace].
  intros H. apply andb_true_iff in H. destruct H as [Hc Hr].
  apply isSlash_spec in Hc. subst c. rewrite spaceWidth_slash, (IH Hr). reflexivity.
Qed.

(** White space at the end of a string stops at a slash. *)
Lemma trimEnd_append_slash p s :
  noSpace s = true -> trimEnd (p +:+ String "/" s) = p +:+ String "/" s.
Proof.
  intros Hs.
  assert (forall q, blank (q +:+ String "/" s) = false) as Hb.
  { intros q. destruct (blank (q +:+ String "/" s)) eqn:E; [|reflexivity].
    apply blank_noSlash in E. unfold noSlash in E. rewrite allChars_append in E.
    cbn [allChars] in E. rewrite andb_false_r in E. discriminate E. }
  induction p as [|c p IH].
  - rewrite append_empty. cbn [trimEnd].
    change (String "/" s) with (EmptyString +:+ String "/" s) at 1. rewrite Hb.
    rewrite (trimEnd_noSpace s Hs). reflexivity.
  - rewrite append_cons. cbn [trimEnd].
    change (String c (p +:+ String "/" s)) with (String c p +:+ String "/" s) at 1.
    rewrite Hb, IH. reflexivity.
Qed.

Lemma blank_check username :
  (negb (nonEmpty username) || Nat.eqb (String.length (trim username)) 0)%bool
  = negb (nonEmpty (trim username)).
Proof.
  destruct username as [|c r]; [reflexivity|]. cbn [nonEmpty negb orb].
  destruct (trim (String c r)); reflexivity.
Qed.

(** Splitting. *)
Lemma splitSlash_nonnil s : splitSlash s <> [].
Proof.
  induction s as [|c r IH]; [discriminate|]. cbn [splitSlash].
  destruct (isSlash c); [discriminate|]. destruct (splitSlash r); discriminate.
Qed.

Lemma splitSlash_noSlash s : noSlash s = true -> splitSlash s = [s].
Proof.
  induction s as [|c r IH]; [reflexivity|]. unfold noSlash. cbn [allChars splitSlash].
  intros H. apply andb_true_iff in H. destruct H as [Hc Hr]. apply negb_true_iff in Hc.
  rewrite Hc, (IH Hr). reflexivity.
Qed.

Lemma splitSlash_parts s : Forall (fun p => noSlash p = true) (splitSlash s).
Proof.
  induction s as [|c r IH]; [repeat constructor|]. cbn [splitSlash].
  destruct (isSlash c) eqn:Hc; [constructor; [reflexivity | exact IH]|].
  destruct (splitSlash r) as [|f o]; [repeat constructor; unfold noSlash; cbn; rewrite Hc; reflexivity|].
  inversion IH as [|? ? Hf Ho]; subst. constructor; [|exact Ho].
  unfold noSlash in *. cbn [allChars]. rewrite Hc, Hf. reflexivity.
Qed.

Lemma splitSlash_append p s :
  noSlash s = true ->
  splitSlash (p +:+ String "/" s) = (splitSlash p ++ [s])%list.
Proof.
  intros Hs. induction p as [|c p IH].
  - rewrite append_empty. cbn [splitSlash isSlash]. rewrite (splitSlash_noSlash s Hs). reflexivity.
  - rewrite append_cons. cbn [splitSlash]. rewrite IH.
    destruct (isSlash c); [reflexivity|].
    pose proof (splitSlash_nonnil p). destruct (splitSlash p); [contradiction | reflexivity].
Qed.

Lemma segments_none s : segments s = [] -> onlySlashes s = true.
Proof.
  unfold segments, onlySlashes. induction s as [|c r IH]; [reflexivity|].
  cbn [splitSlash allChars]. destruct (isSlash c) eqn:Hc.
  - cbn [List.filter nonEmpty]. exact IH.
  - destruct (splitSlash r) as [|f o]; cbn [List.filter nonEmpty]; discriminate.
Qed.

Lemma last_snoc {A} (l : list A) x d : List.last (l ++ [x]) d = x.
Proof. apply List.last_last. Qed.

Lemma segments_last_In s : segments s <> [] -> In (List.last (segments s) EmptyString) (segments s).
Proof.
  intros H. destruct (List.exists_last H) as (l & x & E). rewrite E, last_snoc.
  apply in_or_app. right. left. reflexivity.
Qed.

Lemma segments_wellformed s p : In p (segments s) -> nonEmpty p = true /\ noSlash p = true.
Proof.
  unfold segments. intros H. apply List.filter_In in H. destruct H as [H Hn].
  split; [exact Hn|]. pose proof (splitSlash_parts s) as HF.
  rewrite List.Forall_forall in HF. exact (HF _ H).
Qed.

(** Literals. *)
Lemma afterLiteral_split lit s r :
  afterLiteral lit s = Some r ->
  exists q, s = q +:+ r /\ String.length q = String.length lit.
Proof.
  revert s. induction lit as [|a lit IH]; intros s H.
  - injection H as <-. exists EmptyString. split; reflexivity.
  - destruct s as [|c s']; [discriminate|]. cbn [afterLiteral] in H.
    destruct (Ascii.eqb (lowerAscii a) (lowerAscii c)); [|discriminate].
    destruct (IH _ H) as (q & -> & Hq). exists (String c q). split; [reflexivity|].
    cbn [String.length]. rewrite Hq. reflexivity.
Qed.

Lemma afterLiteral_slash lit s r :
  afterLiteral (lit +:+ "/") s = Some r ->
  exists q, s = q +:+ String "/" r.
Proof.
  revert s. induction lit as [|a lit IH]; intros s H.
  - rewrite append_empty in H. destruct s as [|c s']; [discriminate|].
    cbn [afterLiteral] in H.
    destruct (Ascii.eqb (lowerAscii "/") (lowerAscii c)) eqn:E; [|discriminate].
    injection H as <-. exists EmptyString. rewrite append_empty.
    destruct c as [[] [] [] [] [] [] [] []]; try discriminate E. reflexivity.
  - rewrite append_cons in H. destruct s as [|c s']; [discriminate|]. cbn [afterLiteral] in H.
    destruct (Ascii.eqb (lowerAscii a) (lowerAscii c)); [|discriminate].
    destruct (IH _ H) as (q & ->). exists (String c q). reflexivity.
Qed.

Lemma afterLiteral_needs_slash lit s r :
  afterLiteral (lit +:+ "/") s = Some r -> noSlash s = false.
Proof.
  intros H. destruct (afterLiteral_slash _ _ _ H) as (q & ->). clear H.
  unfold noSlash. induction q as [|c q IH].
  - reflexivity.
  - rewrite append_cons. cbn [allChars]. rewrite IH. apply andb_false_r.
Qed.

(** The match of the [/bios/] pattern. *)
Lemma biosHere_spec s c :
  biosHere s = Some c ->
  nonEmpty c = true /\ noSlash c = true /\ noSpace c = true /\ exists q, s = q +:+ String "/" c.
Proof.
  unfold biosHere. destruct (afterLiteral "bios/" s) as [[|x r]|] eqn:E; try discriminate.
  destruct (noSlash (String x r) && noSpace (String x r))%bool eqn:Ha; [|discriminate].
  intros [= <-]. split; [reflexivity|].
  apply andb_true_iff in Ha. destruct Ha as [H1 H2].
  split; [exact H1|]. split; [exact H2|].
  exact (afterLiteral_slash "bios" s (String x r) E).
Qed.

Lemma biosAt_spec s c :
  biosAt s = Some c ->
  nonEmpty c = true /\ noSlash c = true /\ noSpace c = true /\ exists q, s = q +:+ String "/" c.
Proof.
  unfold biosAt. destruct s as [|x r]; [apply biosHere_spec|].
  destruct (isSlash x); [|apply biosHere_spec].
  destruct (biosHere r) as [c'|] eqn:E; [|apply biosHere_spec].
  intros [= <-]. destruct (biosHere_spec _ _ E) as (H1 & H2 & H3 & q & ->).
  split; [exact H1|]. split; [exact H2|]. split; [exact H3|].
  exists (String x q). reflexivity.
Qed.

Lemma biosMatch_spec s c :
  biosMatch s = Some c ->
  nonEmpty c = true /\ noSlash c = true /\ noSpace c = true /\ exists q, s = q +:+ String "/" c.
Proof.
  induction s as [|x r IH].
  - cbn [biosMatch]. destruct (biosAt EmptyString) eqn:E; [|discriminate].
    intros [= <-]. apply (biosAt_spec _ _ E).
  - cbn [biosMatch]. destruct (biosAt (String x r)) eqn:E.
    + intros [= <-]. apply (biosAt_spec _ _ E).
    + intros H. destruct (IH H) as (H1 & H2 & H3 & q & ->).
      split; [exact H1|]. split; [exact H2|]. split; [exact H3|].
      exists (String x q). reflexivity.
Qed.

Lemma biosMatch_last s c :
  biosMatch s = Some c -> segments s <> [] /\ List.last (segments s) EmptyString = c.
Proof.
  intros H. destruct (biosMatch_spec _ _ H) as (H1 & H2 & _ & q & ->).
  unfold segments. rewrite splitSlash_append by exact H2.
  rewrite List.filter_app. cbn [List.filter]. rewrite H1. split.
  - intros E. apply app_eq_nil in E. destruct E as [_ E]. discriminate E.
  - apply last_snoc.
Qed.

Lemma biosMatch_noSlash s : noSlash s = true -> biosMatch s = None.
Proof.
  clear inheritedText toLowerCase.
  intros H. destruct (biosMatch s) as [c|] eqn:E; [|reflexivity].
  destruct (biosMatch_spec _ _ E) as (_ & _ & _ & q & ->). exfalso. clear E.
  unfold noSlash in H. induction q as [|y q IH].
  - rewrite append_empty in H. discriminate H.
  - rewrite append_cons in H. cbn [allChars] in H. apply andb_true_iff in H. tauto.
Qed.

Lemma removeOrigin_noSlash s : noSlash s = true -> removeOrigin s = s.
Proof.
  clear inheritedText toLowerCase.
  intros H. unfold removeOrigin.
  destruct (afterLiteral "http" s) as [r|] eqn:E; [|reflexivity].
  destruct (afterLiteral_split _ _ _ E) as (q & -> & _).
  assert (noSlash r = true) as Hr.
  { clear E. unfold noSlash in *. induction q as [|y q IH]; [exact H|].
    rewrite append_cons in H. cbn [allChars] in H. apply andb_true_iff in H. tauto. }
  assert (forall x, noSlash x = true -> afterLiteral "://" x = None) as Hnone.
  { intros x Hx. destruct (afterLiteral "://" x) as [y|] eqn:E'; [|reflexivity].
    pose proof (afterLiteral_needs_slash ":/" x y E'). congruence. }
  rewrite (Hnone r Hr).
  destruct r as [|c r']; [reflexivity|].
  assert (noSlash r' = true) as Hr'.
  { unfold noSlash in *. cbn [allChars] in Hr. apply andb_true_iff in Hr. tauto. }
  rewrite (Hnone r' Hr'). destruct (Ascii.eqb (lowerAscii c) "s"); reflexivity.
Qed.

Lemma removeLeadingSlash_noSlash s : noSlash s = true -> removeLeadingSlash s = s.
Proof.
  destruct s as [|c r]; [reflexivity|]. unfold noSlash. cbn [allChars removeLeadingSlash].
  intros H. apply andb_true_iff in H. destruct H as [Hc _]. apply negb_true_iff in Hc.
  rewrite Hc. reflexivity.
Qed.

(** The outcome of [cleanUsername], as a function of the last segment of
    the path. *)
Lemma cleanUsername_spec username :
  cleanUsername username
  = if nonEmpty (trim username) then
      let path := removeOrigin (trim username) in
      let name :=
        match segments path with
        | [] => removeLeadingSlash path
        | parts => trim (List.last parts EmptyString)
        end in
      if nonEmpty name then inr name else inl UsernameRequired
    else inl NonEmptyStringRequired.
Proof.
  unfold cleanUsername. rewrite blank_check.
  destruct (nonEmpty (trim username)); [|reflexivity]. cbn [negb]. cbv zeta.
  set (path := removeOrigin (trim username)).
  fold (segments path).
  assert (removeLeadingSlash
            (trim match biosMatch path with
                  | Some capture => capture
                  | None => match segments path with
                            | [] => path
                            | _ :: _ => List.last (segments path) EmptyString
                            end
                  end)
          = match segments path with
            | [] => removeLeadingSlash path
            | p :: ps => trim (List.last (p :: ps) EmptyString)
            end) as ->; [|reflexivity].
  destruct (biosMatch path) as [c|] eqn:E.
  - destruct (biosMatch_last _ _ E) as [Hne Hlast]. rewrite <- Hlast.
    destruct (segments_wellformed path _ (segments_last_In path Hne)) as [_ Hns].
    rewrite (removeLeadingSlash_noSlash _ (noSlash_trim _ Hns)).
    destruct (segments path); [contradiction | reflexivity].
  - destruct (segments path) as [|p ps] eqn:Es.
    + rewrite (trim_noSpace path (onlySlashes_noSpace _ (segments_none _ Es))). reflexivity.
    + assert (segments path <> []) as Hne by (rewrite Es; discriminate).
      destruct (segments_wellformed path _ (segments_last_In path Hne)) as [_ Hns].
      rewrite Es in Hns. apply removeLeadingSlash_noSlash, noSlash_trim, Hns.
Qed.

Lemma dropWhileNot_slash a b :
  exists x, dropWhileNot isSlash (a +:+ String "/" b) = x +:+ String "/" b.
Proof.
  induction a as [|c a IH].
  - exists EmptyString. reflexivity.
  - rewrite append_cons. cbn [dropWhileNot]. destruct (isSlash c).
    + exists (String c a). reflexivity.
    + exact IH.
Qed.

Lemma cleanUsername_last_segment username x user :
  nonEmpty (trim username) = true ->
  removeOrigin (trim username) = x +:+ String "/" user ->
  nonEmpty user = true -> noSlash user = true -> noSpace user = true ->
  cleanUsername username = inr user.
Proof.
  intros Hne Hpath Hu Hs Hsp. rewrite cleanUsername_spec, Hne. cbv zeta. rewrite Hpath.
  unfold segments. rewrite splitSlash_append by exact Hs.
  rewrite List.filter_app. cbn [List.filter]. rewrite Hu.
  destruct (List.filter nonEmpty (splitSlash x) ++ [user])%list as [|p ps] eqn:E.
  { apply app_eq_nil in E. destruct E as [_ E]. discriminate E. }
  rewrite <- E, last_snoc, (trim_noSpace user Hsp), Hu. reflexivity.
Qed.

Lemma removeOrigin_https host rest :
  nonEmpty host = true -> noSlash host = true ->
  removeOrigin ("https://" +:+ host +:+ rest) = dropWhileNot isSlash (host +:+ rest)
  /\ removeOrigin ("http://" +:+ host +:+ rest) = dropWhileNot isSlash (host +:+ rest).
Proof.
  intros Hn Hs. destruct host as [|c h]; [discriminate|].
  unfold noSlash in Hs. cbn [allChars] in Hs. apply andb_true_iff in Hs.
  destruct Hs as [Hc _]. apply negb_true_iff in Hc.
  rewrite !(append_cons c h rest). set (t := h +:+ rest). unfold removeOrigin.
  change (afterLiteral "http" ("https://" +:+ String c t))
    with (Some (String "s" (String ":" (String "/" (String "/" (String c t)))))).
  change (afterLiteral "http" ("http://" +:+ String c t))
    with (Some (String ":" (String "/" (String "/" (String c t))))).
  cbv beta iota.
  change (Ascii.eqb (lowerAscii "s") "s") with true.
  change (Ascii.eqb (lowerAscii ":") "s") with false.
  cbv beta iota.
  change (afterLiteral "://" (String ":" (String "/" (String "/" (String c t)))))
    with (Some (String c t)).
  cbv beta iota. cbn [dropWhileNot]. rewrite Hc. split; reflexivity.
Qed.

(** * The claims *)




(** C2: a candidate skill is redundant exactly when its team coverage is
    strictly above 0.8 and value-add exactly when it is strictly below 0.2;
    a coverage of exactly 0.8 or 0.2 is neither, and no skill is both. The
    redundant list holds the redundant skills, the value-add list the
    others that are value-add. *)
Theorem C2_thresholds_are_strict (candidate : GenomeResponse.t) (team : TeamAggregate.t) :
  (forall strength,
     let d := skillDelta team strength in
     let c := SkillDelta.teamCoverage d in
     (SkillDelta.isRedundant d = true <-> gt c REDUNDANCY_THRESHOLD = true)
     /\ (SkillDelta.isValueAdd d = true <-> lt c VALUE_ADD_THRESHOLD = true)
     /\ (strictEq c REDUNDANCY_THRESHOLD = true \/ strictEq c VALUE_ADD_THRESHOLD = true ->
         SkillDelta.isRedundant d = false /\ SkillDelta.isValueAdd d = false)
     /\ ~ (SkillDelta.isRedundant d = true /\ SkillDelta.isValueAdd d = true))
  /\ (forall d, In d (DeltaAnalysis.redundantSkills (calculateDelta candidate team)) <->
        exists s, In s (candidateStrengths candidate) /\ d = skillDelta team s
                  /\ SkillDelta.isRedundant d = true)
  /\ (forall d, In d (DeltaAnalysis.valueAddSkills (calculateDelta candidate team)) <->
        exists s, In s (candidateStrengths candidate) /\ d = skillDelta team s
                  /\ SkillDelta.isRedundant d = false /\ SkillDelta.isValueAdd d = true)
  /\ (let at_ p := div (ofZ p) hundred in
      gt (at_ 80) REDUNDANCY_THRESHOLD = false /\ lt (at_ 80) VALUE_ADD_THRESHOLD = false
      /\ gt (at_ 20) REDUNDANCY_THRESHOLD = false /\ lt (at_ 20) VALUE_ADD_THRESHOLD = false
      /\ gt (at_ 81) REDUNDANCY_THRESHOLD = true /\ lt (at_ 19) VALUE_ADD_THRESHOLD = true).
Proof.
  split; [|split; [|split]].
  - intros strength d c. split; [reflexivity|]. split; [reflexivity|]. split.
    + change (SkillDelta.isRedundant d) with (gt c REDUNDANCY_THRESHOLD).
      change (SkillDelta.isValueAdd d) with (lt c VALUE_ADD_THRESHOLD).
      unfold gt, lt, strictEq. intros [H|H]; apply eqb_rank in H; destruct H as (Hc & _ & H).
      * split.
        -- destruct (SFltb REDUNDANCY_THRESHOLD c) eqn:E; [|reflexivity].
           apply ltb_rank in E. destruct E as (_ & _ & E). rewrite H in E. simpl in E. lia.
        -- destruct (SFltb c VALUE_ADD_THRESHOLD) eqn:E; [|reflexivity].
           apply ltb_rank in E. destruct E as (_ & _ & E). rewrite H in E. simpl in E. lia.
      * split.
        -- destruct (SFltb REDUNDANCY_THRESHOLD c) eqn:E; [|reflexivity].
           apply ltb_rank in E. destruct E as (_ & _ & E). rewrite H in E. simpl in E. lia.
        -- destruct (SFltb c VALUE_ADD_THRESHOLD) eqn:E; [|reflexivity].
           apply ltb_rank in E. destruct E as (_ & _ & E). rewrite H in E. simpl in E. lia.
    + intros [H1 H2]. exact (lt_thresholds_exclusive c H1 H2).
  - apply redundantSkills_In.
  - apply valueAddSkills_In.
  - vm_compute. repeat split.
Qed.

(** C3: the name of a candidate skill is compared with the names of the
    team skills after lower-casing both, and the delta keeps the
    candidate's spelling; but the lookup table keeps one team skill per
    lower-cased name, the last one of the aggregate, so that a candidate
    skill gets the coverage of that one, whatever its own spelling. In a
    team where nine of ten profiles list "Python" and one lists "python",
    a candidate with "Python" gets the coverage 0.1 of "python", not the
    0.9 of "Python", and the skill is reported as a value-add. *)
Theorem C3_last_spelling_wins :
  toLowerCase "Python" = toLowerCase "python" ->
  (let team := buildTeamAggregate (Some twoSpellings) in
   let d := skillDelta team (GenomeStrength.mk "Python" (Some Proficiency.expert)) in
   List.map (fun f => (SkillFrequency.skillName f, SkillFrequency.percentage f))
     (TeamAggregate.skills team)
   = [("Python", ofZ 90); ("python", ofZ 10)]
   /\ SkillDelta.skillName d = "Python"
   /\ SkillDelta.teamCoverage d = div (ofZ 10) hundred
   /\ SkillDelta.isRedundant d = false
   /\ SkillDelta.isValueAdd d = true)
  /\ (forall team strength,
        SkillDelta.skillName (skillDelta team strength) = GenomeStrength.name strength
        /\ SkillDelta.teamCoverage (skillDelta team strength)
           = match lastMatch (toLowerCase (GenomeStrength.name strength))
                     (TeamAggregate.skills team) with
             | Some f => div (SkillFrequency.percentage f) hundred
             | None => zero
             end).
Proof.
  intros Hlower.
  assert (forall team strength,
            SkillDelta.teamCoverage (skillDelta team strength)
            = match lastMatch (toLowerCase (GenomeStrength.name strength))
                      (TeamAggregate.skills team) with
              | Some f => div (SkillFrequency.percentage f) hundred
              | None => zero
              end) as Hlast.
  { intros team strength. unfold skillDelta. cbn [SkillDelta.teamCoverage].
    rewrite teamSkillMap_lookup. reflexivity. }
  split; [|intros team strength; split; [reflexivity | apply Hlast]].
  cbv zeta. split; [vm_compute; reflexivity|]. split; [reflexivity|].
  assert (SkillDelta.teamCoverage
            (skillDelta (buildTeamAggregate (Some twoSpellings))
               (GenomeStrength.mk "Python" (Some Proficiency.expert)))
          = div (ofZ 10) hundred) as Hcov.
  { rewrite Hlast. cbn [GenomeStrength.name].
    assert (TeamAggregate.skills (buildTeamAggregate (Some twoSpellings))
            = [SkillFrequency.mk "Python" 9 (ofZ 90) {[ "expert" := 9%nat ]};
               SkillFrequency.mk "python" 1 (ofZ 10) {[ "novice" := 1%nat ]}]) as ->
      by (vm_compute; reflexivity).
    unfold lastMatch. cbn [rev app List.find SkillFrequency.skillName].
    rewrite Hlower, String.eqb_refl. reflexivity. }
  split; [exact Hcov|].
  change (SkillDelta.isRedundant (skillDelta ?t ?s))
    with (gt (SkillDelta.teamCoverage (skillDelta t s)) REDUNDANCY_THRESHOLD).
  change (SkillDelta.isValueAdd (skillDelta ?t ?s))
    with (lt (SkillDelta.teamCoverage (skillDelta t s)) VALUE_ADD_THRESHOLD).
  rewrite Hcov. split; vm_compute; reflexivity.
Qed.

(** C4: the message of the value-add alert ends with "—skills your
    current team completely lacks." when one of the skills that the alert
    lists has a team coverage equal to 0, and with "—skills your current
    team has limited coverage in." otherwise. This holds for every delta
    whose value-add skills are in ascending order of non-negative
    coverage, as the alert generator expects them, and so for every delta
    computed against an aggregate of profiles. A candidate skill that no
    team profile has, whatever the case of its letters, is a value-add
    skill with coverage 0 and makes the message end with "completely
    lacks.". *)
Theorem C4_message_ending :
  (forall delta a,
     StronglySorted
       (fun x y => le (SkillDelta.teamCoverage x) (SkillDelta.teamCoverage y) = true)
       (DeltaAnalysis.valueAddSkills delta) ->
     Forall (fun s => le zero (SkillDelta.teamCoverage s) = true)
       (DeltaAnalysis.valueAddSkills delta) ->
     Alerts.valueAddAlert (generateAlerts delta) = Some a ->
     endsWith (if existsb uncovered (ValueAddAlert.skills a) then LACKS else LIMITED)
              (ValueAddAlert.message a) = true)
  /\ (forall genomes candidate a,
        let delta := calculateDelta candidate (buildTeamAggregate genomes) in
        Alerts.valueAddAlert (generateAlerts delta) = Some a ->
        endsWith (if existsb uncovered (ValueAddAlert.skills a) then LACKS else LIMITED)
                 (ValueAddAlert.message a) = true)
  /\ (forall genomes candidate strength,
        In strength (candidateStrengths candidate) ->
        (forall n, In n (observedNames genomes) ->
           toLowerCase n <> toLowerCase (GenomeStrength.name strength)) ->
        let team := buildTeamAggregate (Some genomes) in
        let delta := calculateDelta candidate team in
        exists a,
          Alerts.valueAddAlert (generateAlerts delta) = Some a
          /\ endsWith "completely lacks." (ValueAddAlert.message a) = true
          /\ In (skillDelta team strength) (DeltaAnalysis.valueAddSkills delta)
          /\ SkillDelta.teamCoverage (skillDelta team strength) = zero
          /\ ((length (DeltaAnalysis.valueAddSkills delta) <= 10)%nat ->
              In (skillDelta team strength) (ValueAddAlert.skills a))).
Proof.
  assert (forall delta a,
            Alerts.valueAddAlert (generateAlerts delta) = Some a ->
            a = ValueAddAlert.mk (valueAddMessage delta)
                  (firstn 10 (DeltaAnalysis.valueAddSkills delta))
                  (DeltaAnalysis.valueAddLanguages delta)
            /\ (0 < length (DeltaAnalysis.valueAddSkills delta)
                \/ 0 < length (DeltaAnalysis.valueAddLanguages delta))%nat) as Hinv.
  { intros delta a. unfold generateAlerts. cbn [Alerts.valueAddAlert].
    destruct (Nat.ltb_spec 0 (length (DeltaAnalysis.valueAddSkills delta))) as [Hs|Hs];
      destruct (Nat.ltb_spec 0 (length (DeltaAnalysis.valueAddLanguages delta))) as [Hl|Hl];
      cbn [orb]; intros Heq; inversion Heq; auto. }
  split; [|split].
  - intros delta a HS HF Ha. destruct (Hinv delta a Ha) as [-> Hne].
    cbn [ValueAddAlert.message ValueAddAlert.skills].
    rewrite <- (uncovered_in_prefix 9 _ HS HF).
    apply valueAddMessage_ending, Hne.
  - intros genomes candidate a delta Ha. destruct (Hinv delta a Ha) as [-> Hne].
    cbn [ValueAddAlert.message ValueAddAlert.skills].
    subst delta.
    assert (buildTeamAggregate genomes
            = buildTeamAggregate (Some match genomes with Some l => l | None => [] end))
      as E by (destruct genomes; reflexivity).
    rewrite E in *. rewrite <- pipeline_uncovered_listed.
    apply valueAddMessage_ending, Hne.
  - intros genomes candidate strength Hin Hnone team delta.
    assert (skillDelta team strength
            = SkillDelta.mk (GenomeStrength.name strength)
                (orUnknown (proficiencyOf strength)) zero ∅ false true) as Hd.
    { apply skillDelta_unmatched. intros f Hf. apply Hnone, aggregate_names, Hf. }
    assert (In (skillDelta team strength) (DeltaAnalysis.valueAddSkills delta)) as Hv.
    { apply valueAddSkills_In. exists strength. rewrite Hd. auto. }
    assert (existsb uncovered (DeltaAnalysis.valueAddSkills delta) = true) as Hex.
    { apply existsb_exists. exists (skillDelta team strength).
      split; [exact Hv | rewrite Hd; reflexivity]. }
    assert (0 < length (DeltaAnalysis.valueAddSkills delta))%nat as Hlen.
    { destruct (DeltaAnalysis.valueAddSkills delta); [contradiction | simpl; lia]. }
    eexists. split.
    { unfold generateAlerts. cbn [Alerts.valueAddAlert].
      rewrite (proj2 (Nat.ltb_lt _ _) Hlen). reflexivity. }
    cbn [ValueAddAlert.message ValueAddAlert.skills].
    split; [|split; [exact Hv|split; [rewrite Hd; reflexivity|]]].
    + apply (endsWith_trans _ LACKS); [reflexivity|].
      pose proof (valueAddMessage_ending delta (or_introl Hlen)) as H.
      rewrite Hex in H. exact H.
    + intros Hle. rewrite List.firstn_all2 by exact Hle. exact Hv.
Qed.

(** C5: for a delta that counts at least one team member, as every delta
    computed against an aggregate does when it has a redundant skill, the
    count of exact matches is [round(pct / 100 * totalTeamMembers)],
    where [pct] is the team's percentage at the candidate's proficiency
    (0 when there is none). When the count is positive it is the alert's
    count and the message names it, with "members" exactly when it
    exceeds 1; when it is 0 the message states the rounded coverage and
    the alert's count is [round(teamCoverage * totalTeamMembers)]. For a
    team of ten where nine have Go at expert, a candidate with Go at
    expert gets count 9, severity high and the message with "9 team
    members". *)
Theorem C5_exact_match_count :
  (forall delta a,
     (1 <= Summary.totalTeamMembers (DeltaAnalysis.summary delta))%nat ->
     In a (Alerts.redundancyAlerts (generateAlerts delta)) ->
     exists skill rest,
       RedundancyAlert.skills a = skill :: rest
       /\ In skill (DeltaAnalysis.redundantSkills delta)
       /\ let total := Summary.totalTeamMembers (DeltaAnalysis.summary delta) in
          let n := mathRound (mul (div (proficiencyPercentage skill) hundred) (ofNat total)) in
          (gt n zero = true ->
           RedundancyAlert.count a = n
           /\ RedundancyAlert.message a = exactMatchMessage n skill)
          /\ (strictEq n zero = true ->
              RedundancyAlert.message a = coverageMessage skill
              /\ RedundancyAlert.count a
                 = mathRound (mul (SkillDelta.teamCoverage skill) (ofNat total))))
  /\ (forall genomes candidate a,
        let delta := calculateDelta candidate (buildTeamAggregate genomes) in
        In a (Alerts.redundancyAlerts (generateAlerts delta)) ->
        (1 <= Summary.totalTeamMembers (DeltaAnalysis.summary delta))%nat
        /\ forall skill,
             In skill (RedundancyAlert.skills a) ->
             proficiencyPercentage skill
             = orElse (default zero
                         (SkillDelta.teamProficiencyDistribution skill
                            !! SkillDelta.candidateProficiency skill)) zero)
  /\ List.map (fun a => (RedundancyAlert.count a, RedundancyAlert.severity a,
                         RedundancyAlert.message a))
       (Alerts.redundancyAlerts
          (generateAlerts (calculateDelta goExpert (buildTeamAggregate nineOfTen))))
     = [(ofZ 9, high,
         "Warning: You already have 9 team members with Go at Expert proficiency level.")].
Proof.
  split; [|split].
  - intros delta a Hmem Ha.
    destruct (redundancyAlert_inv delta a Ha) as (skill & rest & Hg & ->).
    exists skill, rest. split; [reflexivity|]. split.
    { unfold groupsOf in Hg. apply in_map_iff in Hg. destruct Hg as (k & Hk & _).
      assert (In skill (List.filter (sameKey k) (DeltaAnalysis.redundantSkills delta))) as Hin
        by (rewrite Hk; simpl; auto).
      apply List.filter_In in Hin. tauto. }
    cbv zeta. rewrite alertOf_message. cbv zeta.
    cbn [alertOf RedundancyAlert.count].
    assert (membersOrOne (Summary.totalTeamMembers (DeltaAnalysis.summary delta))
            = Summary.totalTeamMembers (DeltaAnalysis.summary delta)) as ->.
    { unfold membersOrOne.
      destruct (Summary.totalTeamMembers (DeltaAnalysis.summary delta)); [lia | reflexivity]. }
    unfold exactMatchCount. set (n := mathRound _).
    split.
    + intros Hpos. rewrite Hpos. split; [|reflexivity].
      unfold orElse. destruct n as [[]|[]| |[] m e]; try discriminate; reflexivity.
    + intros Hz.
      assert (gt n zero = false) as ->
        by (destruct n as [[]|[]| |[] m e]; try discriminate; reflexivity).
      split; [reflexivity|].
      unfold orElse. destruct n as [[]|[]| |[] m e]; try discriminate; reflexivity.
  - intros genomes candidate a delta Ha. split.
    + apply redundant_needs_members.
      destruct (redundancyAlert_inv _ a Ha) as (skill & rest & Hg & _).
      unfold groupsOf in Hg. apply in_map_iff in Hg. destruct Hg as (k & Hk & _).
      intros Hnil. fold delta in Hnil. rewrite Hnil in Hk. discriminate Hk.
    + intros skill Hs.
      assert (In skill (DeltaAnalysis.redundantSkills delta)) as Hin.
      { apply (in_map RedundancyAlert.skills) in Ha. rewrite alerts_skills in Ha.
        unfold groupsOf in Ha. apply in_map_iff in Ha. destruct Ha as (k & Hk & _).
        rewrite <- Hk in Hs. apply List.filter_In in Hs. tauto. }
      apply redundantSkills_In in Hin. destruct Hin as (s & _ & -> & _).
      unfold proficiencyPercentage, getMember.
      destruct (SkillDelta.teamProficiencyDistribution _ !! _); [reflexivity|].
      change (SkillDelta.candidateProficiency (skillDelta (buildTeamAggregate genomes) s))
        with (orUnknown (proficiencyOf s)).
      rewrite (proj2 (proficiency_ordinary s)). reflexivity.
  - set (strength := GenomeStrength.mk "Go" (Some Proficiency.expert)).
    set (team := buildTeamAggregate nineOfTen).
    set (go := SkillDelta.mk "Go" "expert" (div (ofZ 90) hundred)
                 {[ "expert" := ofZ 90 ]} true false).
    assert (skillDelta team strength = go) as Hgo.
    { unfold skillDelta. rewrite teamSkillMap_lookup.
      assert (team = TeamAggregate.mk 10
                       [SkillFrequency.mk "Go" 9 (ofZ 90) {[ "expert" := 9%nat ]}]
                       noLanguages) as -> by (vm_compute; reflexivity).
      unfold lastMatch. cbn [TeamAggregate.skills rev app List.find SkillFrequency.skillName].
      subst strength. cbn [GenomeStrength.name]. rewrite String.eqb_refl.
      vm_compute. reflexivity. }
    assert (calculateDelta goExpert team
            = DeltaAnalysis.mk [go] [] [] (Summary.mk 1 0 0 10)) as ->.
    { rewrite calculateDelta_spec. unfold goExpert, candidateStrengths, candidateLanguages.
      cbn [GenomeResponse.strengths GenomeResponse.languages default List.map].
      fold strength. change (id [strength]) with [strength]. cbn [List.map].
      rewrite Hgo. reflexivity. }
    rewrite redundancyAlerts_spec. cbn [DeltaAnalysis.redundantSkills].
    assert (groupsOf [go] = [[go]]) as ->.
    { unfold groupsOf, firstSeen. cbn [List.map fold_left].
      unfold addKey. cbn [existsb app List.map List.filter].
      unfold sameKey. rewrite String.eqb_refl. reflexivity. }
    cbn [List.map List.hd]. vm_compute. reflexivity.
Qed.

(** C6: when the proficiency of no redundant skill contains an
    underscore, which holds for the five proficiency levels and for
    "unknown" and hence for every delta that [calculateDelta] computes,
    the redundancy alerts are the groups of the redundant skills under
    the pair of the lower-cased name and the proficiency: every redundant
    skill is in the list of exactly one alert, no list is empty, two
    skills are in the same alert exactly when their pairs are equal, and
    the list of an alert holds every redundant skill with the pair of its
    members. *)
Theorem C6_one_alert_per_pair :
  (forall delta,
     Forall (fun s => noUnderscore (SkillDelta.candidateProficiency s) = true)
       (DeltaAnalysis.redundantSkills delta) ->
     let redundant := DeltaAnalysis.redundantSkills delta in
     let alerts := Alerts.redundancyAlerts (generateAlerts delta) in
     let pair s := (toLowerCase (SkillDelta.skillName s), SkillDelta.candidateProficiency s) in
     Permutation (List.concat (List.map RedundancyAlert.skills alerts)) redundant
     /\ Forall (fun a => RedundancyAlert.skills a <> []) alerts
     /\ (forall a s1 s2,
           In a alerts -> In s1 (RedundancyAlert.skills a) -> In s2 (RedundancyAlert.skills a) ->
           pair s1 = pair s2)
     /\ (forall a1 a2 s1 s2,
           In a1 alerts -> In s1 (RedundancyAlert.skills a1) ->
           In a2 alerts -> In s2 (RedundancyAlert.skills a2) ->
           pair s1 = pair s2 -> a1 = a2)
     /\ (forall a s,
           In a alerts -> In s (RedundancyAlert.skills a) ->
           RedundancyAlert.skills a
           = List.filter (fun x => bool_decide (pair x = pair s)) redundant))
  /\ (forall candidate team,
        Forall (fun s => noUnderscore (SkillDelta.candidateProficiency s) = true)
          (DeltaAnalysis.redundantSkills (calculateDelta candidate team))).
Proof.
  split.
  - intros delta Htyped. cbv zeta.
    set (redundant := DeltaAnalysis.redundantSkills delta) in *.
    pose proof (alerts_skills delta) as Hskills. fold redundant in Hskills.
    rewrite List.Forall_forall in Htyped.
    assert (forall s1 s2, In s1 redundant -> In s2 redundant ->
              (groupKey s1 = groupKey s2
               <-> (toLowerCase (SkillDelta.skillName s1), SkillDelta.candidateProficiency s1)
                   = (toLowerCase (SkillDelta.skillName s2), SkillDelta.candidateProficiency s2)))
      as Hkey.
    { intros s1 s2 H1 H2. unfold groupKey. split.
      - intros H. destruct (key_injective _ _ _ _ (Htyped _ H1) (Htyped _ H2) H) as [-> ->].
        reflexivity.
      - intros [= -> ->]. reflexivity. }
    assert (forall a s, In a (Alerts.redundancyAlerts (generateAlerts delta)) ->
              In s (RedundancyAlert.skills a) ->
              In s redundant
              /\ a = alertOf delta (leader (List.filter (sameKey (groupKey s)) redundant))
                       (List.filter (sameKey (groupKey s)) redundant)) as Hgroup.
    { intros a s Ha Hs. rewrite redundancyAlerts_spec in Ha. apply in_map_iff in Ha.
      destruct Ha as (g & <- & Hg). cbn [alertOf RedundancyAlert.skills] in Hs.
      unfold groupsOf in Hg. apply in_map_iff in Hg. destruct Hg as (k & <- & _).
      fold redundant in Hs |- *.
      pose proof Hs as Hs'. apply List.filter_In in Hs'. destruct Hs' as [Hin Hk].
      unfold sameKey in Hk. apply String.eqb_eq in Hk. subst k.
      split; [exact Hin | reflexivity]. }
    split; [rewrite Hskills; apply groupsOf_partition|]. split.
    { apply List.Forall_forall. intros a Ha.
      apply (groupsOf_nonempty redundant). rewrite <- Hskills. apply in_map, Ha. }
    split.
    { intros a s1 s2 Ha H1 H2.
      destruct (Hgroup a s1 Ha H1) as [I1 E1]. destruct (Hgroup a s2 Ha H2) as [I2 _].
      apply Hkey; [assumption..|].
      rewrite E1 in H2. cbn [alertOf RedundancyAlert.skills] in H2.
      apply List.filter_In in H2. destruct H2 as [_ H2]. unfold sameKey in H2.
      apply String.eqb_eq in H2. symmetry. exact H2. }
    split.
    { intros a1 a2 s1 s2 Ha1 H1 Ha2 H2 Hp.
      destruct (Hgroup a1 s1 Ha1 H1) as [I1 ->]. destruct (Hgroup a2 s2 Ha2 H2) as [I2 ->].
      rewrite (proj2 (Hkey s1 s2 I1 I2) Hp). reflexivity. }
    intros a s Ha Hs. destruct (Hgroup a s Ha Hs) as [I ->].
    cbn [alertOf RedundancyAlert.skills]. apply List.filter_ext_in.
    intros x Hx. unfold sameKey. destruct (String.eqb_spec (groupKey x) (groupKey s)) as [E|E].
    + symmetry. apply bool_decide_eq_true. apply Hkey; assumption.
    + symmetry. apply bool_decide_eq_false. intros Hp. apply E, Hkey; assumption.
  - intros candidate team. apply List.Forall_forall. intros d Hd.
    apply redundantSkills_In in Hd. destruct Hd as (s & _ & -> & _).
    change (SkillDelta.candidateProficiency (skillDelta team s))
      with (orUnknown (proficiencyOf s)).
    pose proof (orUnknown_proficiency s) as H. cbn [In] in H.
    destruct H as [<-|[<-|[<-|[<-|[<-|[<-|[]]]]]]]; reflexivity.
Qed.

(** C7: the severity of a redundancy alert is high exactly when the team
    coverage of its leading skill is at least 0.9, medium exactly when it
    is at least 0.85 and below 0.9, and low otherwise, which for a
    redundant skill means a coverage above 0.8 and below 0.85. *)
Theorem C7_severity_cutoffs (delta : DeltaAnalysis.t) (a : RedundancyAlert.t) :
  In a (Alerts.redundancyAlerts (generateAlerts delta)) ->
  (exists skill rest,
     RedundancyAlert.skills a = skill :: rest
     /\ In skill (DeltaAnalysis.redundantSkills delta)
     /\ let c := SkillDelta.teamCoverage skill in
        (RedundancyAlert.severity a = high <-> ge c HIGH_SEVERITY = true)
        /\ (RedundancyAlert.severity a = medium <->
            ge c MEDIUM_SEVERITY = true /\ lt c HIGH_SEVERITY = true)
        /\ (RedundancyAlert.severity a = low <-> ge c MEDIUM_SEVERITY = false)
        /\ (gt c REDUNDANCY_THRESHOLD = true ->
            (RedundancyAlert.severity a = low <-> lt c MEDIUM_SEVERITY = true)))
  /\ (let at_ n d := div (ofZ n) (ofZ d) in
      severityOf (at_ 90 100) = high /\ severityOf (at_ 89 100) = medium
      /\ severityOf (at_ 85 100) = medium /\ severityOf (at_ 84 100) = low
      /\ severityOf (at_ 80001 100000) = low).
Proof.
  intros Ha. split; [|vm_compute; repeat split].
  destruct (redundancyAlert_inv delta a Ha) as (skill & rest & Hg & ->).
  exists skill, rest. split; [reflexivity|]. split.
  { unfold groupsOf in Hg. apply in_map_iff in Hg. destruct Hg as (k & Hk & _).
    assert (In skill (List.filter (sameKey k) (DeltaAnalysis.redundantSkills delta))) as Hin
      by (rewrite Hk; simpl; auto).
    apply List.filter_In in Hin. tauto. }
  cbn [alertOf RedundancyAlert.severity]. unfold severityOf.
  set (c := SkillDelta.teamCoverage skill). cbv zeta.
  assert (ge c HIGH_SEVERITY = true -> ge c MEDIUM_SEVERITY = true) as Hmono.
  { unfold ge. intros H. apply (le_trans _ HIGH_SEVERITY); [reflexivity | exact H]. }
  assert (ge c MEDIUM_SEVERITY = true -> ge c HIGH_SEVERITY = false -> lt c HIGH_SEVERITY = true)
    as Hbelow.
  { unfold ge. intros H1 H2. apply le_total; [reflexivity| |exact H2].
    apply leb_rank in H1. tauto. }
  assert (lt c HIGH_SEVERITY = true -> ge c HIGH_SEVERITY = false) as Hnot
    by (apply lt_irrefl_le).
  destruct (ge c HIGH_SEVERITY) eqn:Eh.
  - rewrite (Hmono eq_refl).
    split; [tauto|]. split.
    { split; [discriminate|]. intros [_ H]. apply Hnot in H. discriminate. }
    split; [split; discriminate|].
    intros _. split; [discriminate|]. intros H.
    apply lt_irrefl_le in H. change (ge c MEDIUM_SEVERITY = false) in H.
    rewrite (Hmono eq_refl) in H. discriminate.
  - destruct (ge c MEDIUM_SEVERITY) eqn:Em.
    + split; [split; discriminate|]. split; [split; auto|].
      split; [split; discriminate|].
      intros _. split; [discriminate|]. intros H.
      apply lt_irrefl_le in H. change (ge c MEDIUM_SEVERITY = false) in H. congruence.
    + split; [split; discriminate|]. split; [split; [discriminate | intros [? _]; discriminate]|].
      split; [tauto|].
      intros Hr. split; [|reflexivity]. intros _.
      apply le_total; [reflexivity | | exact Em].
      apply lt_notNaN in Hr. tauto.
Qed.

(** C8: when there are more than ten value-add skills, the alert lists
    exactly the first ten of them and every value-add language, while the
    count in the summary that [calculateDelta] returns is the length of
    the whole list. *)
Theorem C8_alert_lists_first_ten (delta : DeltaAnalysis.t) :
  (10 < length (DeltaAnalysis.valueAddSkills delta))%nat ->
  (exists a,
     Alerts.valueAddAlert (generateAlerts delta) = Some a
     /\ ValueAddAlert.skills a = firstn 10 (DeltaAnalysis.valueAddSkills delta)
     /\ length (ValueAddAlert.skills a) = 10%nat
     /\ ValueAddAlert.languages a = DeltaAnalysis.valueAddLanguages delta)
  /\ (forall candidate team,
        delta = calculateDelta candidate team ->
        Summary.totalValueAddSkills (DeltaAnalysis.summary delta)
        = length (DeltaAnalysis.valueAddSkills delta)).
Proof.
  intros Hlen. split.
  - unfold generateAlerts. cbn [Alerts.valueAddAlert].
    assert (Nat.ltb 0 (length (DeltaAnalysis.valueAddSkills delta)) = true) as ->
      by (apply Nat.ltb_lt; lia).
    cbn [orb].
    eexists. split; [reflexivity|]. cbn [ValueAddAlert.skills ValueAddAlert.languages].
    split; [reflexivity|]. split; [|reflexivity].
    rewrite List.length_firstn. apply Nat.min_l. lia.
  - intros candidate team ->. rewrite calculateDelta_spec. reflexivity.
Qed.

(** C9: the skills of the aggregate are in descending order of count,
    skills of equal count staying in the order in which their names were
    first met; the redundant skills are in descending and the value-add
    skills in ascending order of team coverage; the value-add languages
    are the candidate's rare languages in the order of declaration. *)
Theorem C9_output_orderings (genomes : list GenomeResponse.t)
    (candidate : GenomeResponse.t) (team : TeamAggregate.t) :
  (let out := TeamAggregate.skills (buildTeamAggregate (Some genomes)) in
   StronglySorted (fun a b => (SkillFrequency.count b <= SkillFrequency.count a)%nat) out
   /\ forall c,
        List.map SkillFrequency.skillName
          (List.filter (fun f => Nat.eqb (SkillFrequency.count f) c) out)
        = List.filter (fun k => Nat.eqb (occurrences k (observedNames genomes)) c)
            (firstSeen (observedNames genomes)))
  /\ (let delta := calculateDelta candidate team in
      StronglySorted
        (fun a b => le (SkillDelta.teamCoverage b) (SkillDelta.teamCoverage a) = true)
        (DeltaAnalysis.redundantSkills delta)
      /\ StronglySorted
           (fun a b => le (SkillDelta.teamCoverage a) (SkillDelta.teamCoverage b) = true)
           (DeltaAnalysis.valueAddSkills delta)
      /\ DeltaAnalysis.valueAddLanguages delta
         = List.map (languageDelta team)
             (List.filter (rareLanguage team) (candidateLanguages candidate))).
Proof.
  split.
  - cbv zeta.
    assert (TeamAggregate.skills (buildTeamAggregate (Some genomes))
            = sortBy byCountDesc (talliedSkills genomes)) as ->.
    { destruct genomes as [|g gs]; [reflexivity | apply aggregate_skills]. }
    split.
    + apply Sorted_StronglySorted; [intros a b c; lia|].
      apply sortBy_Sorted. intros x y _ _. unfold byCountDesc.
      destruct (Z.ltb_spec 0 (Z.of_nat (SkillFrequency.count y) - Z.of_nat (SkillFrequency.count x))); lia.
    + intros c. rewrite sortBy_filter.
      * rewrite <- talliedSkills_names. apply map_filter_ext.
        intros f Hf. destruct (talliedSkills_spec genomes f Hf) as [-> _]. reflexivity.
      * intros x y _ _ Hx Hy. apply Nat.eqb_eq in Hx, Hy. unfold byCountDesc.
        apply Z.ltb_ge. lia.
  - cbv zeta. split; [apply redundantSkills_sorted|].
    split; [apply valueAddSkills_sorted|].
    rewrite calculateDelta_spec. reflexivity.
Qed.

(** C10: an empty or absent collection of profiles aggregates to
    [{totalMembers: 0, skills: [], languages: {}}], the only aggregate
    with no members. Against it every candidate skill gets a team
    coverage of [0] and an empty proficiency distribution, nothing is
    redundant, and no redundancy alert is computed. A candidate language
    gets the coverage [0], except under a code that is the name of a
    member of [Object.prototype]: for such a code, "constructor" for one,
    the lookup in the empty object finds the inherited member, the
    coverage is [NaN], and the language is left out of the value-add
    languages. *)
Theorem C10_empty_team (candidate : GenomeResponse.t) :
  buildTeamAggregate None = TeamAggregate.mk 0 [] noLanguages
  /\ buildTeamAggregate (Some []) = TeamAggregate.mk 0 [] noLanguages
  /\ (forall genomes,
        TeamAggregate.totalMembers (buildTeamAggregate genomes) = 0%nat ->
        buildTeamAggregate genomes = TeamAggregate.mk 0 [] noLanguages)
  /\ (let team := TeamAggregate.mk 0 [] noLanguages in
      let delta := calculateDelta candidate team in
      DeltaAnalysis.redundantSkills delta = []
      /\ DeltaAnalysis.valueAddSkills delta
         = List.map (fun s => SkillDelta.mk (GenomeStrength.name s)
                                (orUnknown (proficiencyOf s)) zero ∅ false true)
                    (candidateStrengths candidate)
      /\ (forall code,
            languageCoverage team code = if isInherited code then S754_nan else zero)
      /\ languageCoverage team "constructor" = S754_nan
      /\ DeltaAnalysis.valueAddLanguages delta
         = List.map (fun l => LanguageDelta.mk (GenomeLanguage.code l) (GenomeLanguage.language l)
                                (orUnknown (fluencyOf l)) zero true)
                    (List.filter (fun l => negb (isInherited (GenomeLanguage.code l)))
                       (candidateLanguages candidate))
      /\ Summary.totalTeamMembers (DeltaAnalysis.summary delta) = 0%nat
      /\ Alerts.redundancyAlerts (generateAlerts delta) = []).
Proof.
  split; [reflexivity|]. split; [reflexivity|]. split.
  { intros [[|g gs]|]; try reflexivity.
    rewrite aggregate_totalMembers. discriminate. }
  change (TeamAggregate.mk 0 [] noLanguages) with emptyAggregate. cbv zeta.
  pose proof (redundantSkills_empty candidate) as Hred.
  assert (forall code,
            languageCoverage emptyAggregate code = if isInherited code then S754_nan else zero)
    as Hcov.
  { intros code. unfold languageCoverage, getLanguage.
    cbn [emptyAggregate TeamAggregate.languages noLanguages Languages.own Languages.prototype].
    rewrite lookup_empty. destruct (isInherited code); reflexivity. }
  split; [exact Hred|]. split; [|split; [exact Hcov|split; [reflexivity|split; [|split]]]].
  - rewrite calculateDelta_spec. cbn [DeltaAnalysis.valueAddSkills].
    rewrite (List.map_ext _ _ skillDelta_empty).
    rewrite filter_all.
    + apply sortBy_id. intros x y Hx Hy.
      apply in_map_iff in Hx, Hy. destruct Hx as (sx & <- & _), Hy as (sy & <- & _).
      reflexivity.
    + intros d Hd. apply in_map_iff in Hd. destruct Hd as (s & <- & _). reflexivity.
  - rewrite calculateDelta_spec. cbn [DeltaAnalysis.valueAddLanguages].
    induction (candidateLanguages candidate) as [|l r IH]; [reflexivity|].
    cbn [List.filter]. unfold rareLanguage at 1. rewrite Hcov.
    destruct (isInherited (GenomeLanguage.code l)) eqn:E; cbn [negb].
    + exact IH.
    + change (lt zero VALUE_ADD_THRESHOLD) with true. cbn [List.map]. rewrite IH.
      unfold languageDelta. rewrite Hcov, E. reflexivity.
  - rewrite calculateDelta_spec. reflexivity.
  - unfold generateAlerts. cbn [Alerts.redundancyAlerts]. rewrite Hred. reflexivity.
Qed.

(** * Further properties *)

(** ** buildTeamAggregate *)

(** The aggregate has exactly one skill per distinct name observed in the
    profiles, names that differ by case being distinct, and the counts of
    its skills add up to the number of observations: none is lost and
    none is counted twice. *)
Theorem one_skill_per_name (genomes : list GenomeResponse.t) :
  let skills := TeamAggregate.skills (buildTeamAggregate (Some genomes)) in
  List.NoDup (List.map SkillFrequency.skillName skills)
  /\ (forall k, In k (List.map SkillFrequency.skillName skills) <-> In k (observedNames genomes))
  /\ length skills = length (firstSeen (observedNames genomes))
  /\ list_sum (List.map SkillFrequency.count skills) = length (observedNames genomes).
Proof.
  cbv zeta. pose proof (aggregate_skill_names genomes) as Hp.
  split; [|split; [|split]].
  - apply (Permutation_NoDup (Permutation_sym Hp)), firstSeen_NoDup.
  - intros k. rewrite <- (firstSeen_In (observedNames genomes)).
    split; apply Permutation_in; [exact Hp | apply Permutation_sym, Hp].
  - rewrite <- (List.length_map SkillFrequency.skillName). apply Permutation_length, Hp.
  - rewrite <- (sum_occurrences (firstSeen (observedNames genomes)) (observedNames genomes)).
    + destruct genomes as [|g gs]; [reflexivity|].
      rewrite aggregate_skills.
      transitivity (list_sum (List.map SkillFrequency.count (talliedSkills (g :: gs)))).
      { apply list_sum_perm, Permutation_map, sortBy_perm. }
      rewrite <- talliedSkills_names, List.map_map. f_equal.
      apply List.map_ext_in. intros f Hf. apply (talliedSkills_spec _ _ Hf).
    + apply firstSeen_NoDup.
    + intros x Hx. apply firstSeen_In, Hx.
Qed.

(** Every skill of the aggregate says, for each proficiency level, how
    many observations of the skill have that level, an absent or empty
    proficiency counting as "unknown"; a level that is listed was
    observed at least once, and the counters of the levels add up to the
    count of the skill. *)
Theorem proficiency_levels_add_up (genomes : list GenomeResponse.t) (f : SkillFrequency.t) :
  In f (TeamAggregate.skills (buildTeamAggregate (Some genomes))) ->
  (forall p,
     default 0%nat (SkillFrequency.proficiencyLevels f !! p)
     = occurrencesAt (SkillFrequency.skillName f) p (flat_map strengthObservations genomes))
  /\ (forall p c, SkillFrequency.proficiencyLevels f !! p = Some c -> (1 <= c)%nat)
  /\ sumLevels (SkillFrequency.proficiencyLevels f) = SkillFrequency.count f.
Proof.
  intros H. destruct (aggregate_skill_tally genomes f H) as (d & Hd & Hf).
  destruct (tallyAll_spec (flat_map strengthObservations genomes) (SkillFrequency.skillName f))
    as [_ Hs].
  rewrite Hd in Hs. destruct Hs as (_ & _ & Hn & Hsum & Hl & Hpos).
  pose proof (levels_ordinary _ _ _ (strengthObservations_ordinary genomes) Hd) as Hp.
  rewrite Hf. cbn [toSkillFrequency SkillFrequency.proficiencyLevels SkillFrequency.count
                   SkillFrequency.skillName].
  split; [|split].
  - intros p. rewrite toObject_lookup by assumption. apply Hl.
  - intros p c. rewrite toObject_lookup by assumption. apply Hpos.
  - rewrite sumLevels_toObject by assumption. symmetry. exact Hsum.
Qed.

Lemma proficiency_levels_add_up_witness :
  sumLevels {[ "expert" := 1%nat; "novice" := 1%nat ]} = 2%nat.
Proof.
  refine (proj2 (proj2 (proficiency_levels_add_up listedTwice
                   (SkillFrequency.mk "Go" 2 (ofZ 200) {[ "expert" := 1%nat; "novice" := 1%nat ]})
                   _))).
  left. vm_compute. reflexivity.
Defined.


(** In a team whose profiles list no skill twice every team coverage
    that [calculateDelta] computes for a skill is a fraction between 0
    and 1. So is the coverage of a language when no profile lists a
    language code twice, as long as the code is the name of no member of
    [Object.prototype] and no profile of the team lists the code
    [__proto__]; the coverage of a language under the name of such a
    member, when no profile lists it, is [NaN]. *)
Theorem coverage_is_a_fraction (genomes : list GenomeResponse.t) :
  Z.of_nat (length genomes) < 2 ^ 53 ->
  let team := buildTeamAggregate (Some genomes) in
  (Forall (fun g => List.NoDup (strengthNames g)) genomes ->
   forall strength,
     le zero (SkillDelta.teamCoverage (skillDelta team strength)) = true
     /\ le (SkillDelta.teamCoverage (skillDelta team strength)) one = true)
  /\ (Forall (fun g => List.NoDup (languageCodes g)) genomes ->
      ~ In "__proto__" (flat_map languageCodes genomes) ->
      forall code,
        isInherited code = false ->
        le zero (languageCoverage team code) = true
        /\ le (languageCoverage team code) one = true)
  /\ (forall code,
        isInherited code = true ->
        ~ In code (flat_map languageCodes genomes) ->
        ~ In "__proto__" (flat_map languageCodes genomes) ->
        languageCoverage team code = S754_nan).
Proof.
  intros Hlt. cbv zeta. split; [|split].
  - intros Hnd strength. unfold skillDelta. cbn [SkillDelta.teamCoverage].
    rewrite teamSkillMap_lookup.
    destruct (lastMatch _ _) as [f|] eqn:E; [|split; reflexivity].
    apply lastMatch_Some in E. destruct E as [Hin _].
    destruct (aggregate_percentage genomes f Hin) as [Hc Hp].
    destruct (occurrences_profilesWith (SkillFrequency.skillName f) genomes Hnd) as [H1 H2].
    rewrite Hp. apply fraction_of_percentage; [lia| |exact Hlt].
    destruct genomes; [destruct Hin | simpl; lia].
  - intros Hnd Hproto code Hcode.
    rewrite languageCodes_observations in Hproto.
    rewrite languageCoverage_pipeline by assumption.
    pose proof (languages_spec genomes code) as Hs.
    destruct (storedLanguage _ code) as [entry|]; [|split; reflexivity].
    destruct Hs as (Hin & Hc & Hp).
    rewrite Hp. apply fraction_of_percentage; [| |exact Hlt].
    + rewrite Hc, <- languageCodes_observations.
      apply (occurrences_once_per_profile languageCodes). exact Hnd.
    + destruct genomes; [destruct Hin | simpl; lia].
  - intros code Hcode Hno Hproto. rewrite languageCodes_observations in Hno, Hproto.
    unfold languageCoverage, getLanguage.
    pose proof (languages_spec genomes code) as Hs.
    pose proof (languages_spec genomes "__proto__") as Hq.
    unfold storedLanguage in Hs, Hq. cbn [String.eqb Ascii.eqb Bool.eqb] in Hq.
    destruct (Languages.prototype _) as [entry|]; [destruct Hq as [Hin _]; contradiction|].
    destruct (String.eqb_spec code "__proto__") as [->|Hne].
    + rewrite aggregate_languages_own. reflexivity.
    + destruct (Languages.own _ !! code) as [entry|];
        [destruct Hs as [Hin _]; contradiction|].
      rewrite Hcode. reflexivity.
Qed.

(** ** calculateDelta *)

(** Every candidate skill is classified once: the redundant skills, the
    value-add skills and the remaining ones are, together, the candidate's
    skills, each with its flags; the summary counts the lists that are
    returned and repeats the size of the team. *)
Theorem every_skill_classified_once (candidate : GenomeResponse.t) (team : TeamAggregate.t) :
  let delta := calculateDelta candidate team in
  let all := List.map (skillDelta team) (candidateStrengths candidate) in
  Permutation (DeltaAnalysis.redundantSkills delta ++ DeltaAnalysis.valueAddSkills delta
               ++ List.filter unremarkable all) all
  /\ Forall (fun d => SkillDelta.isRedundant d = true /\ SkillDelta.isValueAdd d = false)
       (DeltaAnalysis.redundantSkills delta)
  /\ Forall (fun d => SkillDelta.isRedundant d = false /\ SkillDelta.isValueAdd d = true)
       (DeltaAnalysis.valueAddSkills delta)
  /\ (length (DeltaAnalysis.redundantSkills delta) + length (DeltaAnalysis.valueAddSkills delta)
      <= length (candidateStrengths candidate))%nat
  /\ DeltaAnalysis.summary delta
     = Summary.mk (length (DeltaAnalysis.redundantSkills delta))
         (length (DeltaAnalysis.valueAddSkills delta))
         (length (DeltaAnalysis.valueAddLanguages delta))
         (TeamAggregate.totalMembers team).
Proof.
  cbv zeta.
  assert (Permutation
            (DeltaAnalysis.redundantSkills (calculateDelta candidate team)
             ++ DeltaAnalysis.valueAddSkills (calculateDelta candidate team)
             ++ List.filter unremarkable (List.map (skillDelta team) (candidateStrengths candidate)))
            (List.map (skillDelta team) (candidateStrengths candidate))) as Hp.
  { rewrite calculateDelta_spec.
    cbn [DeltaAnalysis.redundantSkills DeltaAnalysis.valueAddSkills].
    etransitivity; [|apply (filter_three SkillDelta.isRedundant onlyValueAdd unremarkable)].
    - apply Permutation_app; [apply sortBy_perm|].
      apply Permutation_app; [apply sortBy_perm | reflexivity].
    - intros d Hd. apply in_map_iff in Hd. destruct Hd as (s & <- & _).
      unfold onlyValueAdd, unremarkable.
      destruct (SkillDelta.isRedundant (skillDelta team s)) eqn:E.
      + rewrite (skillDelta_flags _ _ E). auto.
      + destruct (SkillDelta.isValueAdd (skillDelta team s)); auto. }
  split; [exact Hp|]. split; [|split; [|split]].
  - apply List.Forall_forall. intros d Hd. apply redundantSkills_In in Hd.
    destruct Hd as (s & _ & -> & Hr). split; [exact Hr | apply skillDelta_flags, Hr].
  - apply List.Forall_forall. intros d Hd. apply valueAddSkills_In in Hd.
    destruct Hd as (s & _ & -> & Hr & Hv). split; assumption.
  - apply Permutation_length in Hp. rewrite !List.length_app, List.length_map in Hp. lia.
  - rewrite calculateDelta_spec. reflexivity.
Qed.

(** The value-add languages are the candidate's languages whose team
    coverage is below 0.2, each flagged as a value-add.  In a team where
    no profile lists the code [__proto__], a language that no profile
    lists is one of them, with coverage 0, so that a value-add alert is
    produced, unless its code is the name of a member of
    [Object.prototype]: then its coverage is [NaN] and it is not among
    the value-add languages. *)
Theorem language_nobody_speaks_is_a_value_add (genomes : list GenomeResponse.t)
    (candidate : GenomeResponse.t) :
  let team := buildTeamAggregate (Some genomes) in
  let delta := calculateDelta candidate team in
  let observed := List.map fst (flat_map languageObservations genomes) in
  Forall (fun d => LanguageDelta.isValueAdd d = true
                   /\ lt (LanguageDelta.teamCoverage d) VALUE_ADD_THRESHOLD = true
                   /\ exists lang, In lang (candidateLanguages candidate)
                                   /\ d = languageDelta team lang)
    (DeltaAnalysis.valueAddLanguages delta)
  /\ (forall lang,
        In lang (candidateLanguages candidate) ->
        ~ In "__proto__" observed ->
        ~ In (GenomeLanguage.code lang) observed ->
        if isInherited (GenomeLanguage.code lang)
        then LanguageDelta.teamCoverage (languageDelta team lang) = S754_nan
             /\ ~ In (languageDelta team lang) (DeltaAnalysis.valueAddLanguages delta)
        else In (languageDelta team lang) (DeltaAnalysis.valueAddLanguages delta)
             /\ LanguageDelta.teamCoverage (languageDelta team lang) = zero
             /\ exists a, Alerts.valueAddAlert (generateAlerts delta) = Some a
                          /\ In (languageDelta team lang) (ValueAddAlert.languages a)).
Proof.
  cbv zeta. set (team := buildTeamAggregate (Some genomes)).
  assert (DeltaAnalysis.valueAddLanguages (calculateDelta candidate team)
          = List.map (languageDelta team)
              (List.filter (rareLanguage team) (candidateLanguages candidate))) as Hl
    by (rewrite calculateDelta_spec; reflexivity).
  split.
  - rewrite Hl. apply List.Forall_forall. intros d Hd. apply in_map_iff in Hd.
    destruct Hd as (lang & <- & Hin). apply List.filter_In in Hin. destruct Hin as [Hin Hr].
    split; [reflexivity|]. split; [exact Hr|]. exists lang. auto.
  - intros lang Hin Hproto Hno.
    destruct (isInherited (GenomeLanguage.code lang)) eqn:Hcode.
    + assert (languageCoverage team (GenomeLanguage.code lang) = S754_nan) as Hnan.
      { unfold languageCoverage, getLanguage.
        pose proof (languages_spec genomes (GenomeLanguage.code lang)) as Hs.
        pose proof (languages_spec genomes "__proto__") as Hq.
        unfold storedLanguage in Hs, Hq. cbn [String.eqb Ascii.eqb Bool.eqb] in Hq.
        fold team in Hs, Hq.
        destruct (Languages.prototype _) as [entry|];
          [destruct Hq as [Hq _]; contradiction|].
        destruct (String.eqb_spec (GenomeLanguage.code lang) "__proto__") as [->|Hne].
        - subst team. rewrite aggregate_languages_own. reflexivity.
        - destruct (Languages.own _ !! GenomeLanguage.code lang) as [entry|];
            [destruct Hs as [Hs _]; contradiction|].
          rewrite Hcode. reflexivity. }
      split; [exact Hnan|].
      rewrite Hl. intros Hd. apply in_map_iff in Hd. destruct Hd as (other & Eq & Ho).
      apply List.filter_In in Ho. destruct Ho as [_ Hr]. unfold rareLanguage in Hr.
      assert (GenomeLanguage.code other = GenomeLanguage.code lang) as Ec
        by (apply (f_equal LanguageDelta.languageCode) in Eq; exact Eq).
      rewrite Ec, Hnan in Hr. discriminate Hr.
    + pose proof (rareLanguage_unknown genomes lang Hcode Hproto Hno) as Hz. fold team in Hz.
      assert (In (languageDelta team lang)
                 (DeltaAnalysis.valueAddLanguages (calculateDelta candidate team))) as Hd.
      { rewrite Hl. apply in_map, List.filter_In. split; [exact Hin|].
        unfold rareLanguage. rewrite Hz. reflexivity. }
      split; [exact Hd|]. split; [exact Hz|].
      unfold generateAlerts. cbn [Alerts.valueAddAlert].
      destruct (DeltaAnalysis.valueAddLanguages (calculateDelta candidate team)) as [|x r] eqn:E;
        [destruct Hd|].
      rewrite orb_true_r. eexists. split; [reflexivity|]. exact Hd.
Qed.

(** A skill that every member of the team lists, once and under one
    spelling, is fully covered: a candidate who has it gets team coverage
    1, the skill is redundant, and it is reported by an alert of high
    severity. *)
Theorem skill_of_every_member_is_redundant (genomes : list GenomeResponse.t)
    (candidate : GenomeResponse.t) (strength : GenomeStrength.t) :
  (1 <= length genomes <= checkedTeamSize)%nat ->
  Forall (fun g => occurrences (GenomeStrength.name strength) (strengthNames g) = 1%nat) genomes ->
  (forall n, In n (observedNames genomes) ->
     toLowerCase n = toLowerCase (GenomeStrength.name strength) ->
     n = GenomeStrength.name strength) ->
  In strength (candidateStrengths candidate) ->
  let team := buildTeamAggregate (Some genomes) in
  let delta := calculateDelta candidate team in
  let d := skillDelta team strength in
  SkillDelta.teamCoverage d = one
  /\ In d (DeltaAnalysis.redundantSkills delta)
  /\ exists a,
       In a (Alerts.redundancyAlerts (generateAlerts delta))
       /\ In d (RedundancyAlert.skills a)
       /\ RedundancyAlert.severity a = high.
Proof.
  intros Hlen Hall Hspell Hin. cbv zeta.
  assert (forall s : GenomeStrength.t, noUnderscore (orUnknown (proficiencyOf s)) = true)
    as Hprof.
  { intros s. pose proof (orUnknown_proficiency s) as H. cbn [In] in H.
    destruct H as [<-|[<-|[<-|[<-|[<-|[<-|[]]]]]]]; reflexivity. }
  set (team := buildTeamAggregate (Some genomes)).
  set (name := GenomeStrength.name strength) in *.
  pose proof (occurrences_every_profile name genomes Hall) as Hocc.
  assert (In name (observedNames genomes)) as Hname
    by (apply occurrences_positive_In; lia).
  assert (SkillDelta.teamCoverage (skillDelta team strength) = one) as Hcov.
  { unfold skillDelta. cbn [SkillDelta.teamCoverage]. rewrite teamSkillMap_lookup. fold name.
    destruct (lastMatch (toLowerCase name) (TeamAggregate.skills team)) as [f|] eqn:E.
    - apply lastMatch_Some in E. destruct E as [Hf Hkey].
      destruct (aggregate_percentage genomes f Hf) as [Hc Hp].
      pose proof (aggregate_names genomes f Hf) as Hobs.
      rewrite (Hspell _ Hobs Hkey) in Hc. rewrite Hocc in Hc.
      rewrite Hp, Hc, percentageOf_all by exact Hlen. reflexivity.
    - exfalso.
      assert (In name (List.map SkillFrequency.skillName (TeamAggregate.skills team))) as Hn.
      { apply (Permutation_in _ (Permutation_sym (aggregate_skill_names genomes))).
        apply firstSeen_In, Hname. }
      apply in_map_iff in Hn. destruct Hn as (f & Hf & Hfin).
      apply (lastMatch_None _ _ E f Hfin). rewrite Hf. reflexivity. }
  assert (SkillDelta.isRedundant (skillDelta team strength) = true) as Hred.
  { unfold skillDelta in *. cbn [SkillDelta.isRedundant SkillDelta.teamCoverage] in *.
    rewrite Hcov. reflexivity. }
  assert (In (skillDelta team strength)
             (DeltaAnalysis.redundantSkills (calculateDelta candidate team))) as Hd.
  { apply redundantSkills_In. exists strength. auto. }
  split; [exact Hcov|]. split; [exact Hd|].
  set (d := skillDelta team strength) in *.
  set (redundant := DeltaAnalysis.redundantSkills (calculateDelta candidate team)) in *.
  set (g := List.filter (sameKey (groupKey d)) redundant).
  assert (In d g) as Hdg.
  { apply List.filter_In. split; [exact Hd | apply String.eqb_refl]. }
  assert (In g (groupsOf redundant)) as Hg.
  { unfold groupsOf. apply in_map_iff. exists (groupKey d). split; [reflexivity|].
    apply firstSeen_In, in_map, Hd. }
  exists (alertOf (calculateDelta candidate team) (leader g) g).
  split; [|split; [exact Hdg|]].
  - rewrite redundancyAlerts_spec. apply in_map_iff. exists g. split; [reflexivity | exact Hg].
  - unfold alertOf. cbn [RedundancyAlert.severity].
    assert (In (leader g) g) as Hl.
    { destruct g as [|x r]; [destruct Hdg | left; reflexivity]. }
    apply List.filter_In in Hl. destruct Hl as [Hl Hk].
    apply String.eqb_eq in Hk.
    apply redundantSkills_In in Hl. destruct Hl as (s & Hs & El & _).
    rewrite El in Hk |- *.
    assert (toLowerCase (GenomeStrength.name s) = toLowerCase name) as Hsame.
    { refine (proj1 (key_injective _ _ _ _ (Hprof s) (Hprof strength) _)).
      exact Hk. }
    rewrite (skillDelta_same_key team s strength Hsame). fold d. rewrite Hcov. reflexivity.
Qed.

(** ** generateAlerts *)

(** The redundancy alerts partition the redundant skills: every redundant
    skill is in the list of exactly one alert, no alert has an empty list,
    and there are no more alerts than redundant skills, none at all
    exactly when there is no redundant skill. *)
Theorem alerts_partition_the_redundant_skills (delta : DeltaAnalysis.t) :
  let alerts := Alerts.redundancyAlerts (generateAlerts delta) in
  Permutation (List.concat (List.map RedundancyAlert.skills alerts))
              (DeltaAnalysis.redundantSkills delta)
  /\ Forall (fun a => RedundancyAlert.skills a <> []) alerts
  /\ (length alerts <= length (DeltaAnalysis.redundantSkills delta))%nat
  /\ (alerts = [] <-> DeltaAnalysis.redundantSkills delta = []).
Proof.
  cbv zeta. pose proof (alerts_skills delta) as Hs.
  assert (Permutation
            (List.concat (List.map RedundancyAlert.skills
                            (Alerts.redundancyAlerts (generateAlerts delta))))
            (DeltaAnalysis.redundantSkills delta)) as Hp
    by (rewrite Hs; apply groupsOf_partition).
  assert (forall g, In g (List.map RedundancyAlert.skills
                            (Alerts.redundancyAlerts (generateAlerts delta))) -> g <> []) as Hne
    by (intros g; rewrite Hs; apply groupsOf_nonempty).
  split; [exact Hp|]. split; [|split].
  - apply List.Forall_forall. intros a Ha. apply Hne, in_map, Ha.
  - rewrite <- (Permutation_length Hp), <- (List.length_map RedundancyAlert.skills).
    apply concat_length_nonempty, Hne.
  - split.
    + intros E. rewrite E in Hp. apply Permutation_nil in Hp. exact Hp.
    + intros E. unfold generateAlerts. cbn [Alerts.redundancyAlerts]. rewrite E. reflexivity.
Qed.

(** The redundancy alerts of a computed delta come most severe first: the
    team coverage of the skill that each alert describes never increases
    along the list, and neither does the severity. *)
Theorem alerts_most_severe_first (candidate : GenomeResponse.t) (team : TeamAggregate.t) :
  let alerts := Alerts.redundancyAlerts (generateAlerts (calculateDelta candidate team)) in
  StronglySorted
    (fun a b => le (SkillDelta.teamCoverage (leader (RedundancyAlert.skills b)))
                   (SkillDelta.teamCoverage (leader (RedundancyAlert.skills a))) = true)
    alerts
  /\ Forall (fun a => RedundancyAlert.severity a
                      = severityOf (SkillDelta.teamCoverage (leader (RedundancyAlert.skills a))))
       alerts
  /\ StronglySorted
       (fun a b => (severityLevel (RedundancyAlert.severity b)
                    <= severityLevel (RedundancyAlert.severity a))%nat)
       alerts.
Proof.
  cbv zeta. set (delta := calculateDelta candidate team).
  pose proof (leaders_sorted _ _ (redundantSkills_sorted candidate team)) as Hs.
  fold delta in Hs. rewrite <- alerts_skills, List.map_map in Hs.
  assert (Forall (fun a => RedundancyAlert.severity a
                           = severityOf (SkillDelta.teamCoverage (leader (RedundancyAlert.skills a))))
            (Alerts.redundancyAlerts (generateAlerts delta))) as Hsev.
  { apply List.Forall_forall. intros a Ha. apply redundancyAlert_inv in Ha.
    destruct Ha as (skill & rest & _ & ->). reflexivity. }
  assert (StronglySorted
            (fun a b => le (SkillDelta.teamCoverage (leader (RedundancyAlert.skills b)))
                           (SkillDelta.teamCoverage (leader (RedundancyAlert.skills a))) = true)
            (Alerts.redundancyAlerts (generateAlerts delta))) as Hcov.
  { clear Hsev. induction (Alerts.redundancyAlerts (generateAlerts delta)) as [|a l IH];
      [constructor|].
    cbn [List.map] in Hs. inversion Hs as [|? ? Hl Ha]; subst.
    constructor; [apply IH, Hl|].
    apply List.Forall_map in Ha. exact Ha. }
  split; [exact Hcov|]. split; [exact Hsev|].
  clear Hs. induction Hcov as [|a l Hl IH Ha]; [constructor|].
  inversion Hsev as [|? ? Ea El]; subst.
  constructor; [apply IH, El|].
  rewrite List.Forall_forall in Ha, El. apply List.Forall_forall. intros b Hb.
  rewrite Ea, (El b Hb). apply severityOf_monotone, Ha, Hb.
Qed.

(** For a team of one to a hundred members, the percentage that
    [calculateDelta] stores for a count, rounded to two decimals, gives
    the count back when [generateAlerts] multiplies it by the size of the
    team and rounds: no member is lost or gained on the way. *)
Theorem percentage_gives_the_count_back (total count : nat) :
  (1 <= total <= 100)%nat -> (count <= total)%nat ->
  let percentage :=
    div (mathRound (mul (mul (div (ofNat count) (ofNat total)) hundred) hundred)) hundred in
  mathRound (mul (div (orElse percentage zero) hundred) (ofNat total)) = ofNat count
  /\ toString (ofNat count) = pretty (Z.of_nat count).
Proof.
  intros Ht Hc. cbv zeta. split.
  - exact (count_round_trip total count Ht Hc).
  - destruct count as [|c]; [reflexivity|].
    destruct (ofZ_exact (Z.of_nat (S c))) as (m & e & E & He & Hm).
    { assert (100 < 2 ^ 53) by (vm_compute; reflexivity). lia. }
    assert (100 < 2 ^ 53) as Hbig by (vm_compute; reflexivity).
    unfold ofNat. rewrite E. unfold toString, isSafeInteger, integerPart.
    destruct (Z.leb_spec 0 e) as [H0|H0].
    + assert (e = 0) as -> by lia. rewrite Hm.
      replace (Z.of_nat (S c) * 2 ^ (- 0) * 2 ^ 0) with (Z.of_nat (S c)) by (simpl; lia).
      destruct (Z.leb_spec (Z.of_nat (S c)) (2 ^ 53)); [reflexivity | lia].
    + rewrite Hm. rewrite Z.mod_mul, Z.div_mul by (apply Z.pow_nonzero; lia).
      cbn [Z.eqb andb].
      destruct (Z.leb_spec (Z.of_nat (S c)) (2 ^ 53)); [reflexivity | lia].
Qed.

(** In a team of at most a hundred profiles, none of which lists a skill
    twice, the count of a redundancy alert is the number of team members
    who have the skill at the candidate's own proficiency level: the
    number recorded by the aggregate survives the conversion to a
    percentage and back.  When that number is positive the message names
    it; when nobody in the team is at that level the message states the
    coverage of the skill instead. *)
Theorem alert_counts_the_exact_matches (genomes : list GenomeResponse.t)
    (candidate : GenomeResponse.t) (a : RedundancyAlert.t) :
  (1 <= length genomes <= checkedTeamSize)%nat ->
  Forall (fun g => List.NoDup (strengthNames g)) genomes ->
  In a (Alerts.redundancyAlerts
          (generateAlerts (calculateDelta candidate (buildTeamAggregate (Some genomes))))) ->
  let skill := leader (RedundancyAlert.skills a) in
  exists f,
    let matches := occurrencesAt (SkillFrequency.skillName f)
                     (SkillDelta.candidateProficiency skill)
                     (flat_map strengthObservations genomes) in
    lastMatch (toLowerCase (SkillDelta.skillName skill))
      (TeamAggregate.skills (buildTeamAggregate (Some genomes))) = Some f
    /\ (matches <= SkillFrequency.count f <= length genomes)%nat
    /\ exactMatchCount (length genomes) skill = ofNat matches
    /\ ((1 <= matches)%nat ->
        RedundancyAlert.count a = ofNat matches
        /\ RedundancyAlert.message a = exactMatchMessage (ofNat matches) skill)
    /\ (matches = 0%nat ->
        RedundancyAlert.message a = coverageMessage skill
        /\ RedundancyAlert.count a
           = mathRound (mul (SkillDelta.teamCoverage skill) (ofNat (length genomes)))).
Proof.
  intros Hlen Hnd Ha. cbv zeta.
  set (team := buildTeamAggregate (Some genomes)) in *.
  assert (TeamAggregate.totalMembers team = length genomes) as Htot.
  { subst team. destruct genomes as [|g gs]; [reflexivity | apply aggregate_totalMembers]. }
  apply redundancyAlert_inv in Ha. destruct Ha as (skill & rest & Hg & ->).
  change (RedundancyAlert.skills (alertOf _ skill (skill :: rest))) with (skill :: rest).
  change (leader (skill :: rest)) with skill.
  assert (In skill (DeltaAnalysis.redundantSkills (calculateDelta candidate team))) as Hin.
  { unfold groupsOf in Hg. apply in_map_iff in Hg. destruct Hg as (k & Hk & _).
    assert (In skill (List.filter (sameKey k)
                        (DeltaAnalysis.redundantSkills (calculateDelta candidate team)))) as Hf
      by (rewrite Hk; left; reflexivity).
    apply List.filter_In in Hf. exact (proj1 Hf). }
  apply redundantSkills_In in Hin. destruct Hin as (s & _ & Hs & Hr). rewrite Hs in Hr.
  destruct (skillDelta_matched team s Hr) as (f & Hf & _ & Hdist).
  exists f.
  assert (SkillDelta.skillName skill = GenomeStrength.name s) as Hname by (rewrite Hs; reflexivity).
  rewrite Hname. split; [exact Hf|].
  apply lastMatch_Some in Hf. destruct Hf as [Hfin _].
  pose proof (proficiency_levels_spec genomes f Hfin) as (Hl & Hpos).
  pose proof (aggregate_percentage genomes f Hfin) as [Hc _].
  destruct (occurrences_profilesWith (SkillFrequency.skillName f) genomes Hnd) as [Hp1 Hp2].
  set (p := SkillDelta.candidateProficiency skill) in *.
  set (matches := occurrencesAt (SkillFrequency.skillName f) p
                    (flat_map strengthObservations genomes)) in *.
  assert (matches <= SkillFrequency.count f)%nat as Hle.
  { rewrite Hc, observedNames_observations. apply occurrencesAt_le. }
  assert (SkillFrequency.count f <= length genomes)%nat as Hle' by lia.
  split; [lia|].
  assert (exactMatchCount (length genomes) skill = ofNat matches) as Hexact.
  { assert (ordinaryLevel p) as [Ho1 Ho2]
      by (subst p; rewrite Hs; apply proficiency_ordinary).
    unfold exactMatchCount, proficiencyPercentage, getMember. fold p.
    rewrite Hs at 1. rewrite Hdist, lookup_delete_ne by congruence.
    rewrite lookup_fmap, Htot.
    specialize (Hl p). fold matches in Hl.
    destruct (SkillFrequency.proficiencyLevels f !! p) as [c|] eqn:E;
      cbn [fmap option_fmap option_map] in *.
    - cbn in Hl. subst c. apply count_round_trip; lia.
    - rewrite Ho2. cbn in Hl. rewrite <- Hl.
      destruct (ofZ_exact (Z.of_nat (length genomes))) as (m & e & Em & _).
      { unfold checkedTeamSize in Hlen.
        assert (100 < 2 ^ 53) by (vm_compute; reflexivity). lia. }
      unfold ofNat. rewrite Em. reflexivity. }
  split; [exact Hexact|].
  assert (membersOrOne (Summary.totalTeamMembers
            (DeltaAnalysis.summary (calculateDelta candidate team))) = length genomes) as Hmem.
  { rewrite calculateDelta_spec. cbn [DeltaAnalysis.summary Summary.totalTeamMembers].
    rewrite Htot. destruct (length genomes); [lia | reflexivity]. }
  split.
  - intros H1. destruct (ofNat_positive matches H1) as [Hgt Htr].
    { unfold checkedTeamSize in Hlen.
      assert (Z.of_nat matches <= 100) by lia.
      assert (100 < 2 ^ 53) by (vm_compute; reflexivity). lia. }
    split.
    + unfold alertOf. cbn [RedundancyAlert.count]. rewrite Hmem, Hexact.
      unfold orElse. rewrite Htr. reflexivity.
    + rewrite alertOf_message. cbv zeta. rewrite Hmem, Hexact, Hgt. reflexivity.
  - intros H0. rewrite H0 in Hexact. split.
    + rewrite alertOf_message. cbv zeta. rewrite Hmem, Hexact. reflexivity.
    + unfold alertOf. cbn [RedundancyAlert.count]. rewrite Hmem, Hexact. reflexivity.
Qed.

(** A value-add alert is produced exactly when the delta has a value-add
    skill or language.  It lists a prefix of at most ten value-add skills
    and every value-add language, and its message always names what the
    candidate brings: the bare greeting is never the whole message. *)
Theorem value_add_alert_when_something_to_add (delta : DeltaAnalysis.t) :
  (Alerts.valueAddAlert (generateAlerts delta) = None
   <-> DeltaAnalysis.valueAddSkills delta = [] /\ DeltaAnalysis.valueAddLanguages delta = [])
  /\ (forall a,
        Alerts.valueAddAlert (generateAlerts delta) = Some a ->
        ValueAddAlert.skills a = firstn 10 (DeltaAnalysis.valueAddSkills delta)
        /\ (length (ValueAddAlert.skills a) <= 10)%nat
        /\ length (ValueAddAlert.skills a)
           = Nat.min 10 (length (DeltaAnalysis.valueAddSkills delta))
        /\ ValueAddAlert.languages a = DeltaAnalysis.valueAddLanguages delta
        /\ String.prefix "Strong Hire: This candidate brings " (ValueAddAlert.message a) = true).
Proof.
  unfold generateAlerts. cbn [Alerts.valueAddAlert]. split.
  - destruct (DeltaAnalysis.valueAddSkills delta) as [|s l],
             (DeltaAnalysis.valueAddLanguages delta) as [|x r]; cbn;
      split; try discriminate; try tauto; intros [? ?]; discriminate.
  - intros a Ha.
    destruct (Nat.ltb 0 (length (DeltaAnalysis.valueAddSkills delta))
              || Nat.ltb 0 (length (DeltaAnalysis.valueAddLanguages delta)))%bool eqn:E;
      [|discriminate].
    injection Ha as <-. cbn [ValueAddAlert.skills ValueAddAlert.languages ValueAddAlert.message].
    split; [reflexivity|]. split; [apply List.firstn_le_length|].
    split; [apply List.length_firstn|]. split; [reflexivity|].
    unfold valueAddMessage.
    assert (Nat.ltb 0 (length
              ((if Nat.ltb 0 (length (List.map SkillDelta.skillName
                                        (firstn 10 (DeltaAnalysis.valueAddSkills delta))))
                then [skillsClause (List.map SkillDelta.skillName
                                      (firstn 10 (DeltaAnalysis.valueAddSkills delta)))]
                else [])
               ++ (if Nat.ltb 0 (length (List.map LanguageDelta.languageName
                                           (DeltaAnalysis.valueAddLanguages delta)))
                   then [languagesClause (List.map LanguageDelta.languageName
                                            (DeltaAnalysis.valueAddLanguages delta))]
                   else []))) = true) as ->.
    { rewrite !List.length_map.
      destruct (DeltaAnalysis.valueAddSkills delta) as [|s l]; [|reflexivity].
      destruct (DeltaAnalysis.valueAddLanguages delta) as [|x r]; [discriminate | reflexivity]. }
    rewrite <- append_assoc. apply prefix_append.
Qed.

(** ** The radar *)

(** The value of a proficiency on the radar.  The proficiency is looked
    up in lower case.  Unless its lower-cased form is the name of a member
    of [Object.prototype], the value is one of the five levels 1, 0.8,
    0.5, 0.3 and 0.1, hence between 0.1 and 1 and never 0 or [NaN], and
    it is 0.3, like that of a novice, when the lower-cased form is none
    of the five known proficiencies.  Under the name of such a member the
    chart gets the inherited member instead of a number, and [NaN] from
    every computation on it.  Each of the five proficiencies of the type
    that lower-casing leaves as it is has its own value. *)
Theorem proficiency_value_is_a_level (p : string) :
  (isInherited (toLowerCase p) = false ->
   In (proficiencyToValue p) [one; REDUNDANCY_THRESHOLD; ONE_HALF; THREE_TENTHS; ONE_TENTH]
   /\ le ONE_TENTH (proficiencyToValue p) = true
   /\ le (proficiencyToValue p) one = true
   /\ truthy (proficiencyToValue p) = true
   /\ (~ In (toLowerCase p)
            ["master"; "expert"; "proficient"; "novice"; "no-experience-interested"] ->
       proficiencyToValue p = THREE_TENTHS))
  /\ (isInherited (toLowerCase p) = true -> proficiencyToValue p = S754_nan)
  /\ (forall q, toLowerCase q = toLowerCase p -> proficiencyToValue q = proficiencyToValue p)
  /\ (forall level,
        toLowerCase (Proficiency.text level) = Proficiency.text level ->
        proficiencyToValue (Proficiency.text level) = levelValue level).
Proof.
  split; [|split; [|split]].
  - intros Hp. pose proof (proficiencyToValue_cases p Hp) as H.
    split; [exact H|].
    assert (le ONE_TENTH (proficiencyToValue p) = true
            /\ le (proficiencyToValue p) one = true
            /\ truthy (proficiencyToValue p) = true) as (H1 & H2 & H3).
    { cbn [In] in H. destruct H as [<-|[<-|[<-|[<-|[<-|[]]]]]]; repeat split; reflexivity. }
    split; [exact H1|]. split; [exact H2|]. split; [exact H3|].
    intros Hn. unfold proficiencyToValue. cbv zeta. rewrite Hp. cbn [In] in Hn.
    repeat (match goal with
            | |- context [String.eqb (toLowerCase p) ?b] =>
                destruct (String.eqb_spec (toLowerCase p) b) as [E|_];
                  [exfalso; apply Hn; rewrite E; auto 10|]
            end).
    reflexivity.
  - intros H. unfold proficiencyToValue. cbv zeta. rewrite H.
    unfold isInherited, objectPrototypeKeys in H. cbn [existsb] in H.
    repeat (apply orb_true_iff in H; destruct H as [H|H]); try discriminate H;
      apply String.eqb_eq in H; rewrite H; reflexivity.
  - intros q Hq. unfold proficiencyToValue. rewrite Hq. reflexivity.
  - apply proficiencyToValue_level.
Qed.

(** The radar of the page.  Without a team aggregate there is no data.
    Otherwise there are at most eight axes, as many as there are distinct
    lower-cased names among the team's first six skills and at most two
    candidate skills that are not among those.  When the first six skills
    have a name, each of them is represented by an axis that bears the
    name of one of them, equal to its own up to case.  The value of the
    candidate on an axis is 0 or the value of a proficiency level, hence
    between 0 and 1 (as long as lower-casing leaves the five
    proficiencies of the type as they are), and it is 0 on every axis as
    long as no candidate is loaded. *)
Theorem radar_has_at_most_eight_axes (team : TeamAggregate.t)
    (candidateGenome : option GenomeResponse.t) :
  let data := getRadarData (Some team) candidateGenome in
  let topSix := firstn 6 (TeamAggregate.skills team) in
  getRadarData None candidateGenome = []
  /\ (length data <= 8)%nat
  /\ (length data <= length topSix + 2)%nat
  /\ length data = length (radarKeys team candidateGenome)
  /\ (Forall (fun s => SkillFrequency.skillName s <> EmptyString) topSix ->
      forall s, In s topSix ->
        exists p,
          In p data
          /\ In (RadarDataPoint.skill p) (List.map SkillFrequency.skillName topSix)
          /\ toLowerCase (RadarDataPoint.skill p) = toLowerCase (SkillFrequency.skillName s))
  /\ ((forall level, toLowerCase (Proficiency.text level) = Proficiency.text level) ->
      Forall (fun p => le zero (RadarDataPoint.candidateValue p) = true
                       /\ le (RadarDataPoint.candidateValue p) one = true) data)
  /\ Forall (fun p => RadarDataPoint.candidateValue p = zero)
       (getRadarData (Some team) None).
Proof.
  cbv zeta.
  destruct (radar_points team candidateGenome)
    as (allSkills & point & Hdata & Hkeys & Htyped & Hval & Hname).
  assert (length (getRadarData (Some team) candidateGenome)
          = length (radarKeys team candidateGenome)) as Hcount.
  { rewrite Hdata, List.length_map, <- Hkeys. unfold JSMap.keys.
    rewrite List.length_map. reflexivity. }
  assert (length (getRadarData (Some team) candidateGenome)
          <= length (firstn 6 (TeamAggregate.skills team)) + 2)%nat as Hlen.
  { rewrite Hcount. unfold radarKeys. cbv zeta. unfold firstSeen.
    etransitivity; [apply fold_addKey_length|].
    cbn [length]. rewrite List.length_app, !List.length_map.
    pose proof (List.firstn_le_length 2
                  (List.filter
                     (fun s => negb (existsb (String.eqb (toLowerCase (GenomeStrength.name s)))
                                       (List.map (fun s0 => toLowerCase (SkillFrequency.skillName s0))
                                          (firstn 6 (TeamAggregate.skills team)))))
                     match candidateGenome with
                     | Some genome => default [] (GenomeResponse.strengths genome)
                     | None => []
                     end)).
    lia. }
  split; [reflexivity|]. split.
  { pose proof (List.firstn_le_length 6 (TeamAggregate.skills team)). lia. }
  split; [exact Hlen|]. split; [exact Hcount|]. split; [|split].
  - intros Hnames s Hs. rewrite List.Forall_forall in Hnames.
    set (key := toLowerCase (SkillFrequency.skillName s)).
    assert (In key (JSMap.keys allSkills)) as Hk.
    { rewrite Hkeys. unfold radarKeys. cbv zeta. apply firstSeen_In, in_or_app. left.
      apply (in_map (fun s => toLowerCase (SkillFrequency.skillName s))), Hs. }
    unfold JSMap.keys in Hk. apply in_map_iff in Hk. destruct Hk as ([k d] & Ek & Hin).
    cbn [fst] in Ek. subst k.
    destruct (List.find (fun s => String.eqb (toLowerCase (SkillFrequency.skillName s)) key)
                (firstn 6 (TeamAggregate.skills team))) as [s'|] eqn:Ef.
    + pose proof (List.find_some _ _ Ef) as [Hs' Hk']. apply String.eqb_eq in Hk'.
      exists (point (key, d)). split; [rewrite Hdata; apply in_map, Hin|].
      rewrite (Hname (key, d) s' Ef (Hnames s' Hs')).
      split; [apply in_map, Hs' | exact Hk'].
    + exfalso. pose proof (List.find_none _ _ Ef s Hs) as Hn. cbn beta in Hn.
      unfold key in Hn. rewrite String.eqb_refl in Hn. discriminate Hn.
  - intros Hlevels. rewrite Hdata. apply List.Forall_forall. intros p Hp.
    apply in_map_iff in Hp. destruct Hp as (kv & <- & Hin).
    rewrite List.Forall_forall in Htyped. rewrite Hval.
    destruct (Htyped kv Hin) as [-> | (level & ->)]; [split; reflexivity|].
    assert ((match Proficiency.text level with
             | EmptyString => zero
             | String _ _ => proficiencyToValue (Proficiency.text level)
             end) = levelValue level) as ->.
    { rewrite <- (proficiencyToValue_level level (Hlevels level)). destruct level; reflexivity. }
    destruct level; split; reflexivity.
  - apply List.Forall_forall. intros p Hp. unfold getRadarData in Hp. cbv zeta in Hp.
    apply in_map_iff in Hp. destruct Hp as ([key data] & <- & Hin).
    cbn [snd RadarDataPoint.candidateValue]. cbn [firstn List.filter fold_left] in Hin.
    assert (Forall (fun kv : string * RadarEntry.t => RadarEntry.candidateProficiency (snd kv) = None)
              (fold_left addTeamSkill (firstn 6 (TeamAggregate.skills team)) [])) as HF.
    { apply fold_Forall; [|constructor]. intros m a Hm. unfold addTeamSkill.
      apply Forall_set; [exact Hm | reflexivity]. }
    rewrite List.Forall_forall in HF. specialize (HF _ Hin). cbn [snd] in HF.
    rewrite HF. reflexivity.
Qed.

(** The missing pieces of a radar are the axes on which the candidate's
    value exceeds the team's by more than 0.2, each with its position in
    the data.  They come largest extension first, so the piece that the
    chart highlights is the largest; this holds whenever the values are
    binary64 numbers, as those of the page's radar data are. *)
Theorem missing_pieces_largest_first :
  (forall data,
     Forall (fun piece =>
               gt (MissingPiece.extension piece) VALUE_ADD_THRESHOLD = true
               /\ exists p, nth_error data (MissingPiece.index piece) = Some p
                            /\ MissingPiece.skill piece = RadarDataPoint.skill p
                            /\ MissingPiece.extension piece
                               = sub (RadarDataPoint.candidateValue p) (RadarDataPoint.teamValue p))
       (missingPieces data)
     /\ List.NoDup (List.map MissingPiece.index (missingPieces data))
     /\ (length (missingPieces data) <= length data)%nat
     /\ (Forall (fun p => valid_binary prec emax (RadarDataPoint.teamValue p) = true
                          /\ valid_binary prec emax (RadarDataPoint.candidateValue p) = true) data ->
         StronglySorted
           (fun a b => le (MissingPiece.extension b) (MissingPiece.extension a) = true)
           (missingPieces data)))
  /\ (forall team candidateGenome,
        StronglySorted
          (fun a b => le (MissingPiece.extension b) (MissingPiece.extension a) = true)
          (missingPieces (getRadarData (Some team) candidateGenome))).
Proof.
  split.
  - intros data. split; [|split; [|split]].
    + apply List.Forall_forall. intros piece Hp. unfold missingPieces in Hp.
      apply (proj1 (sortBy_In _ _ _)) in Hp. apply List.filter_In in Hp.
      destruct Hp as [Hp Hgt]. split; [exact Hgt|].
      apply in_map_iff in Hp. destruct Hp as ([i p] & <- & Hin).
      apply indexed_In in Hin. destruct Hin as [_ Hn]. rewrite Nat.sub_0_r in Hn.
      exists p. cbn [MissingPiece.index MissingPiece.skill MissingPiece.extension fst snd].
      auto.
    + unfold missingPieces.
      apply (Permutation_NoDup (Permutation_map _ (Permutation_sym (sortBy_perm _ _)))).
      assert (forall start (l : list RadarDataPoint.t),
                List.NoDup (List.map fst (indexed start l))
                /\ forall i, In i (List.map fst (indexed start l)) -> (start <= i)%nat) as Hidx.
      { intros start l. revert start. induction l as [|x l IH]; intros start.
        - split; [constructor | intros i []].
        - cbn [indexed List.map fst]. destruct (IH (S start)) as [H1 H2]. split.
          + constructor; [|exact H1]. intros Hi. apply H2 in Hi. lia.
          + intros i [<-|Hi]; [lia|]. apply H2 in Hi. lia. }
      set (mk := fun ip : nat * RadarDataPoint.t =>
                   MissingPiece.mk (fst ip) (RadarDataPoint.skill (snd ip))
                     (sub (RadarDataPoint.candidateValue (snd ip))
                          (RadarDataPoint.teamValue (snd ip)))).
      assert (forall l, List.NoDup (List.map fst l) ->
                List.NoDup (List.map MissingPiece.index
                              (List.filter (fun item => gt (MissingPiece.extension item)
                                                          VALUE_ADD_THRESHOLD)
                                 (List.map mk l)))) as Hf.
      { induction l as [|[i p] l IH]; intros Hn; [constructor|].
        cbn [List.map List.filter fst] in *. inversion Hn as [|? ? Hi Hl]; subst.
        destruct (gt _ VALUE_ADD_THRESHOLD); [|apply IH, Hl].
        cbn [List.map]. constructor; [|apply IH, Hl].
        intros HI. apply Hi. apply in_map_iff in HI. destruct HI as (z & Hz & Hin).
        apply List.filter_In in Hin. destruct Hin as [Hin _].
        apply in_map_iff in Hin. destruct Hin as ([j q] & <- & Hjq).
        cbn in Hz. subst j. apply (in_map fst) in Hjq. exact Hjq. }
      apply Hf, Hidx.
    + unfold missingPieces. rewrite sortBy_length.
      etransitivity; [apply List.filter_length_le|].
      rewrite List.length_map.
      assert (forall start (l : list RadarDataPoint.t), length (indexed start l) = length l) as Hl.
      { intros start l. revert start. induction l as [|x l IH]; intros start; [reflexivity|].
        cbn [indexed length]. rewrite IH. reflexivity. }
      rewrite Hl. reflexivity.
    + apply missingPieces_sorted.
  - intros team candidateGenome. apply missingPieces_sorted, radar_values_valid.
Qed.

(** ** The user name of a genome request *)

(** [getGenome] asks for the last non-empty segment of what it is given.
    A blank input is refused; otherwise a scheme and host at the start are
    dropped and the name is the last non-empty segment of the remaining
    path, trimmed, whether or not the path goes through [/bios/]; it must
    not be blank.  When the path has no segment at all it consists of
    slashes only, and all but the first of them are taken as the name. *)
Theorem genome_user_name_is_the_last_segment (username : string) :
  (cleanUsername username = inl NonEmptyStringRequired <-> trim username = EmptyString)
  /\ (trim username <> EmptyString ->
      let path := removeOrigin (trim username) in
      (forall p ps, segments path = p :: ps ->
         let name := trim (List.last (p :: ps) EmptyString) in
         noSlash name = true
         /\ cleanUsername username = if nonEmpty name then inr name else inl UsernameRequired)
      /\ (segments path = [] ->
          onlySlashes path = true
          /\ cleanUsername username
             = if nonEmpty (removeLeadingSlash path) then inr (removeLeadingSlash path)
               else inl UsernameRequired)).
Proof.
  clear inheritedText toLowerCase.
  rewrite cleanUsername_spec. split.
  - destruct (trim username) eqn:E; cbn [nonEmpty]; [tauto|]. cbv zeta.
    split; [|discriminate]. destruct (nonEmpty _); discriminate.
  - intros Hne. destruct (trim username) as [|c r] eqn:E; [contradiction|].
    cbn [nonEmpty]. cbv zeta. split.
    + intros p ps Es. rewrite Es. split; [|reflexivity].
      apply noSlash_trim.
      assert (segments (removeOrigin (String c r)) <> []) as Hn by (rewrite Es; discriminate).
      pose proof (segments_wellformed _ _ (segments_last_In _ Hn)) as [_ H].
      rewrite Es in H. exact H.
    + intros Es. rewrite Es. split; [apply segments_none, Es | reflexivity].
Qed.

Lemma genome_user_name_is_the_last_segment_witness :
  cleanUsername "https://torre.ai/bios/renanpeixotox" = inr "renanpeixotox".
Proof.
  refine (proj2 (proj1 (proj2 (genome_user_name_is_the_last_segment
                                  "https://torre.ai/bios/renanpeixotox") _)
                   "bios" ["renanpeixotox"] _)).
  - discriminate.
  - vm_compute. reflexivity.
Defined.

(** What [getGenome] asks for is never blank: the name is not empty and
    has no white space at either end.  It contains no slash, unless the
    input was nothing but slashes. *)
Theorem genome_user_name_is_well_formed (username name : string) :
  cleanUsername username = inr name ->
  nonEmpty name = true
  /\ trim name = name
  /\ (noSlash name = true
      \/ (onlySlashes name = true /\ onlySlashes (removeOrigin (trim username)) = true)).
Proof.
  rewrite cleanUsername_spec.
  destruct (nonEmpty (trim username)); [|discriminate]. cbv zeta.
  set (path := removeOrigin (trim username)).
  destruct (segments path) as [|p ps] eqn:Es.
  - destruct (nonEmpty (removeLeadingSlash path)) eqn:Hn; [|discriminate].
    intros [= <-]. pose proof (segments_none _ Es) as Hs.
    assert (onlySlashes (removeLeadingSlash path) = true) as Hs'.
    { destruct path as [|c r]; [reflexivity|]. unfold onlySlashes in *. cbn [allChars] in Hs.
      apply andb_true_iff in Hs. destruct Hs as [Hc Hr]. cbn [removeLeadingSlash].
      rewrite Hc. exact Hr. }
    split; [exact Hn|]. split; [apply trim_noSpace, onlySlashes_noSpace, Hs'|].
    right. split; assumption.
  - destruct (nonEmpty (trim (List.last (p :: ps) EmptyString))) eqn:Hn; [|discriminate].
    intros [= <-]. split; [exact Hn|]. split; [apply trim_idem|]. left.
    apply noSlash_trim.
    assert (segments path <> []) as Hne by (rewrite Es; discriminate).
    pose proof (segments_wellformed _ _ (segments_last_In _ Hne)) as [_ H].
    rewrite Es in H. exact H.
Qed.

Lemma genome_user_name_is_well_formed_witness :
  nonEmpty "john doe" = true /\ trim "john doe" = "john doe".
Proof.
  pose proof (genome_user_name_is_well_formed "  /api/genome/bios/john doe " "john doe"
                ltac:(vm_compute; reflexivity)) as (H1 & H2 & _).
  exact (conj H1 H2).
Defined.

(** A user name is accepted as it is, and so is a link to a profile: for a
    name without slash or white space, [getGenome] asks for that name when
    it is given the name alone, or an http or https address whose path
    ends with the name, through [/bios/] or not. *)
Theorem genome_user_name_from_a_link (host path user : string) :
  nonEmpty user = true -> noSlash user = true -> noSpace user = true ->
  cleanUsername user = inr user
  /\ (nonEmpty host = true -> noSlash host = true ->
      cleanUsername ("https://" +:+ host +:+ path +:+ "/" +:+ user) = inr user
      /\ cleanUsername ("http://" +:+ host +:+ path +:+ "/" +:+ user) = inr user
      /\ cleanUsername ("https://" +:+ host +:+ "/bios/" +:+ user) = inr user).
Proof.
  intros Hu Hs Hsp. split.
  - rewrite cleanUsername_spec, (trim_noSpace user Hsp), Hu. cbv zeta.
    rewrite (removeOrigin_noSlash user Hs). unfold segments.
    rewrite (splitSlash_noSlash user Hs). cbn [List.filter]. rewrite Hu.
    cbn [List.last]. rewrite (trim_noSpace user Hsp), Hu. reflexivity.
  - intros Hh Hhs.
    assert (forall scheme rest,
              (scheme = "https://" \/ scheme = "http://") ->
              cleanUsername (scheme +:+ host +:+ rest +:+ "/" +:+ user) = inr user) as Hall.
    { intros scheme rest Hsch.
      assert (trim (scheme +:+ host +:+ rest +:+ "/" +:+ user)
              = scheme +:+ host +:+ rest +:+ "/" +:+ user) as Htrim.
      { unfold trim.
        assert (trimStart (scheme +:+ host +:+ rest +:+ "/" +:+ user)
                = scheme +:+ host +:+ rest +:+ "/" +:+ user) as ->
          by (destruct Hsch as [-> | ->]; reflexivity).
        change ("/" +:+ user) with (String "/" user).
        rewrite <- !append_assoc. apply trimEnd_append_slash; assumption. }
      destruct (dropWhileNot_slash (host +:+ rest) user) as [x Hx].
      apply (cleanUsername_last_segment _ x); try assumption.
      - rewrite Htrim. destruct Hsch as [-> | ->]; reflexivity.
      - rewrite Htrim, <- Hx.
        change ("/" +:+ user) with (String "/" user).
        rewrite (append_assoc host rest (String "/" user)).
        destruct (removeOrigin_https host (rest +:+ String "/" user) Hh Hhs) as [H1 H2].
        destruct Hsch as [-> | ->]; assumption. }
    split; [apply (Hall "https://" path); auto|].
    split; [apply (Hall "http://" path); auto|].
    apply (Hall "https://" "/bios"). auto.
Qed.

Lemma genome_user_name_from_a_link_witness :
  cleanUsername "renanpeixotox" = inr "renanpeixotox".
Proof.
  exact (proj1 (genome_user_name_from_a_link "torre.ai" "/bios" "renanpeixotox"
                  eq_refl eq_refl eq_refl)).
Defined.

End Engine.

(** * The properties on sample inputs

    The inputs are written with ASCII letters, which [asciiLowerCase]
    lower-cases as [toLowerCase] does, and print neither a large number
    nor an inherited member. *)

Lemma C3_last_spelling_wins_witness :
  SkillDelta.teamCoverage
    (skillDelta asciiLowerCase (buildTeamAggregate (Some twoSpellings))
       (GenomeStrength.mk "Python" (Some Proficiency.expert)))
  = div (ofZ 10) hundred.
Proof.
  exact (proj1 (proj2 (proj2 (proj1 (C3_last_spelling_wins asciiLowerCase eq_refl))))).
Defined.

Lemma C4_message_ending_witness :
  exists a,
    Alerts.valueAddAlert
      (generateAlerts asciiLowerCase noText noText
         (calculateDelta asciiLowerCase rustCandidate
            (buildTeamAggregate (Some (repeat goExpert 5))))) = Some a
    /\ endsWith "completely lacks." (ValueAddAlert.message a) = true.
Proof.
  destruct (proj2 (proj2 (C4_message_ending asciiLowerCase noText noText))
              (repeat goExpert 5) rustCandidate
              (GenomeStrength.mk "Rust" (Some Proficiency.novice)))
    as (a & H1 & H2 & _).
  - left. reflexivity.
  - intros n Hn. vm_compute in Hn.
    repeat (destruct Hn as [<-|Hn]; [discriminate|]). destruct Hn.
  - exists a. split; assumption.
Defined.

Lemma C5_exact_match_count_witness :
  exists skill rest,
    [SkillDelta.mk "Go" "expert" HIGH_SEVERITY {[ "expert" := ofZ 90 ]} true false]
    = skill :: rest
    /\ In skill (DeltaAnalysis.redundantSkills tenMembers).
Proof.
  destruct (proj1 (C5_exact_match_count asciiLowerCase noText noText) tenMembers
              (alertOf noText noText tenMembers
                 (SkillDelta.mk "Go" "expert" HIGH_SEVERITY {[ "expert" := ofZ 90 ]} true false)
                 (DeltaAnalysis.redundantSkills tenMembers)))
    as (skill & rest & H1 & H2 & _).
  - vm_compute. lia.
  - left. vm_compute. reflexivity.
  - exists skill, rest. split; [exact H1 | exact H2].
Defined.

Lemma C6_one_alert_per_pair_witness :
  Forall (fun a => RedundancyAlert.skills a <> [])
    (Alerts.redundancyAlerts (generateAlerts asciiLowerCase noText noText tenMembers)).
Proof.
  refine (proj1 (proj2 (proj1 (C6_one_alert_per_pair asciiLowerCase noText noText)
                          tenMembers _))).
  repeat constructor.
Defined.

Lemma C7_severity_cutoffs_witness :
  In (alertOf noText noText tenMembers
        (SkillDelta.mk "Go" "expert" HIGH_SEVERITY {[ "expert" := ofZ 90 ]} true false)
        (DeltaAnalysis.redundantSkills tenMembers))
     (Alerts.redundancyAlerts (generateAlerts asciiLowerCase noText noText tenMembers))
  /\ severityOf (div (ofZ 84) (ofZ 100)) = low.
Proof.
  assert (In (alertOf noText noText tenMembers
                (SkillDelta.mk "Go" "expert" HIGH_SEVERITY {[ "expert" := ofZ 90 ]} true false)
                (DeltaAnalysis.redundantSkills tenMembers))
             (Alerts.redundancyAlerts (generateAlerts asciiLowerCase noText noText tenMembers)))
    as Hin.
  { left. vm_compute. reflexivity. }
  split; [exact Hin|].
  exact (proj1 (proj2 (proj2 (proj2 (proj2
           (C7_severity_cutoffs asciiLowerCase noText noText tenMembers _ Hin)))))).
Defined.

Lemma C8_alert_lists_first_ten_witness :
  (10 < length (DeltaAnalysis.valueAddSkills elevenSkills))%nat
  /\ exists a,
       Alerts.valueAddAlert (generateAlerts asciiLowerCase noText noText elevenSkills) = Some a
       /\ ValueAddAlert.skills a = firstn 10 (DeltaAnalysis.valueAddSkills elevenSkills)
       /\ length (ValueAddAlert.skills a) = 10%nat
       /\ ValueAddAlert.languages a = DeltaAnalysis.valueAddLanguages elevenSkills.
Proof.
  assert (10 < length (DeltaAnalysis.valueAddSkills elevenSkills))%nat as H
    by (vm_compute; lia).
  split; [exact H|].
  exact (proj1 (C8_alert_lists_first_ten asciiLowerCase noText noText elevenSkills H)).
Defined.

Lemma coverage_is_a_fraction_witness :
  le (SkillDelta.teamCoverage
        (skillDelta asciiLowerCase (buildTeamAggregate (Some tenProfiles))
           (GenomeStrength.mk "Go" (Some Proficiency.expert)))) one
  = true.
Proof.
  refine (proj2 (proj1 (coverage_is_a_fraction asciiLowerCase tenProfiles _) _
                   (GenomeStrength.mk "Go" (Some Proficiency.expert)))).
  - vm_compute. reflexivity.
  - repeat constructor; vm_compute; tauto.
Defined.

Lemma language_nobody_speaks_is_a_value_add_witness :
  LanguageDelta.teamCoverage
    (languageDelta (buildTeamAggregate (Some (repeat goExpert 5)))
       (GenomeLanguage.mk "fr" "French" (Some Fluency.basic))) = zero.
Proof.
  refine (proj1 (proj2 (proj2 (language_nobody_speaks_is_a_value_add
                                 asciiLowerCase noText noText (repeat goExpert 5) rustCandidate)
                          (GenomeLanguage.mk "fr" "French" (Some Fluency.basic)) _ _ _))).
  - left. reflexivity.
  - vm_compute. tauto.
  - vm_compute. tauto.
Defined.

Lemma skill_of_every_member_is_redundant_witness :
  SkillDelta.teamCoverage
    (skillDelta asciiLowerCase (buildTeamAggregate (Some (repeat goExpert 3)))
       (GenomeStrength.mk "Go" (Some Proficiency.expert))) = one.
Proof.
  refine (proj1 (skill_of_every_member_is_redundant asciiLowerCase noText noText
                   (repeat goExpert 3) goExpert
                   (GenomeStrength.mk "Go" (Some Proficiency.expert)) _ _ _ _)).
  - vm_compute. lia.
  - repeat constructor.
  - intros n Hn _. cbn [GenomeStrength.name]. vm_compute in Hn. intuition congruence.
  - left. reflexivity.
Defined.

Lemma percentage_gives_the_count_back_witness :
  mathRound (mul (div (orElse (percentageOf 9 10) zero) hundred) (ofNat 10)) = ofNat 9.
Proof.
  exact (proj1 (percentage_gives_the_count_back noText 10 9 ltac:(lia) ltac:(lia))).
Defined.

Lemma alert_counts_the_exact_matches_witness :
  exists f,
    lastMatch asciiLowerCase
      (asciiLowerCase
         (SkillDelta.skillName
            (leader (RedundancyAlert.skills (goAlert asciiLowerCase noText noText)))))
      (TeamAggregate.skills (buildTeamAggregate (Some tenProfiles))) = Some f.
Proof.
  assert (1 <= length tenProfiles <= checkedTeamSize)%nat as H1 by (vm_compute; lia).
  assert (Forall (fun g => List.NoDup (strengthNames g)) tenProfiles) as H2
    by (repeat constructor; vm_compute; tauto).
  assert (In (goAlert asciiLowerCase noText noText)
            (Alerts.redundancyAlerts
               (generateAlerts asciiLowerCase noText noText
                  (calculateDelta asciiLowerCase goExpert
                     (buildTeamAggregate (Some tenProfiles))))))
    as H3.
  { assert (Alerts.redundancyAlerts
              (generateAlerts asciiLowerCase noText noText
                 (calculateDelta asciiLowerCase goExpert
                    (buildTeamAggregate (Some tenProfiles))))
            = [goAlert asciiLowerCase noText noText]) as -> by (vm_compute; reflexivity).
    left. reflexivity. }
  destruct (alert_counts_the_exact_matches asciiLowerCase noText noText tenProfiles goExpert
              (goAlert asciiLowerCase noText noText) H1 H2 H3) as (f & Hf & _).
  exists f. exact Hf.
Defined.

Lemma proficiency_value_is_a_level_witness :
  In (proficiencyToValue asciiLowerCase "Expert")
     [one; REDUNDANCY_THRESHOLD; ONE_HALF; THREE_TENTHS; ONE_TENTH].
Proof.
  exact (proj1 (proj1 (proficiency_value_is_a_level asciiLowerCase "Expert") eq_refl)).
Defined.

Lemma radar_has_at_most_eight_axes_witness :
  Forall (fun p => le zero (RadarDataPoint.candidateValue p) = true
                   /\ le (RadarDataPoint.candidateValue p) one = true)
    (getRadarData asciiLowerCase (Some (buildTeamAggregate (Some tenProfiles)))
       (Some rustCandidate)).
Proof.
  refine (proj1 (proj2 (proj2 (proj2 (proj2 (proj2
            (radar_has_at_most_eight_axes asciiLowerCase
               (buildTeamAggregate (Some tenProfiles)) (Some rustCandidate))))))) _).
  intros []; reflexivity.
Defined.
